(** * Download routing and file-type detection of the xlwings Lite data importer

    A shallow embedding of the URL routing and byte-sniffing functions of
    [data-importer/downloader-links-secure-token-stats-raw.py]
    (section URL_ROUTING), of the numeric-type test of its section
    DATA_PROFILING and of what its import scripts do with these functions
    between the sheet and the download, together with the parts of the
    Python runtime they call: [str] methods, the [re] patterns that occur
    in the file, the UTF-8 codec, [urllib.parse] and [os.path.join].

    Conventions.
    - A Python [str] is the list of its code points, a [bytes] object the
      list of its bytes; both are lists of [N].
    - A Python function that cannot raise is a Rocq function; one that can
      raise returns a [result].
    - [urllib.parse] follows CPython 3.12 (the interpreter embedded by
      xlwings Lite); the two validations of a network location that depend
      on the [ipaddress] and [unicodedata] modules are parameters. *)

From Stdlib Require Import String Ascii.
From Stdlib Require Import List NArith Bool Arith Lia.
Import ListNotations.

Local Open Scope N_scope.

(* ================================================================== *)
(** * Python strings                                                   *)
(* ================================================================== *)

Definition str := list N.
Definition bytes := list N.

(** A string literal as a list of code points. *)
Fixpoint str_of (s : string) : str :=
  match s with
  | EmptyString => []
  | String a r => N_of_ascii a :: str_of r
  end.

Fixpoint str_eqb (a b : str) : bool :=
  match a, b with
  | [], [] => true
  | x :: a', y :: b' => (x =? y) && str_eqb a' b'
  | _, _ => false
  end.

Definition in_range (lo hi c : N) : bool := (lo <=? c) && (c <=? hi).

Definition is_upper_ascii (c : N) : bool := in_range 65 90 c.
Definition is_lower_ascii (c : N) : bool := in_range 97 122 c.
Definition is_alpha_ascii (c : N) : bool := is_upper_ascii c || is_lower_ascii c.
Definition is_digit (c : N) : bool := in_range 48 57 c.

(** [str.lower()], one code point at a time.  ASCII and Latin-1 follow the
    Unicode tables.  Above U+00FF only the two code points whose lowercase
    contains an ASCII letter are listed (U+0130, the only code point whose
    lowercase is longer than one code point, and U+212A); the others are
    left as they are.  The program only ever searches a lowercased string
    for ASCII patterns and cuts it by length, which these rules decide in
    the same way as the full table. *)
Definition lower_cp (c : N) : list N :=
  if is_upper_ascii c then [c + 32]
  else if in_range 192 222 c && negb (c =? 215) then [c + 32]
  else if c =? 0x130 then [0x69; 0x307]
  else if c =? 0x212A then [0x6B]
  else [c].

Definition lower (s : str) : str := flat_map lower_cp s.

(** [str.isspace()] on one code point: the characters removed by
    [str.strip()] without argument. *)
Definition is_space (c : N) : bool :=
  in_range 0x09 0x0D c || in_range 0x1C 0x20 c || (c =? 0x85) || (c =? 0xA0)
  || (c =? 0x1680) || in_range 0x2000 0x200A c || (c =? 0x2028)
  || (c =? 0x2029) || (c =? 0x202F) || (c =? 0x205F) || (c =? 0x3000).

Fixpoint take_while (p : N -> bool) (s : str) : str :=
  match s with
  | [] => []
  | c :: tl => if p c then c :: take_while p tl else []
  end.

Fixpoint drop_while (p : N -> bool) (s : str) : str :=
  match s with
  | [] => []
  | c :: tl => if p c then drop_while p tl else s
  end.

Definition lstrip_with (p : N -> bool) (s : str) : str := drop_while p s.
Definition rstrip_with (p : N -> bool) (s : str) : str :=
  rev (drop_while p (rev s)).

(** [s.strip()] *)
Definition strip (s : str) : str := rstrip_with is_space (lstrip_with is_space s).

(** [s.startswith(p)] *)
Fixpoint startswith (p s : str) : bool :=
  match p, s with
  | [], _ => true
  | a :: p', b :: s' => (a =? b) && startswith p' s'
  | _ :: _, [] => false
  end.

(** [p in s] *)
Fixpoint contains (p s : str) : bool :=
  startswith p s ||
  match s with
  | [] => false
  | _ :: s' => contains p s'
  end.

(** [c in s] for a single character. *)
Definition has_char (c : N) (s : str) : bool := existsb (N.eqb c) s.

(** [s.count(c)] for a single character. *)
Definition count_char (c : N) (s : str) : nat :=
  length (filter (N.eqb c) s).

(** [s.replace(a, b)] for single characters. *)
Definition replace_char (a b : N) (s : str) : str :=
  map (fun c => if c =? a then b else c) s.

(** [s.replace(a, "")] for a single character. *)
Definition remove_char (a : N) (s : str) : str :=
  filter (fun c => negb (c =? a)) s.

(** [s.split(sep)] for a single-character separator. *)
Fixpoint split (sep : N) (s : str) : list str :=
  match s with
  | [] => [[]]
  | c :: tl =>
      if c =? sep then [] :: split sep tl
      else match split sep tl with
           | [] => [[c]]
           | w :: ws => (c :: w) :: ws
           end
  end.

(** [s.split(sep, 1)]: the text before the first separator and, when there
    is one, the text after it. *)
Fixpoint split_once (sep : N) (s : str) : str * option str :=
  match s with
  | [] => ([], None)
  | c :: tl =>
      if c =? sep then ([], Some tl)
      else let '(a, b) := split_once sep tl in (c :: a, b)
  end.

(** [sep.join(l)] for a single-character separator. *)
Fixpoint join (sep : N) (l : list str) : str :=
  match l with
  | [] => []
  | [w] => w
  | w :: ws => w ++ sep :: join sep ws
  end.

(** [s[-n:]] for [n > 0]. *)
Definition last_n (n : nat) (s : list N) : list N :=
  skipn (length s - n) s.

(* ================================================================== *)
(** * The regular expressions of the file                              *)
(* ================================================================== *)

(** The class [[a-zA-Z0-9_-]]. *)
Definition id_char (c : N) : bool :=
  is_lower_ascii c || is_upper_ascii c || is_digit c || (c =? 95) || (c =? 45).

(** A pattern prefix is a list of single-character tests. *)
Definition lit (s : string) : list (N -> bool) := map N.eqb (str_of s).

Fixpoint match_prefix (pre : list (N -> bool)) (s : str) : option str :=
  match pre, s with
  | [], _ => Some s
  | p :: pre', c :: s' => if p c then match_prefix pre' s' else None
  | _ :: _, [] => None
  end.

(** A match of [pre([a-zA-Z0-9_-]+)] that starts at the head of [s]: the
    group is the longest run of identifier characters after the prefix. *)
Definition match_id_at (pre : list (N -> bool)) (s : str) : option str :=
  match match_prefix pre s with
  | Some rest =>
      match take_while id_char rest with
      | [] => None
      | id => Some id
      end
  | None => None
  end.

(** [re.search(pre + '([a-zA-Z0-9_-]+)', s)] followed by [.group(1)]: the
    leftmost match. *)
Fixpoint search_id (pre : list (N -> bool)) (s : str) : option str :=
  match match_id_at pre s with
  | Some id => Some id
  | None =>
      match s with
      | [] => None
      | _ :: s' => search_id pre s'
      end
  end.

(** [r'/file/d/([a-zA-Z0-9_-]+)'] *)
Definition re_file_d : list (N -> bool) := lit "/file/d/".
(** [r'/open\?id=([a-zA-Z0-9_-]+)'] *)
Definition re_open_id : list (N -> bool) := lit "/open?id=".
(** [r'[?&]id=([a-zA-Z0-9_-]+)'] *)
Definition re_query_id : list (N -> bool) :=
  (fun c => (c =? 63) || (c =? 38)) :: lit "id=".

(** [re.match(r'^[a-zA-Z0-9_-]+$', s)] as a truth value.  [$] matches at
    the end of the string and also just before a newline that ends it. *)
Definition match_bare_id (s : str) : bool :=
  match take_while id_char s with
  | [] => false
  | _ :: _ =>
      match drop_while id_char s with
      | [] => true
      | [c] => c =? 10
      | _ => false
      end
  end.

(* ================================================================== *)
(** * The UTF-8 codec                                                   *)
(* ================================================================== *)

Definition is_cont (b : N) : bool := (0x80 <=? b) && (b <? 0xC0).

(** One pass of CPython's decoder over a byte string.  [Some c] is a
    decoded code point; [None] is one decoding error, whose range is the
    longest prefix of an ill-formed sequence (the decoder resumes after
    it). *)
Fixpoint utf8_scan (bs : bytes) : list (option N) :=
  match bs with
  | [] => []
  | b1 :: r1 =>
      if b1 <? 0x80 then Some b1 :: utf8_scan r1
      else if b1 <? 0xC2 then None :: utf8_scan r1
      else if b1 <? 0xE0 then
        match r1 with
        | [] => [None]
        | b2 :: r2 =>
            if is_cont b2
            then Some ((b1 - 0xC0) * 64 + (b2 - 0x80)) :: utf8_scan r2
            else None :: utf8_scan r1
        end
      else if b1 <? 0xF0 then
        match r1 with
        | [] => [None]
        | b2 :: r2 =>
            if negb (is_cont b2)
               || (if b2 <? 0xA0 then b1 =? 0xE0 else b1 =? 0xED)
            then None :: utf8_scan r1
            else
              match r2 with
              | [] => [None]
              | b3 :: r3 =>
                  if is_cont b3
                  then Some ((b1 - 0xE0) * 4096 + (b2 - 0x80) * 64
                             + (b3 - 0x80)) :: utf8_scan r3
                  else None :: utf8_scan r2
              end
        end
      else if b1 <? 0xF5 then
        match r1 with
        | [] => [None]
        | b2 :: r2 =>
            if negb (is_cont b2)
               || (if b2 <? 0x90 then b1 =? 0xF0 else b1 =? 0xF4)
            then None :: utf8_scan r1
            else
              match r2 with
              | [] => [None]
              | b3 :: r3 =>
                  if negb (is_cont b3) then None :: utf8_scan r2
                  else
                    match r3 with
                    | [] => [None]
                    | b4 :: r4 =>
                        if is_cont b4
                        then Some ((b1 - 0xF0) * 262144 + (b2 - 0x80) * 4096
                                   + (b3 - 0x80) * 64 + (b4 - 0x80))
                               :: utf8_scan r4
                        else None :: utf8_scan r3
                    end
              end
        end
      else None :: utf8_scan r1
  end.

(** [bs.decode('utf-8', errors='strict')]: [None] stands for
    [UnicodeDecodeError]. *)
Fixpoint all_decoded (l : list (option N)) : option str :=
  match l with
  | [] => Some []
  | Some c :: l' =>
      match all_decoded l' with
      | Some s => Some (c :: s)
      | None => None
      end
  | None :: _ => None
  end.

Definition decode_strict (bs : bytes) : option str := all_decoded (utf8_scan bs).

(** [bs.decode('utf-8', errors='ignore')] *)
Definition decode_ignore (bs : bytes) : str :=
  flat_map (fun o => match o with Some c => [c] | None => [] end) (utf8_scan bs).

(** [bs.decode('utf-8', errors='replace')] *)
Definition decode_replace (bs : bytes) : str :=
  map (fun o => match o with Some c => c | None => 0xFFFD end) (utf8_scan bs).

Definition is_surrogate (c : N) : bool := in_range 0xD800 0xDFFF c.

(** A Unicode scalar value: a code point that is no surrogate.  A [str]
    made of scalar values is what UTF-8 can encode. *)
Definition is_scalar (c : N) : bool := (c <? 0x110000) && negb (is_surrogate c).

(** The UTF-8 encoding of one code point; [None] for a surrogate (and for a
    number that is no code point), which [str.encode] refuses. *)
Definition utf8_encode_cp (c : N) : option bytes :=
  if c <? 0x80 then Some [c]
  else if c <? 0x800 then Some [0xC0 + c / 64; 0x80 + c mod 64]
  else if c <? 0x10000 then
    if is_surrogate c then None
    else Some [0xE0 + c / 4096; 0x80 + (c / 64) mod 64; 0x80 + c mod 64]
  else if c <? 0x110000 then
    Some [0xF0 + c / 262144; 0x80 + (c / 4096) mod 64;
          0x80 + (c / 64) mod 64; 0x80 + c mod 64]
  else None.

(** [s.encode('utf-8', 'strict')]: [None] stands for [UnicodeEncodeError]. *)
Fixpoint utf8_encode (s : str) : option bytes :=
  match s with
  | [] => Some []
  | c :: s' =>
      match utf8_encode_cp c, utf8_encode s' with
      | Some b, Some bs => Some (b ++ bs)
      | _, _ => None
      end
  end.

(* ================================================================== *)
(** * URL routing (section URL_ROUTING of the importer)                *)
(* ================================================================== *)

(** [is_github_url] *)
Definition is_github_url (url : str) : bool :=
  let url_lower := lower url in
  contains (str_of "github.com") url_lower
  || contains (str_of "raw.githubusercontent.com") url_lower.

(** [is_github_release_url] *)
Definition is_github_release_url (url : str) : bool :=
  let url_lower := lower url in
  contains (str_of "github.com") url_lower
  && contains (str_of "/releases/") url_lower.

(** [needs_proxy] *)
Definition needs_proxy (url : str) (is_private : bool) : bool :=
  let url_lower := lower url in
  if is_private then is_github_url url_lower
  else if contains (str_of "github.com") url_lower
          && contains (str_of "/releases/") url_lower then true
  else if contains (str_of "drive.google.com") url_lower
          || contains (str_of "drive.usercontent.google.com") url_lower then true
  else if contains (str_of "dropbox.com") url_lower then true
  else false.

(** The three ways a download is fetched. *)
Inductive ProxyDecision := NoProxy | PublicProxy | PrivateProxy.

(** The routing of [import_via_sharelink]: the private proxy when the
    resource is private and on GitHub, else the public proxy when
    [needs_proxy] says so, else a direct fetch. *)
Definition proxy_decision (url : str) (is_private : bool) : ProxyDecision :=
  let use_proxy := needs_proxy url is_private in
  if is_private && is_github_url url then PrivateProxy
  else if use_proxy then PublicProxy
  else NoProxy.

(** The direct-download address built by [convert_google_drive_url]. *)
Definition gdrive_direct_url (file_id : str) : str :=
  str_of "https://drive.usercontent.google.com/download?id=" ++ file_id
  ++ str_of "&export=download&confirm=t".

(** The identifier search shared by [convert_google_drive_url] and
    [extract_gdrive_file_id]: the three patterns in order, the first match
    wins. *)
Definition find_file_id (url : str) : option str :=
  match search_id re_file_d url with
  | Some id => Some id
  | None =>
      match search_id re_open_id url with
      | Some id => Some id
      | None => search_id re_query_id url
      end
  end.

(** [convert_google_drive_url] *)
Definition convert_google_drive_url (url : str) : str * bool :=
  let url_lower := lower url in
  if negb (contains (str_of "drive.google.com") url_lower)
     && negb (contains (str_of "drive.usercontent.google.com") url_lower)
  then (url, false)
  else if contains (str_of "drive.usercontent.google.com") url_lower
          && contains (str_of "confirm=t") url_lower
  then (url, false)
  else
    match find_file_id url with
    | Some file_id => (gdrive_direct_url file_id, true)
    | None => (url, false)
    end.

(** [extract_gdrive_file_id] *)
Definition extract_gdrive_file_id (input_str : str) : option str :=
  let input_str := strip input_str in
  if contains (str_of "http") (lower input_str)
     || contains (str_of "drive.google.com") (lower input_str)
  then find_file_id input_str
  else if match_bare_id input_str && (10 <? length input_str)%nat
  then Some input_str
  else None.

(* ================================================================== *)
(** * File type from magic bytes                                       *)
(* ================================================================== *)

Inductive FileType :=
  parquet | duckdb | csv | tsv | txt | pipe | json | html_error.

(** The text inspected by the HTML test of [detect_file_type_from_bytes]. *)
Definition html_text_start (file_bytes : bytes) : str :=
  strip (lower (decode_ignore (firstn 500 file_bytes))).

(** The HTML test itself. *)
Definition looks_like_html (text_start : str) : bool :=
  startswith (str_of "<!doctype") text_start
  || startswith (str_of "<html") text_start
  || contains (str_of "<html") (firstn 200 text_start).

(** The first line of the sample: [text_sample.split('\n')[0].split('\r')[0]] *)
Definition first_line_of (text_sample : str) : str :=
  hd [] (split 13 (hd [] (split 10 text_sample))).

(** The delimiter count that ends [detect_file_type_from_bytes]. *)
Definition classify_by_delimiter (first_line : str) : FileType :=
  let pipe_count := count_char 124 first_line in
  let tab_count := count_char 9 first_line in
  let comma_count := count_char 44 first_line in
  let MIN_DELIMITER_COUNT := 2%nat in
  if (MIN_DELIMITER_COUNT <=? pipe_count)%nat then pipe
  else if (MIN_DELIMITER_COUNT <=? tab_count)%nat then tsv
  else if (MIN_DELIMITER_COUNT <=? comma_count)%nat then csv
  else txt.

(** The first character of the stripped sample is an opening brace or
    bracket. *)
Definition json_leading (text_sample : str) : bool :=
  match strip text_sample with
  | first_char :: _ => (first_char =? 123) || (first_char =? 91)
  | [] => false
  end.

(** [detect_file_type_from_bytes]; [None] is Python's [None].  The
    [try] around the HTML test cannot fire: a decode with
    [errors='ignore'] does not raise. *)
Definition detect_file_type_from_bytes (file_bytes : bytes) : option FileType :=
  if (length file_bytes <? 20)%nat then None
  else if looks_like_html (html_text_start file_bytes) then Some html_error
  else if str_eqb (firstn 4 file_bytes) (str_of "PAR1")
          || str_eqb (last_n 4 file_bytes) (str_of "PAR1") then Some parquet
  else if contains (str_of "DUCK") (firstn 20 file_bytes) then Some duckdb
  else if contains (str_of "SQLite format 3") (firstn 16 file_bytes)
  then Some duckdb
  else
    match decode_strict (firstn 2048 file_bytes) with
    | None => None
    | Some text_sample =>
        if json_leading text_sample then Some json
        else if negb (has_char 10 text_sample) && negb (has_char 13 text_sample)
        then Some txt
        else Some (classify_by_delimiter (first_line_of text_sample))
    end.

(* ================================================================== *)
(** * Exceptions                                                        *)
(* ================================================================== *)

Inductive exn := ValueError | UnicodeEncodeError | IndexError.

Inductive result (A : Type) :=
  | Ok (a : A)
  | Raise (e : exn).

Arguments Ok {A} a.
Arguments Raise {A} e.

Definition bind {A B : Type} (c : result A) (k : A -> result B) : result B :=
  match c with
  | Ok a => k a
  | Raise e => Raise e
  end.

Notation "'let!' x ':=' c 'in' k" := (bind c (fun x => k))
  (at level 10, x pattern, c at level 100, k at level 200).

(** The call returns normally. *)
Definition returns {A : Type} (c : result A) : Prop := exists a, c = Ok a.

(* ================================================================== *)
(** * urllib.parse: percent-encoding                                  *)
(* ================================================================== *)

(** The value of a hexadecimal digit ([_hexdig]). *)
Definition hex_val (c : N) : option N :=
  if is_digit c then Some (c - 48)
  else if in_range 65 70 c then Some (c - 55)
  else if in_range 97 102 c then Some (c - 87)
  else None.

(** The upper-case hexadecimal digit of a value below 16, as written by
    ['%{:02X}'.format]. *)
Definition hex_digit (v : N) : N := if v <? 10 then 48 + v else 55 + v.

(** [unquote_to_bytes] on the bytes of an ASCII string: a percent sign
    followed by two hexadecimal digits is one byte, every other byte stands
    for itself. *)
Fixpoint unquote_to_bytes (s : bytes) : bytes :=
  match s with
  | [] => []
  | c :: tl =>
      if c =? 37 then
        match tl with
        | h1 :: h2 :: rest =>
            match hex_val h1, hex_val h2 with
            | Some v1, Some v2 => (16 * v1 + v2) :: unquote_to_bytes rest
            | _, _ => c :: unquote_to_bytes tl
            end
        | _ => c :: unquote_to_bytes tl
        end
      else c :: unquote_to_bytes tl
  end.

Definition is_ascii (c : N) : bool := c <? 128.

(** The loop of [unquote] over the pieces of [_asciire.split]: every
    maximal run of ASCII characters is unquoted to bytes and decoded with
    [errors='replace'], the other characters are copied.  [run] holds the
    current run in reverse. *)
Fixpoint unquote_runs (run : str) (s : str) : str :=
  match s with
  | [] => decode_replace (unquote_to_bytes (rev run))
  | c :: tl =>
      if is_ascii c then unquote_runs (c :: run) tl
      else decode_replace (unquote_to_bytes (rev run)) ++ c :: unquote_runs [] tl
  end.

(** [unquote(string)] with the default encoding and error handler. *)
Definition unquote (s : str) : str :=
  if negb (has_char 37 s) then s else unquote_runs [] s.

(** [_ALWAYS_SAFE] *)
Definition always_safe (b : N) : bool :=
  is_alpha_ascii b || is_digit b || (b =? 95) || (b =? 46) || (b =? 45)
  || (b =? 126).

(** [_Quoter.__missing__]: the text that stands for one byte. *)
Definition quoter (safe : N -> bool) (b : N) : str :=
  if is_ascii b && (always_safe b || safe b) then [b]
  else [37; hex_digit (b / 16); hex_digit (b mod 16)].

(** [quote_from_bytes]; its shortcut for a byte string of safe characters
    returns what the general case computes. *)
Definition quote_from_bytes (bs : bytes) (safe : N -> bool) : str :=
  flat_map (quoter safe) bs.

(** [quote(string, safe)] on a [str]. *)
Definition quote (s : str) (safe : N -> bool) : result str :=
  match s with
  | [] => Ok []
  | _ =>
      match utf8_encode s with
      | Some bs => Ok (quote_from_bytes bs safe)
      | None => Raise UnicodeEncodeError
      end
  end.

(** [quote_plus(string)] with [safe=''] *)
Definition quote_plus (s : str) : result str :=
  if negb (has_char 32 s) then quote s (fun _ => false)
  else
    let! q := quote s (fun b => b =? 32) in
    Ok (replace_char 32 43 q).

(* ================================================================== *)
(** * urllib.parse: query strings                                     *)
(* ================================================================== *)

(** The body of the loop of [parse_qsl] on one field of the query: a field
    without an equals sign, and one with an empty value, is kept only with
    [keep_blank_values]. *)
Definition parse_field (keep_blank_values : bool) (name_value : str)
  : list (str * str) :=
  match name_value with
  | [] => []
  | _ =>
      let nv :=
        match split_once 61 name_value with
        | (n, Some v) => Some (n, v)
        | (n, None) => if keep_blank_values then Some (n, []) else None
        end in
      match nv with
      | None => []
      | Some (n, v) =>
          if negb (length v =? 0)%nat || keep_blank_values then
            let name := unquote (replace_char 43 32 n) in
            let value := unquote (replace_char 43 32 v) in
            [(name, value)]
          else []
      end
  end.

(** [parse_qsl(qs, keep_blank_values)] with the other arguments at their
    defaults. *)
Definition parse_qsl (keep_blank_values : bool) (qs : str) : list (str * str) :=
  let query_args := match qs with [] => [] | _ => split 38 qs end in
  flat_map (parse_field keep_blank_values) query_args.

(** A [dict] from [str] to lists of [str], in insertion order. *)
Definition dict := list (str * list str).

(** [d.get(k)] *)
Fixpoint dict_get (d : dict) (k : str) : option (list str) :=
  match d with
  | [] => None
  | (k', vs) :: d' => if str_eqb k k' then Some vs else dict_get d' k
  end.

(** The body of the loop of [parse_qs]: append to the list of an existing
    key, or add the key at the end. *)
Fixpoint dict_add_value (d : dict) (k v : str) : dict :=
  match d with
  | [] => [(k, [v])]
  | (k', vs) :: d' =>
      if str_eqb k k' then (k', vs ++ [v]) :: d'
      else (k', vs) :: dict_add_value d' k v
  end.

(** [d[k] = vs]: an existing key keeps its place. *)
Fixpoint dict_set (d : dict) (k : str) (vs : list str) : dict :=
  match d with
  | [] => [(k, vs)]
  | (k', vs') :: d' =>
      if str_eqb k k' then (k', vs) :: d'
      else (k', vs') :: dict_set d' k vs
  end.

(** The (key, value) pairs of a dict of lists, in order. *)
Definition dict_pairs (d : dict) : list (str * str) :=
  flat_map (fun kv => map (pair (fst kv)) (snd kv)) d.

(** [parse_qs(qs)] *)
Definition parse_qs (qs : str) : dict :=
  fold_left (fun parsed_result nv => dict_add_value parsed_result (fst nv) (snd nv))
            (parse_qsl false qs) [].

(** The quoted fields of one key of [urlencode(query, doseq=True)]. *)
Fixpoint urlencode_values (k : str) (vs : list str) : result (list str) :=
  match vs with
  | [] => Ok []
  | elt :: vs' =>
      let! e := quote_plus elt in
      let! l := urlencode_values k vs' in
      Ok ((k ++ 61 :: e) :: l)
  end.

Fixpoint urlencode_fields (query : dict) : result (list str) :=
  match query with
  | [] => Ok []
  | (k, vs) :: query' =>
      let! k' := quote_plus k in
      let! l := urlencode_values k' vs in
      let! l' := urlencode_fields query' in
      Ok (l ++ l')
  end.

(** [urlencode(query, doseq=True)] on a dict of lists of strings. *)
Definition urlencode (query : dict) : result str :=
  let! l := urlencode_fields query in
  Ok (join 38 l).

(* ================================================================== *)
(** * urllib.parse: splitting and joining URLs                        *)
(* ================================================================== *)

Record SplitResult := mkSplit {
  split_scheme : str;
  split_netloc : str;
  split_path : str;
  split_query : str;
  split_fragment : str
}.

Record ParseResult := mkParse {
  scheme : str;
  netloc : str;
  path : str;
  params : str;
  query : str;
  fragment : str
}.

Definition uses_netloc : list str :=
  map str_of
    [""; "ftp"; "http"; "gopher"; "nntp"; "telnet"; "imap"; "wais"; "file";
     "mms"; "https"; "shttp"; "snews"; "prospero"; "rtsp"; "rtspu"; "rsync";
     "svn"; "svn+ssh"; "sftp"; "nfs"; "git"; "git+ssh"; "ws"; "wss"]%string.

Definition uses_params : list str :=
  map str_of
    [""; "ftp"; "hdl"; "prospero"; "http"; "imap"; "https"; "shttp"; "rtsp";
     "rtspu"; "sip"; "sips"; "mms"; "sftp"; "tel"]%string.

(** [x in l] for a list of strings. *)
Definition str_in (x : str) (l : list str) : bool := existsb (str_eqb x) l.

(** [scheme_chars] *)
Definition scheme_char (c : N) : bool :=
  is_alpha_ascii c || is_digit c || (c =? 43) || (c =? 45) || (c =? 46).

(** [_WHATWG_C0_CONTROL_OR_SPACE] *)
Definition c0_control_or_space (c : N) : bool := c <=? 0x20.

(** The characters that end a network location: [/], [?] and [#]. *)
Definition netloc_delim (c : N) : bool := (c =? 47) || (c =? 63) || (c =? 35).

(** The scheme test of [urlsplit]: the text before the first colon when it
    starts with an ASCII letter and holds scheme characters only. *)
Definition take_scheme (url : str) : str * str :=
  match split_once 58 url with
  | (c0 :: pre, Some rest) =>
      if is_alpha_ascii c0 && forallb scheme_char (c0 :: pre)
      then (lower (c0 :: pre), rest)
      else ([], url)
  | _ => ([], url)
  end.

(** [_splitnetloc(url, 2)]: the text after the two slashes up to the first
    delimiter, and the rest from that delimiter on. *)
Definition splitnetloc (url : str) : str * str :=
  let after := skipn 2 url in
  (take_while (fun c => negb (netloc_delim c)) after,
   drop_while (fun c => negb (netloc_delim c)) after).

(** [_splitparams] *)
Definition splitparams (url : str) : str * str :=
  if has_char 47 url then
    let seg := rev (take_while (fun c => negb (c =? 47)) (rev url)) in
    let pre := firstn (length url - length seg) url in
    match split_once 59 seg with
    | (a, Some b) => (pre ++ a, b)
    | (_, None) => (url, [])
    end
  else
    match split_once 59 url with
    | (a, Some b) => (a, b)
    | (_, None) => (url, [])
    end.

(** [urlunsplit] *)
Definition urlunsplit (scheme netloc url query fragment : str) : str :=
  let url :=
    match netloc with
    | _ :: _ =>
        let url := match url with
                   | c :: _ => if c =? 47 then url else 47 :: url
                   | [] => url
                   end in
        str_of "//" ++ netloc ++ url
    | [] =>
        if startswith (str_of "//") url then str_of "//" ++ url
        else
          match scheme with
          | _ :: _ =>
              if str_in scheme uses_netloc
                 && match url with [] => true | c :: _ => c =? 47 end
              then str_of "//" ++ url
              else url
          | [] => url
          end
    end in
  let url := match scheme with _ :: _ => scheme ++ 58 :: url | [] => url end in
  let url := match query with _ :: _ => url ++ 63 :: query | [] => url end in
  let url := match fragment with _ :: _ => url ++ 35 :: fragment | [] => url end in
  url.

(** [urlunparse] *)
Definition urlunparse (scheme netloc url params query fragment : str) : str :=
  let url := match params with _ :: _ => url ++ 59 :: params | [] => url end in
  urlunsplit scheme netloc url query fragment.

(** The first two steps of [urlsplit]: leading control characters and
    spaces are stripped, tabs and line breaks removed. *)
Definition clean_url (url : str) : str :=
  remove_char 10 (remove_char 13 (remove_char 9
    (lstrip_with c0_control_or_space url))).

(** The text after the first [sep], or the empty string. *)
Definition after_sep (sep : N) (s : str) : str :=
  match snd (split_once sep s) with
  | Some b => b
  | None => []
  end.

(** The last steps of [urlsplit]: the fragment is cut at the first [#],
    then the query at the first [?]. *)
Definition tail_path (rest : str) : str :=
  fst (split_once 63 (fst (split_once 35 rest))).
Definition tail_query (rest : str) : str :=
  after_sep 63 (fst (split_once 35 rest)).
Definition tail_fragment (rest : str) : str := after_sep 35 rest.

(** Neither tab nor line break. *)
Definition clean_char (c : N) : bool :=
  negb ((c =? 9) || (c =? 10) || (c =? 13)).

(** No character that ends a network location. *)
Definition no_delim (c : N) : bool := negb (netloc_delim c).

(** [urlunparse] joins the path and the parameters again. *)
Definition rejoin_params (url params : str) : str :=
  match params with
  | _ :: _ => url ++ 59 :: params
  | [] => url
  end.

(** A scheme, as [urlsplit] returns it: empty, or lowercase scheme
    characters after a letter. *)
Definition scheme_wf (s : str) : Prop :=
  s = [] \/
  exists c0 pre, s = c0 :: pre /\ is_alpha_ascii c0 = true
                 /\ forallb scheme_char s = true /\ lower s = s.

(** The text that [urlunsplit] writes after the path. *)
Definition unsplit_tail (q f : str) : str :=
  63 :: q ++ match f with _ :: _ => 35 :: f | [] => [] end.

Section Urllib.

(** [_check_bracketed_netloc] accepts the network location: what stands
    between the brackets is an IPv6 or IPvFuture address. *)
Variable bracketed_netloc_ok : str -> bool.

(** [_checknetloc] accepts a network location that is not ASCII: its NFKC
    normal form brings in none of the characters [/?#@:]. *)
Variable nfkc_netloc_ok : str -> bool.

(** [urlsplit(url)] *)
Definition urlsplit (url : str) : result SplitResult :=
  let url := lstrip_with c0_control_or_space url in
  let url := remove_char 10 (remove_char 13 (remove_char 9 url)) in
  let '(scheme, url) := take_scheme url in
  let! (netloc, url) :=
    if startswith (str_of "//") url then
      let '(netloc, url) := splitnetloc url in
      if (has_char 91 netloc && negb (has_char 93 netloc))
         || (has_char 93 netloc && negb (has_char 91 netloc))
      then Raise ValueError
      else if has_char 91 netloc && has_char 93 netloc
              && negb (bracketed_netloc_ok netloc)
      then Raise ValueError
      else Ok (netloc, url)
    else Ok ([], url) in
  let '(url, fragment) :=
    if has_char 35 url then
      match split_once 35 url with
      | (u, Some f) => (u, f)
      | (u, None) => (u, [])
      end
    else (url, []) in
  let '(url, query) :=
    if has_char 63 url then
      match split_once 63 url with
      | (u, Some q) => (u, q)
      | (u, None) => (u, [])
      end
    else (url, []) in
  match netloc with
  | _ :: _ =>
      if negb (forallb is_ascii netloc) && negb (nfkc_netloc_ok netloc)
      then Raise ValueError
      else Ok (mkSplit scheme netloc url query fragment)
  | [] => Ok (mkSplit scheme netloc url query fragment)
  end.

(** The three checks of [urlsplit] on a network location pass: its brackets
    are balanced, [_check_bracketed_netloc] accepts a bracketed host, and
    [_checknetloc] accepts a text that is not ASCII. *)
Definition netloc_accepted (netloc : str) : bool :=
  negb ((has_char 91 netloc && negb (has_char 93 netloc))
        || (has_char 93 netloc && negb (has_char 91 netloc)))
  && (negb (has_char 91 netloc && has_char 93 netloc)
      || bracketed_netloc_ok netloc)
  && (forallb is_ascii netloc || nfkc_netloc_ok netloc).

(** What [urlsplit] guarantees about the scheme [s], the network location
    [n], the path [P] and the fragment [f] it returns. *)
Definition components_wf (s n P f : str) : Prop :=
  scheme_wf s
  /\ forallb no_delim n = true
  /\ netloc_accepted n = true
  /\ has_char 35 P = false
  /\ has_char 63 P = false
  /\ (n <> [] -> P = [] \/ exists t, P = 47 :: t)
  /\ forallb clean_char s = true
  /\ forallb clean_char n = true
  /\ forallb clean_char P = true
  /\ forallb clean_char f = true
  /\ (s = [] -> forall p0 t, P = p0 :: t -> c0_control_or_space p0 = false)
  /\ (s = [] -> forall Y, take_scheme (P ++ 63 :: Y) = ([], P ++ 63 :: Y)).

(** [urlparse(url)] *)
Definition urlparse (url : str) : result ParseResult :=
  let! r := urlsplit url in
  let '(url, params) :=
    if str_in (split_scheme r) uses_params && has_char 59 (split_path r)
    then splitparams (split_path r)
    else (split_path r, []) in
  Ok (mkParse (split_scheme r) (split_netloc r) url params
              (split_query r) (split_fragment r)).

(* ================================================================ *)
(** ** Dropbox links and proxy addresses                             *)
(* ================================================================ *)

(** [convert_dropbox_url] *)
Definition convert_dropbox_url (url : str) : result (str * bool) :=
  let url_lower := lower url in
  if negb (contains (str_of "dropbox.com") url_lower) then Ok (url, false)
  else
    let! parsed := urlparse url in
    let query_params := parse_qs (query parsed) in
    let! first_dl :=
      match dict_get query_params (str_of "dl") with
      | Some (v :: _) => Ok v
      | Some [] => Raise IndexError
      | None => Ok (str_of "0")
      end in
    if str_eqb first_dl (str_of "1") then Ok (url, false)
    else
      let query_params := dict_set query_params (str_of "dl") [str_of "1"] in
      let! new_query := urlencode query_params in
      let new_url :=
        urlunparse (scheme parsed) (netloc parsed) (path parsed)
                   (params parsed) new_query (fragment parsed) in
      Ok (new_url, true).

End Urllib.

(** [PUBLIC_PROXY_URL] *)
Definition PUBLIC_PROXY_URL : str := str_of "https://github-proxy-auth.tigzig.com".

(** [build_public_proxy_url] *)
Definition build_public_proxy_url (url : str) : result str :=
  let! encoded_url := quote url (fun _ => false) in
  Ok (PUBLIC_PROXY_URL ++ str_of "/?url=" ++ encoded_url).

(** [build_private_proxy_url] *)
Definition build_private_proxy_url (url auth_proxy_base : str) : result str :=
  let! encoded_url := quote url (fun _ => false) in
  let auth_proxy_base := rstrip_with (N.eqb 47) auth_proxy_base in
  Ok (auth_proxy_base ++ str_of "/?url=" ++ encoded_url).

(** An instance of the two validations that accepts every network
    location; on a URL whose network location is ASCII and has no bracket
    neither validation is consulted. *)
Definition accept_netloc (netloc : str) : bool := true.

(* ================================================================== *)
(** * The specification's wording, where it is compared with the code  *)
(* ================================================================== *)

Section SpecWording.

Variable bracketed_netloc_ok : str -> bool.
Variable nfkc_netloc_ok : str -> bool.

(** The path component of a URL. *)
Definition url_path (url : str) : str :=
  match urlparse bracketed_netloc_ok nfkc_netloc_ok url with
  | Ok p => path p
  | Raise _ => []
  end.

(** The decision table of the specification, rule by rule, the first
    matching rule winning.  Rule 3 reads: the URL contains github.com and
    the path contains /releases/. *)
Definition needsProxy_spec (url : str) (isPrivate : bool) : ProxyDecision :=
  let url_lower := lower url in
  if isPrivate && is_github_url url then PrivateProxy
  else if isPrivate then NoProxy
  else if contains (str_of "github.com") url_lower
          && contains (str_of "/releases/") (lower (url_path url))
  then PublicProxy
  else if contains (str_of "drive.google.com") url_lower
          || contains (str_of "drive.usercontent.google.com") url_lower
          || contains (str_of "dropbox.com") url_lower
  then PublicProxy
  else NoProxy.

(** The query parameters of a URL as a reader counts them: every
    name=value field of the query string, blank values included. *)
Definition query_fields (url : str) : list (str * str) :=
  match urlparse bracketed_netloc_ok nfkc_netloc_ok url with
  | Ok p => parse_qsl true (query p)
  | Raise _ => []
  end.

(** The fragment of a URL. *)
Definition url_fragment (url : str) : str :=
  match urlparse bracketed_netloc_ok nfkc_netloc_ok url with
  | Ok p => fragment p
  | Raise _ => []
  end.

(** The query parameters of a URL as [convert_dropbox_url] reads them. *)
Definition url_params (url : str) : dict :=
  match urlparse bracketed_netloc_ok nfkc_netloc_ok url with
  | Ok p => parse_qs (query p)
  | Raise _ => []
  end.

End SpecWording.

(** The first value of the [dl] parameter is ["1"]: the link is already a
    direct download. *)
Definition already_direct (d : dict) : bool :=
  match dict_get d (str_of "dl") with
  | Some (v :: _) => str_eqb v (str_of "1")
  | _ => false
  end.

(** The fields whose value is not empty. *)
Definition nonblank (fields : list (str * str)) : list (str * str) :=
  filter (fun nv => negb (length (snd nv) =? 0)%nat) fields.

(** The values of one name in a list of fields, in order. *)
Definition field_values (name : str) (fields : list (str * str)) : list str :=
  map snd (filter (fun nv => str_eqb (fst nv) name) fields).

(** The table that [needs_proxy] and its caller implement: as the
    specification's, with rule 3 reading the whole URL. *)
Definition needsProxy_table (url : str) (isPrivate : bool) : ProxyDecision :=
  let url_lower := lower url in
  if isPrivate && is_github_url url then PrivateProxy
  else if isPrivate then NoProxy
  else if contains (str_of "github.com") url_lower
          && contains (str_of "/releases/") url_lower
  then PublicProxy
  else if contains (str_of "drive.google.com") url_lower
          || contains (str_of "drive.usercontent.google.com") url_lower
          || contains (str_of "dropbox.com") url_lower
  then PublicProxy
  else NoProxy.

(** The URL is a Google Drive address. *)
Definition is_gdrive_url (url : str) : bool :=
  contains (str_of "drive.google.com") (lower url)
  || contains (str_of "drive.usercontent.google.com") (lower url).

(** The URL is already a direct Google Drive download. *)
Definition gdrive_already_direct (url : str) : bool :=
  contains (str_of "drive.usercontent.google.com") (lower url)
  && contains (str_of "confirm=t") (lower url).

(** The URL is a Dropbox address. *)
Definition is_dropbox_url (url : str) : bool :=
  contains (str_of "dropbox.com") (lower url).

(** A magic marker of Parquet stands at either end of the buffer. *)
Definition has_par1 (file_bytes : bytes) : bool :=
  str_eqb (firstn 4 file_bytes) (str_of "PAR1")
  || str_eqb (last_n 4 file_bytes) (str_of "PAR1").

(* ================================================================== *)
(** * Notions and sample data used by the proofs                      *)
(* ================================================================== *)

(** The characters [quote] can write: the always-safe ones, those the
    caller declares safe, and the percent sign. *)
Definition quoted_char (safe : N -> bool) (c : N) : bool :=
  is_ascii c && (always_safe c || safe c || (c =? 37)).

(** What [quote_plus] writes: always-safe characters, percent and plus. *)
Definition plus_char (c : N) : bool := always_safe c || (c =? 37) || (c =? 43).

(** The characters of a query string written by [urlencode]. *)
Definition query_char (c : N) : bool :=
  negb ((c =? 35) || (c =? 9) || (c =? 10) || (c =? 13)).

Definition field_ok (f : str) : Prop :=
  has_char 38 f = false /\ forallb query_char f = true /\ f <> [].

(** The keys are pairwise different, and every key has at least one value,
    none of them empty: what [parse_qs] returns. *)
Definition dict_ok (d : dict) : Prop :=
  NoDup (map fst d)
  /\ Forall (fun kv => snd kv <> [] /\ Forall (fun v => v <> []) (snd kv)) d.

(** A buffer that carries the Parquet marker at both ends, the DuckDB
    marker and a comma-heavy first line, and is an HTML page all the
    same. *)
Definition html_with_magic : bytes :=
  str_of "PAR1,,DUCK,,<HTML>,," ++ [10] ++ str_of "1,2,3,PAR1".

(** A two-line text whose first line holds a single comma. *)
Definition one_comma_text : bytes :=
  str_of "hello, world and more" ++ [10] ++ str_of "second line".

(** The header of a DuckDB file and of a SQLite file, and a buffer with
    the Parquet marker at both ends. *)
Definition duckdb_header : bytes :=
  [1; 2; 3; 4; 5; 6; 7; 8] ++ str_of "DUCK" ++ [64; 0; 0; 0; 0; 0; 0; 0].
Definition sqlite_header : bytes :=
  str_of "SQLite format 3" ++ [0; 16; 0; 1; 1; 0; 64; 32; 32].
Definition parquet_buffer : bytes :=
  str_of "PAR1" ++ repeat 0 92 ++ str_of "PAR1".

(** C7, as written, fails on a buffer that holds DUCK within its first 20
    bytes and the Parquet marker at an end: the claim answers duckdb, the
    code parquet. *)
Definition duck_and_par1 : bytes :=
  [1; 2; 3; 4; 5; 6; 7; 8] ++ str_of "DUCK" ++ [64; 0; 0; 0] ++ str_of "PAR1".

(** Every code point the decoder produces is a scalar value. *)
Definition scanned_ok (o : option N) : bool :=
  match o with
  | Some c => is_scalar c
  | None => true
  end.

(** A name and a value of scalar values. *)
Definition pair_scalar (nv : str * str) : Prop :=
  forallb is_scalar (fst nv) = true /\ forallb is_scalar (snd nv) = true.

(** A dict whose keys and values are made of scalar values. *)
Definition dict_scalar (d : dict) : Prop :=
  Forall (fun kv => forallb is_scalar (fst kv) = true
                    /\ Forall (fun v => forallb is_scalar v = true) (snd kv)) d.

(** The step of [urlparse] that separates the parameters of the last path
    segment, for the schemes that have parameters. *)
Definition parse_params (scheme url : str) : str * str :=
  if str_in scheme uses_params && has_char 59 url
  then splitparams url
  else (url, []).

(** A Dropbox share link and its direct-download form. *)
Definition dropbox_share_link : str :=
  str_of "https://www.dropbox.com/s/abc123/report.csv?dl=0".
Definition dropbox_direct_link : str :=
  str_of "https://www.dropbox.com/s/abc123/report.csv?dl=1".

(** A Dropbox link with a key, an escaped space and a fragment. *)
Definition dropbox_keyed_link : str :=
  str_of "https://www.dropbox.com/scl/fi/x/report.csv?rlkey=k%201&dl=0#page=2".

(** A Dropbox link with a parameter whose value is empty. *)
Definition dropbox_blank_link : str :=
  str_of "https://www.dropbox.com/s/abc/f.csv?a=&dl=0".

(* ================================================================== *)
(** * File type from names: path, Content-Disposition header and URL   *)
(* ================================================================== *)

(** [s.endswith(p)] *)
Definition endswith (p s : str) : bool := startswith (rev p) (rev s).

(** [detect_file_type_from_path] *)
Definition detect_file_type_from_path (path : str) : option str :=
  let path_lower := lower path in
  if endswith (str_of ".parquet") path_lower then Some (str_of "parquet")
  else if endswith (str_of ".duckdb") path_lower then Some (str_of "duckdb")
  else if endswith (str_of ".csv") path_lower then Some (str_of "csv")
  else if endswith (str_of ".tsv") path_lower then Some (str_of "tsv")
  else if endswith (str_of ".txt") path_lower then Some (str_of "txt")
  else if endswith (str_of ".pipe") path_lower
          || endswith (str_of ".psv") path_lower then Some (str_of "pipe")
  else if endswith (str_of ".json") path_lower then Some (str_of "json")
  else None.

(** [re.search(pattern, s)] followed by [.group(1)], for a pattern given
    by its match at the head of a string: the leftmost match. *)
Fixpoint re_search (match_at : str -> option str) (s : str) : option str :=
  match match_at s with
  | Some group => Some group
  | None =>
      match s with
      | [] => None
      | _ :: s' => re_search match_at s'
      end
  end.

(** The class of every character but the double quote (code 34). *)
Definition not_quote (c : N) : bool := negb (c =? 34).

(** The class [[^\s;]]. *)
Definition token_char (c : N) : bool := negb (is_space c) && negb (c =? 59).

(** The first pattern of [get_filename_from_content_disposition], the
    word filename, an equals sign and a name of one or more characters
    between double quotes, at the head of [s]: the group is the run of
    characters up to the next double quote, which must be there. *)
Definition match_quoted_filename_at (s : str) : option str :=
  match match_prefix (lit "filename=" ++ [N.eqb 34]) s with
  | Some rest =>
      match take_while not_quote rest, drop_while not_quote rest with
      | c :: name, _ :: _ => Some (c :: name)
      | _, _ => None
      end
  | None => None
  end.

(** [r'filename=([^\s;]+)'] at the head of [s]: the group is the longest
    run of characters that are neither white space nor a semicolon. *)
Definition match_plain_filename_at (s : str) : option str :=
  match match_prefix (lit "filename=") s with
  | Some rest =>
      match take_while token_char rest with
      | [] => None
      | name => Some name
      end
  | None => None
  end.

(** [get_filename_from_content_disposition] *)
Definition get_filename_from_content_disposition (header_value : str)
  : option str :=
  match header_value with
  | [] => None
  | _ =>
      match re_search match_quoted_filename_at header_value with
      | Some name => Some name
      | None => re_search match_plain_filename_at header_value
      end
  end.

(** The truth value of an optional string: [None] and the empty string are
    false. *)
Definition truthy (o : option str) : bool :=
  match o with
  | Some (_ :: _) => true
  | _ => false
  end.

(** [detect_file_type_from_header] *)
Definition detect_file_type_from_header (content_disposition : str)
  : option str :=
  let filename := get_filename_from_content_disposition content_disposition in
  if truthy filename
  then match filename with
       | Some filename => detect_file_type_from_path filename
       | None => None
       end
  else None.

(** The file types that the [filetype] parameter of a URL may name. *)
Definition filetype_names : list str :=
  map str_of
    ["parquet"; "duckdb"; "csv"; "tsv"; "txt"; "pipe"; "psv"; "json"]%string.

(** [l[0]] *)
Definition first_item {A : Type} (l : list A) : result A :=
  match l with
  | x :: _ => Ok x
  | [] => Raise IndexError
  end.

(** [detect_delimiter_from_content]; the decoding with [errors='ignore']
    does not raise, so the handler of the [try] is never entered. *)
Definition detect_delimiter_from_content (file_bytes : bytes) : str :=
  let first_line := decode_ignore (hd [] (split 10 file_bytes)) in
  let pipes := count_char 124 first_line in
  let tabs := count_char 9 first_line in
  let commas := count_char 44 first_line in
  if (0 <? pipes)%nat then [124]
  else if (0 <? tabs)%nat then [9]
  else if (0 <? commas)%nat then [44]
  else [44].

Section Importer.

Variable bracketed_netloc_ok : str -> bool.
Variable nfkc_netloc_ok : str -> bool.

(** [detect_file_type] *)
Definition detect_file_type (url : str) : result (option str) :=
  let! parsed := urlparse bracketed_netloc_ok nfkc_netloc_ok url in
  let query_params := parse_qs (query parsed) in
  let! by_parameter :=
    match dict_get query_params (str_of "filetype") with
    | Some values =>
        let! value := first_item values in
        let ft := lower value in
        if str_in ft filetype_names then Ok (Some ft) else Ok None
    | None => Ok None
    end in
  match by_parameter with
  | Some ft => Ok (Some ft)
  | None =>
      let path_lower := lower (path parsed) in
      if has_char 46 path_lower then
        let filename := last (split 47 path_lower) [] in
        if endswith (str_of ".parquet") filename then Ok (Some (str_of "parquet"))
        else if endswith (str_of ".duckdb") filename then Ok (Some (str_of "duckdb"))
        else if endswith (str_of ".csv") filename then Ok (Some (str_of "csv"))
        else if endswith (str_of ".tsv") filename then Ok (Some (str_of "tsv"))
        else if endswith (str_of ".txt") filename then Ok (Some (str_of "txt"))
        else if endswith (str_of ".pipe") filename
                || endswith (str_of ".psv") filename then Ok (Some (str_of "pipe"))
        else if endswith (str_of ".json") filename then Ok (Some (str_of "json"))
        else Ok None
      else Ok None
  end.

End Importer.

(* ================================================================== *)
(** * The import scripts: what they do between sheet and download      *)
(* ================================================================== *)

(** The string that [detect_file_type_from_bytes] returns for a type. *)
Definition type_name (t : FileType) : str :=
  match t with
  | parquet => str_of "parquet"
  | duckdb => str_of "duckdb"
  | csv => str_of "csv"
  | tsv => str_of "tsv"
  | txt => str_of "txt"
  | pipe => str_of "pipe"
  | json => str_of "json"
  | html_error => str_of "html_error"
  end.

(** [os.path.join(a, b)] of [posixpath]. *)
Definition path_join (a b : str) : str :=
  if startswith [47] b then b
  else if match a with [] => true | _ :: _ => false end || endswith [47] a
  then a ++ b
  else a ++ 47 :: b.

(** What a download has led to: an HTML page in place of the data, a file
    of no known type, or a file saved under [temp_path]. *)
Inductive ImportResult :=
  | HtmlPage
  | UnknownType
  | Saved (file_type : str) (delimiter : option str) (temp_path : str).

(** What is sent to fetch a download. *)
Record Fetch := mkFetch {
  data_url : str;
  file_type : option str;
  fetch_url : str;
  authorization : bool
}.

(** [s.rsplit('.', 1)] on a string that holds the separator: the text
    before the last separator and the text after it. *)
Definition rsplit_once (sep : N) (s : str) : str * str :=
  let after := rev (take_while (fun c => negb (c =? sep)) (rev s)) in
  (firstn (length s - length after - 1) s, after).

(** The file name of a raw import ([import_raw_sharelink] and
    [import_raw_token], cell B8 or B10): trimmed, its extension in
    lowercase; with it the extension kept for the state file.  The
    lowercased extension is written into the name, so every code point of
    it counts: [str_lower] stands for [str.lower] with the whole case table
    of the interpreter, of which [lower] holds the rules of ASCII and
    Latin-1 only. *)
Definition output_filename_and_ext (str_lower : str -> str)
    (output_filename : str) : str * str :=
  let output_filename := strip output_filename in
  let output_filename :=
    if has_char 46 output_filename then
      let '(name_part, ext_part) := rsplit_once 46 output_filename in
      name_part ++ 46 :: str_lower ext_part
    else output_filename in
  let file_ext :=
    if has_char 46 output_filename
    then str_lower (snd (rsplit_once 46 output_filename))
    else str_of "unknown" in
  (output_filename, file_ext).

(** The check of the cell B6 of the TOKEN_ACCESS sheet in
    [import_via_token] and [import_raw_token]: a validation error, or the
    path or identifier to download. *)
Definition validate_file_input (provider file_input : str) : str + str :=
  if str_eqb provider (str_of "Dropbox") then
    if negb (startswith (str_of "/") file_input)
    then inl (str_of "Dropbox paths must start with / (e.g., /folder/file.ext)")
    else inr file_input
  else if str_eqb provider (str_of "Google Drive") then
    let extracted_id := extract_gdrive_file_id file_input in
    if truthy extracted_id
    then match extracted_id with
         | Some extracted_id => inr extracted_id
         | None => inr file_input
         end
    else inl (str_of "Invalid Google Drive input. Provide a file ID or URL")
  else if str_eqb provider (str_of "GitHub") then
    if negb (startswith (str_of "http") (lower file_input))
    then inl (str_of "GitHub requires full URL (e.g., https://github.com/...)")
    else inr file_input
  else inr file_input.

(** The address of the Google Drive API from which [import_via_token]
    downloads a file. *)
Definition gdrive_download_url (file_input : str) : str :=
  str_of "https://www.googleapis.com/drive/v3/files/" ++ file_input
  ++ str_of "?alt=media".

Section Scripts.

Variable bracketed_netloc_ok : str -> bool.
Variable nfkc_netloc_ok : str -> bool.

(** [tempfile.gettempdir()] *)
Variable tempdir : str.

Definition get_parquet_temp_path : str :=
  path_join tempdir (str_of "imported_data.parquet").
Definition get_duckdb_temp_path : str :=
  path_join tempdir (str_of "imported_database.duckdb").
Definition get_delimited_temp_path : str :=
  path_join tempdir (str_of "imported_data.csv").
Definition get_json_temp_path : str :=
  path_join tempdir (str_of "imported_data.json").
Definition get_raw_temp_path (filename : str) : str :=
  path_join tempdir filename.

(** The end of the download step of [import_via_sharelink] and
    [import_via_token], once the type is settled: the HTML page and the
    unknown type stop the import, a delimited type gets its delimiter from
    the content, and the type chooses the temporary file. *)
Definition save_by_type (file_type : option str) (file_bytes : bytes)
  : ImportResult :=
  match file_type with
  | None => UnknownType
  | Some ft =>
      if str_eqb ft (str_of "html_error") then HtmlPage
      else if negb (truthy file_type) then UnknownType
      else
        let delimiter :=
          if str_in ft (map str_of ["csv"; "tsv"; "txt"; "pipe"]%string)
          then Some (detect_delimiter_from_content file_bytes)
          else None in
        let temp_path :=
          if str_eqb ft (str_of "parquet") then get_parquet_temp_path
          else if str_eqb ft (str_of "duckdb") then get_duckdb_temp_path
          else if str_eqb ft (str_of "json") then get_json_temp_path
          else get_delimited_temp_path in
        Saved ft delimiter temp_path
  end.

(** The type of a download in [import_via_sharelink]: the type read from
    the URL, else the type of the name in the Content-Disposition header,
    else the type sniffed from the content. *)
Definition sharelink_import (file_type : option str)
    (content_disposition : str) (file_bytes : bytes) : ImportResult :=
  let file_type :=
    if negb (truthy file_type)
    then detect_file_type_from_header content_disposition
    else file_type in
  let file_type :=
    if negb (truthy file_type)
    then option_map type_name (detect_file_type_from_bytes file_bytes)
    else file_type in
  save_by_type file_type file_bytes.

(** The type of a download in [import_via_token]: the type of the path or
    identifier, else the type sniffed from the content. *)
Definition token_import (file_input : str) (file_bytes : bytes)
  : ImportResult :=
  let file_type := detect_file_type_from_path file_input in
  let file_type :=
    if truthy file_type then file_type
    else option_map type_name (detect_file_type_from_bytes file_bytes) in
  save_by_type file_type file_bytes.

(** The link resolution of [import_via_sharelink]: both rewrites, the
    routing, the type read from the URL, and the address that is fetched,
    with or without the Authorization header. *)
Definition sharelink_fetch (data_url : str) (is_private : bool)
    (auth_proxy_url : str) : result Fetch :=
  let '(data_url, _) := convert_google_drive_url data_url in
  let! (data_url, _) :=
    convert_dropbox_url bracketed_netloc_ok nfkc_netloc_ok data_url in
  let use_proxy := needs_proxy data_url is_private in
  let! file_type :=
    detect_file_type bracketed_netloc_ok nfkc_netloc_ok data_url in
  if is_private && is_github_url data_url then
    let! fetch_url := build_private_proxy_url data_url auth_proxy_url in
    Ok (mkFetch data_url file_type fetch_url true)
  else if use_proxy then
    let! fetch_url := build_public_proxy_url data_url in
    Ok (mkFetch data_url file_type fetch_url false)
  else Ok (mkFetch data_url file_type data_url false).

End Scripts.

(* ================================================================== *)
(** * Data profiling: numeric column types                            *)
(* ================================================================== *)

(** [str.upper()], one code point at a time.  ASCII and Latin-1 follow the
    Unicode tables.  Above U+00FF only the code points whose uppercase
    holds an ASCII letter are listed; the others are left as they are.
    The program cuts an uppercased string at a parenthesis, trims it and
    looks it up among ASCII names, which these rules decide in the same
    way as the full table: the uppercase of no other code point holds an
    ASCII character or white space. *)
Definition upper_cp (c : N) : list N :=
  if is_lower_ascii c then [c - 32]
  else if c =? 0xB5 then [0x39C]
  else if c =? 0xDF then [0x53; 0x53]
  else if in_range 0xE0 0xFE c && negb (c =? 0xF7) then [c - 32]
  else if c =? 0xFF then [0x178]
  else if c =? 0x131 then [0x49]
  else if c =? 0x149 then [0x2BC; 0x4E]
  else if c =? 0x17F then [0x53]
  else if c =? 0x1F0 then [0x4A; 0x30C]
  else if c =? 0x1E96 then [0x48; 0x331]
  else if c =? 0x1E97 then [0x54; 0x308]
  else if c =? 0x1E98 then [0x57; 0x30A]
  else if c =? 0x1E99 then [0x59; 0x30A]
  else if c =? 0x1E9A then [0x41; 0x2BE]
  else if c =? 0xFB00 then [0x46; 0x46]
  else if c =? 0xFB01 then [0x46; 0x49]
  else if c =? 0xFB02 then [0x46; 0x4C]
  else if c =? 0xFB03 then [0x46; 0x46; 0x49]
  else if c =? 0xFB04 then [0x46; 0x46; 0x4C]
  else if c =? 0xFB05 then [0x53; 0x54]
  else if c =? 0xFB06 then [0x53; 0x54]
  else [c].

Definition upper (s : str) : str := flat_map upper_cp s.

(** [NUMERIC_TYPES] *)
Definition NUMERIC_TYPES : list str :=
  map str_of
    ["INTEGER"; "BIGINT"; "SMALLINT"; "TINYINT"; "UBIGINT"; "UINTEGER";
     "USMALLINT"; "UTINYINT"; "DOUBLE"; "FLOAT"; "REAL"; "DECIMAL";
     "NUMERIC"; "HUGEINT"]%string.

(** [is_numeric_type] *)
Definition is_numeric_type (column_type : str) : bool :=
  let base_type := strip (hd [] (split 40 (upper column_type))) in
  str_in base_type NUMERIC_TYPES.

(* ================================================================== *)
(** * Further notions and sample data used by the proofs              *)
(* ================================================================== *)

(** One step of the decoder on [bs], whose scan is [l]: the step reads a
    non-empty prefix of [bs], which is one ASCII byte decoded as itself,
    or bytes from 0x80 on that give an error or a code point from U+0080
    on. *)
Definition scan_step (bs : bytes) (l : list (option N)) : Prop :=
  exists pre rest o,
    bs = pre ++ rest /\ pre <> []
    /\ l = o :: utf8_scan rest
    /\ ((exists b, pre = [b] /\ b < 0x80 /\ o = Some b)
        \/ (Forall (fun b => 0x80 <= b) pre
            /\ match o with Some c => 0x80 <= c | None => True end)).

(** The extensions that [detect_file_type_from_path] recognises, each with
    the type it stands for. *)
Definition extension_types : list (str * str) :=
  map (fun et => (str_of (fst et), str_of (snd et)))
    [(".parquet", "parquet"); (".duckdb", "duckdb"); (".csv", "csv");
     (".tsv", "tsv"); (".txt", "txt"); (".pipe", "pipe"); (".psv", "pipe");
     (".json", "json")]%string.

(** The characters that [quote] writes when no character is declared safe:
    letters, digits, [_.-~] and the percent sign. *)
Definition escaped_char (c : N) : bool := always_safe c || (c =? 37).

(** The query string of a direct Google Drive address. *)
Definition gdrive_query (file_id : str) : str :=
  str_of "id=" ++ file_id ++ str_of "&export=download&confirm=t".

(** A pipe-delimited text of two lines. *)
Definition pipe_text : bytes :=
  str_of "id|name|city|country" ++ [10] ++ str_of "1|Ada|London|UK".

(** A text of 2047 ASCII letters followed by an e with acute accent, whose
    two bytes stand on either side of the end of the sample, and a line
    feed. *)
Definition cut_text : bytes := repeat 97 2047 ++ [0xC3; 0xA9; 10].

(** A shared Google Drive file and its direct-download address. *)
Definition gdrive_share_link : str :=
  str_of "https://drive.google.com/file/d/1A2B3C/view?usp=sharing".
Definition gdrive_direct_link : str :=
  str_of "https://drive.usercontent.google.com/download?id=1A2B3C&export=download&confirm=t".

(** A release asset on GitHub. *)
Definition github_release_link : str :=
  str_of "https://github.com/o/r/releases/download/v1/data.parquet".

(** What [import_via_sharelink] fetches for the Dropbox share link, for
    the Google Drive share link, and for the GitHub release asset of a
    private repository behind the proxy at proxy.example.com. *)
Definition dropbox_fetch : Fetch :=
  mkFetch dropbox_direct_link (Some (str_of "csv"))
    (str_of "https://github-proxy-auth.tigzig.com/?url=https%3A%2F%2Fwww.dropbox.com%2Fs%2Fabc123%2Freport.csv%3Fdl%3D1")
    false.
Definition gdrive_fetch : Fetch :=
  mkFetch gdrive_direct_link None
    (str_of "https://github-proxy-auth.tigzig.com/?url=https%3A%2F%2Fdrive.usercontent.google.com%2Fdownload%3Fid%3D1A2B3C%26export%3Ddownload%26confirm%3Dt")
    false.
Definition github_private_fetch : Fetch :=
  mkFetch github_release_link (Some (str_of "parquet"))
    (str_of "https://proxy.example.com/?url=https%3A%2F%2Fgithub.com%2Fo%2Fr%2Freleases%2Fdownload%2Fv1%2Fdata.parquet")
    true.

(** A Content-Disposition header with a quoted name and one with a bare
    name. *)
Definition quoted_header : str :=
  str_of "attachment; filename=" ++ 34 :: str_of "Data.CSV" ++ 34
  :: str_of "; size=3".
Definition plain_header : str :=
  str_of "attachment; filename=report.tsv; size=3".

(* ================================================================== *)
(** * Properties                                                        *)
(* ================================================================== *)

(** ** Strings *)

Lemma str_eqb_eq (a b : str) : str_eqb a b = true <-> a = b.
Proof.
  revert b; induction a as [|x a IH]; intros [|y b]; simpl;
    try (split; [discriminate | discriminate]); try tauto.
  rewrite andb_true_iff, N.eqb_eq, IH. split.
  - intros [-> ->]; reflexivity.
  - intros H; injection H; auto.
Qed.

Lemma str_eqb_refl (a : str) : str_eqb a a = true.
Proof. apply str_eqb_eq; reflexivity. Qed.

Lemma str_eqb_neq (a b : str) : str_eqb a b = false <-> a <> b.
Proof.
  rewrite <- str_eqb_eq. destruct (str_eqb a b); split; congruence.
Qed.

Lemma take_drop_while (p : N -> bool) (s : str) :
  take_while p s ++ drop_while p s = s.
Proof.
  induction s as [|c s IH]; simpl; [reflexivity|].
  destruct (p c); simpl; [rewrite IH|]; reflexivity.
Qed.

Lemma take_while_all (p : N -> bool) (s : str) :
  forallb p (take_while p s) = true.
Proof.
  induction s as [|c s IH]; simpl; [reflexivity|].
  destruct (p c) eqn:E; simpl; [rewrite E, IH|]; reflexivity.
Qed.

Lemma drop_while_head (p : N -> bool) (s : str) c tl :
  drop_while p s = c :: tl -> p c = false.
Proof.
  induction s as [|d s IH]; simpl; [discriminate|].
  destruct (p d) eqn:E; [exact IH|].
  intros H; injection H as -> _; exact E.
Qed.

Lemma take_while_id (p : N -> bool) (s : str) :
  forallb p s = true -> take_while p s = s /\ drop_while p s = [].
Proof.
  induction s as [|c s IH]; simpl; [auto|].
  destruct (p c); simpl; [|discriminate].
  intros H; destruct (IH H) as [-> ->]; auto.
Qed.

(** ** The byte classifier *)

(** C8: a buffer shorter than 20 bytes is unknown ([None], a value and not
    an exception), whatever it holds. *)
Theorem short_buffer_unknown (file_bytes : bytes) :
  (length file_bytes < 20)%nat ->
  detect_file_type_from_bytes file_bytes = None.
Proof.
  intros H. unfold detect_file_type_from_bytes.
  apply Nat.ltb_lt in H. rewrite H. reflexivity.
Qed.

Lemma short_buffer_unknown_witness :
  (length (str_of "PAR1,,,,,,") < 20)%nat /\
  detect_file_type_from_bytes (str_of "PAR1,,,,,,") = None.
Proof.
  split; [simpl; lia | apply short_buffer_unknown; simpl; lia].
Defined.

(** C3: a buffer of at least 20 bytes whose leniently decoded, lowercased
    and trimmed first 500 bytes start with <!doctype or <html, or hold
    <html within their first 200 characters, is an HTML error page.  The
    buffer is arbitrary otherwise: no magic signature and no delimiter
    count changes the answer. *)
Theorem html_error_precedence (file_bytes : bytes) :
  (20 <= length file_bytes)%nat ->
  startswith (str_of "<!doctype") (html_text_start file_bytes) = true
  \/ startswith (str_of "<html") (html_text_start file_bytes) = true
  \/ contains (str_of "<html") (firstn 200 (html_text_start file_bytes)) = true ->
  detect_file_type_from_bytes file_bytes = Some html_error.
Proof.
  intros Hlen Hhtml. unfold detect_file_type_from_bytes.
  assert (E : (length file_bytes <? 20)%nat = false) by (apply Nat.ltb_ge; lia).
  rewrite E.
  assert (L : looks_like_html (html_text_start file_bytes) = true).
  { unfold looks_like_html. destruct Hhtml as [H | [H | H]]; rewrite H;
      rewrite ?orb_true_r; reflexivity. }
  rewrite L. reflexivity.
Qed.

Lemma html_error_precedence_witness :
  (20 <= length html_with_magic)%nat /\
  has_par1 html_with_magic = true /\
  contains (str_of "DUCK") (firstn 20 html_with_magic) = true /\
  contains (str_of "<html") (firstn 200 (html_text_start html_with_magic)) = true /\
  detect_file_type_from_bytes html_with_magic = Some html_error.
Proof.
  split; [vm_compute; lia|].
  split; [reflexivity|].
  split; [reflexivity|].
  split; [reflexivity|].
  apply html_error_precedence; [vm_compute; lia|].
  right; right; reflexivity.
Defined.

(** C4: a buffer that reaches the delimiter count (at least 20 bytes, not
    HTML, no magic signature, first 2048 bytes valid UTF-8, not led by a
    brace or bracket, a newline or carriage return in the sample) is
    classified by the number of pipes, tabs and commas of its first line:
    pipe from 2 pipes on, else tsv from 2 tabs on, else csv from 2 commas
    on, else txt.  One comma and no other delimiter gives txt. *)
Theorem delimiter_count_classification (file_bytes : bytes) (text_sample : str) :
  (20 <= length file_bytes)%nat ->
  looks_like_html (html_text_start file_bytes) = false ->
  has_par1 file_bytes = false ->
  contains (str_of "DUCK") (firstn 20 file_bytes) = false ->
  contains (str_of "SQLite format 3") (firstn 16 file_bytes) = false ->
  decode_strict (firstn 2048 file_bytes) = Some text_sample ->
  json_leading text_sample = false ->
  has_char 10 text_sample = true \/ has_char 13 text_sample = true ->
  let first_line := hd [] (split 13 (hd [] (split 10 text_sample))) in
  let pipes := count_char 124 first_line in
  let tabs := count_char 9 first_line in
  let commas := count_char 44 first_line in
  detect_file_type_from_bytes file_bytes =
    Some (if (2 <=? pipes)%nat then pipe
          else if (2 <=? tabs)%nat then tsv
          else if (2 <=? commas)%nat then csv
          else txt)
  /\ (commas = 1%nat -> pipes = 0%nat -> tabs = 0%nat ->
      detect_file_type_from_bytes file_bytes = Some txt).
Proof.
  intros Hlen Hhtml Hpar Hduck Hsql Hdec Hjson Hnl first_line pipes tabs commas.
  assert (E : detect_file_type_from_bytes file_bytes =
              Some (classify_by_delimiter (first_line_of text_sample))).
  { unfold detect_file_type_from_bytes.
    assert (L : (length file_bytes <? 20)%nat = false) by (apply Nat.ltb_ge; lia).
    rewrite L, Hhtml. unfold has_par1 in Hpar. rewrite Hpar, Hduck, Hsql, Hdec, Hjson.
    destruct Hnl as [H | H]; rewrite H; rewrite ?andb_false_r; reflexivity. }
  split.
  - rewrite E. reflexivity.
  - intros Hc Hp Ht. rewrite E. subst first_line pipes tabs commas.
    unfold classify_by_delimiter, first_line_of.
    rewrite Hc, Hp, Ht. reflexivity.
Qed.

Lemma delimiter_count_classification_witness :
  (20 <= length one_comma_text)%nat /\
  decode_strict (firstn 2048 one_comma_text) = Some one_comma_text /\
  count_char 44 (hd [] (split 13 (hd [] (split 10 one_comma_text)))) = 1%nat /\
  detect_file_type_from_bytes one_comma_text = Some txt.
Proof.
  split; [vm_compute; lia|].
  split; [reflexivity|].
  split; [reflexivity|].
  refine (proj2 (delimiter_count_classification one_comma_text one_comma_text
                   _ _ _ _ _ _ _ _) _ _ _);
    try reflexivity; [vm_compute; lia | left; reflexivity].
Defined.

(** C7 (amended): for a buffer of at least 20 bytes that is not HTML, the
    Parquet marker at either end gives parquet; without that marker, DUCK
    within the first 20 bytes gives duckdb, and so does the SQLite header
    within the first 16 bytes. *)
Theorem magic_signature_order (file_bytes : bytes) :
  (20 <= length file_bytes)%nat ->
  looks_like_html (html_text_start file_bytes) = false ->
  (firstn 4 file_bytes = str_of "PAR1" \/ last_n 4 file_bytes = str_of "PAR1" ->
   detect_file_type_from_bytes file_bytes = Some parquet)
  /\ (has_par1 file_bytes = false ->
      contains (str_of "DUCK") (firstn 20 file_bytes) = true ->
      detect_file_type_from_bytes file_bytes = Some duckdb)
  /\ (has_par1 file_bytes = false ->
      contains (str_of "SQLite format 3") (firstn 16 file_bytes) = true ->
      detect_file_type_from_bytes file_bytes = Some duckdb).
Proof.
  intros Hlen Hhtml.
  assert (L : (length file_bytes <? 20)%nat = false) by (apply Nat.ltb_ge; lia).
  unfold detect_file_type_from_bytes. rewrite L, Hhtml.
  fold (has_par1 file_bytes).
  split; [|split].
  - intros H.
    assert (P : has_par1 file_bytes = true).
    { unfold has_par1. destruct H as [H | H]; rewrite H, str_eqb_refl;
        rewrite ?orb_true_r; reflexivity. }
    rewrite P. reflexivity.
  - intros P D. rewrite P, D. reflexivity.
  - intros P S. rewrite P, S.
    destruct (contains (str_of "DUCK") (firstn 20 file_bytes)); reflexivity.
Qed.

Lemma magic_signature_order_witness :
  detect_file_type_from_bytes parquet_buffer = Some parquet /\
  detect_file_type_from_bytes duckdb_header = Some duckdb /\
  detect_file_type_from_bytes sqlite_header = Some duckdb.
Proof.
  split; [|split].
  - apply (proj1 (magic_signature_order parquet_buffer
                    ltac:(vm_compute; lia) eq_refl)).
    left; reflexivity.
  - apply (proj1 (proj2 (magic_signature_order duckdb_header
                           ltac:(vm_compute; lia) eq_refl))); reflexivity.
  - apply (proj2 (proj2 (magic_signature_order sqlite_header
                           ltac:(vm_compute; lia) eq_refl))); reflexivity.
Defined.

Lemma duck_with_par1_is_parquet :
  (20 <= length duck_and_par1)%nat /\
  looks_like_html (html_text_start duck_and_par1) = false /\
  contains (str_of "DUCK") (firstn 20 duck_and_par1) = true /\
  detect_file_type_from_bytes duck_and_par1 = Some parquet /\
  detect_file_type_from_bytes duck_and_par1 <> Some duckdb.
Proof.
  split; [vm_compute; lia|].
  split; [reflexivity|].
  split; [reflexivity|].
  split; [reflexivity|].
  vm_compute. discriminate.
Qed.

(** ** Lowercasing *)

Ltac case_cmp :=
  repeat match goal with
    | |- context [?a <=? ?b] => destruct (N.leb_spec a b)
    | |- context [?a <? ?b] => destruct (N.ltb_spec a b)
    | |- context [?a =? ?b] => destruct (N.eqb_spec a b)
    end.

Lemma lower_cp_idem (c : N) : flat_map lower_cp (lower_cp c) = lower_cp c.
Proof.
  unfold lower_cp, is_upper_ascii, in_range.
  case_cmp; simpl; try reflexivity; try lia;
    unfold lower_cp, is_upper_ascii, in_range;
    case_cmp; simpl; try reflexivity; try lia.
Qed.

Lemma lower_idem (s : str) : lower (lower s) = lower s.
Proof.
  unfold lower. induction s as [|c s IH]; simpl; [reflexivity|].
  rewrite flat_map_app, IH. fold (flat_map lower_cp (lower_cp c)).
  rewrite lower_cp_idem. reflexivity.
Qed.

Lemma is_github_url_lower (url : str) : is_github_url (lower url) = is_github_url url.
Proof. unfold is_github_url. rewrite lower_idem. reflexivity. Qed.

(** ** The proxy decision *)

(** C1 (amended): [needs_proxy] and its caller decide by the ordered table
    of the specification, with rule 3 reading "the URL contains github.com
    and contains /releases/", both anywhere in the lowercased URL:
    a private resource goes through the private proxy exactly when the URL
    is a GitHub URL and is fetched directly otherwise; a public one goes
    through the public proxy under rule 3 or when the URL is a Google Drive
    or Dropbox address, and is fetched directly in every other case.
    [needs_proxy] is true exactly when the decision is a proxy. *)
Theorem needs_proxy_decision_table (url : str) (is_private : bool) :
  proxy_decision url is_private = needsProxy_table url is_private
  /\ (needs_proxy url is_private = true
      <-> needsProxy_table url is_private <> NoProxy)
  /\ needs_proxy url true = is_github_url url
  /\ needs_proxy url false =
       (contains (str_of "github.com") (lower url)
        && contains (str_of "/releases/") (lower url))
       || is_gdrive_url url || is_dropbox_url url.
Proof.
  unfold proxy_decision, needsProxy_table, needs_proxy, is_gdrive_url,
    is_dropbox_url.
  rewrite is_github_url_lower.
  set (g := is_github_url url).
  set (a := contains (str_of "github.com") (lower url)).
  set (b := contains (str_of "/releases/") (lower url)).
  set (c := contains (str_of "drive.google.com") (lower url)).
  set (d := contains (str_of "drive.usercontent.google.com") (lower url)).
  set (e := contains (str_of "dropbox.com") (lower url)).
  clearbody g a b c d e.
  destruct is_private, g, a, b, c, d, e; cbn;
    repeat split; intros; congruence.
Qed.

(** C1, as written, fails on a GitHub URL whose query string, and not its
    path, holds /releases/: the table of the specification fetches it
    directly, the code sends it through the public proxy. *)
Lemma releases_outside_path :
  url_path accept_netloc accept_netloc
    (str_of "https://github.com/o/r/issues?q=/releases/") = str_of "/o/r/issues"
  /\ needs_proxy (str_of "https://github.com/o/r/issues?q=/releases/") false = true
  /\ proxy_decision (str_of "https://github.com/o/r/issues?q=/releases/") false
     = PublicProxy
  /\ needsProxy_spec accept_netloc accept_netloc
       (str_of "https://github.com/o/r/issues?q=/releases/") false = NoProxy.
Proof. repeat split; reflexivity. Qed.

(** ** Google Drive links *)

(** C2 (amended): a URL that names neither drive.google.com nor
    drive.usercontent.google.com (in any letter case) comes back unchanged
    with flag false; so does a Drive URL that is already direct (it names
    drive.usercontent.google.com and confirm=t).  Any other Drive URL is
    searched for a file identifier with the patterns /file/d/{id},
    /open?id={id} and [?&]id={id} in this order, the first match winning:
    a found identifier gives exactly the direct-download address with flag
    true, and no match gives the URL back unchanged with flag false. *)
Theorem gdrive_rewrite (url : str) :
  (is_gdrive_url url = false -> convert_google_drive_url url = (url, false))
  /\ (gdrive_already_direct url = true ->
      convert_google_drive_url url = (url, false))
  /\ (is_gdrive_url url = true -> gdrive_already_direct url = false ->
      (forall id, search_id re_file_d url = Some id ->
         convert_google_drive_url url = (gdrive_direct_url id, true))
      /\ (forall id, search_id re_file_d url = None ->
            search_id re_open_id url = Some id ->
            convert_google_drive_url url = (gdrive_direct_url id, true))
      /\ (forall id, search_id re_file_d url = None ->
            search_id re_open_id url = None ->
            search_id re_query_id url = Some id ->
            convert_google_drive_url url = (gdrive_direct_url id, true))
      /\ (search_id re_file_d url = None ->
          search_id re_open_id url = None ->
          search_id re_query_id url = None ->
          convert_google_drive_url url = (url, false))).
Proof.
  unfold is_gdrive_url, gdrive_already_direct, convert_google_drive_url,
    find_file_id.
  set (a := contains (str_of "drive.google.com") (lower url)).
  set (b := contains (str_of "drive.usercontent.google.com") (lower url)).
  set (c := contains (str_of "confirm=t") (lower url)).
  clearbody a b c.
  split; [|split].
  - intros H. apply orb_false_iff in H as [-> ->]. reflexivity.
  - intros H. apply andb_true_iff in H as [-> ->].
    destruct a; reflexivity.
  - intros Hd Hn. rewrite Hn.
    assert (E : negb a && negb b = false) by (destruct a, b; auto; discriminate).
    rewrite E.
    repeat split.
    + intros id H1. rewrite H1. reflexivity.
    + intros id H1 H2. rewrite H1, H2. reflexivity.
    + intros id H1 H2 H3. rewrite H1, H2, H3. reflexivity.
    + intros H1 H2 H3. rewrite H1, H2, H3. reflexivity.
Qed.

Lemma gdrive_rewrite_witness :
  convert_google_drive_url
    (str_of "https://drive.google.com/file/d/1A2B3C/view?usp=sharing")
  = (str_of "https://drive.usercontent.google.com/download?id=1A2B3C&export=download&confirm=t",
     true)
  /\ convert_google_drive_url (str_of "https://example.com/open?id=1A2B3C")
     = (str_of "https://example.com/open?id=1A2B3C", false).
Proof.
  split.
  - apply (proj1 (proj2 (proj2 (gdrive_rewrite
             (str_of "https://drive.google.com/file/d/1A2B3C/view?usp=sharing")))
             eq_refl eq_refl) (str_of "1A2B3C")).
    reflexivity.
  - apply (proj1 (gdrive_rewrite (str_of "https://example.com/open?id=1A2B3C"))).
    reflexivity.
Defined.

(** C2, as written, fails on a Drive URL that is already direct: the
    generic pattern finds an identifier in it, and the URL comes back
    unchanged with flag false. *)
Lemma already_direct_not_rewritten :
  is_gdrive_url (str_of "https://drive.usercontent.google.com/u/0/uc?id=1A2B3C&confirm=t")
  = true
  /\ find_file_id (str_of "https://drive.usercontent.google.com/u/0/uc?id=1A2B3C&confirm=t")
     = Some (str_of "1A2B3C")
  /\ convert_google_drive_url
       (str_of "https://drive.usercontent.google.com/u/0/uc?id=1A2B3C&confirm=t")
     = (str_of "https://drive.usercontent.google.com/u/0/uc?id=1A2B3C&confirm=t", false)
  /\ convert_google_drive_url
       (str_of "https://drive.usercontent.google.com/u/0/uc?id=1A2B3C&confirm=t")
     <> (gdrive_direct_url (str_of "1A2B3C"), true).
Proof.
  split; [reflexivity|]. split; [reflexivity|]. split; [reflexivity|].
  vm_compute. discriminate.
Qed.

(** ** Bare file identifiers *)

Lemma rstrip_with_last (p : N -> bool) (s : str) :
  rstrip_with p s = [] \/ exists a c, rstrip_with p s = a ++ [c] /\ p c = false.
Proof.
  unfold rstrip_with. destruct (drop_while p (rev s)) as [|c tl] eqn:E.
  - left; reflexivity.
  - right. exists (rev tl), c. split; [reflexivity|].
    eapply drop_while_head; eassumption.
Qed.

Lemma strip_last (s : str) :
  strip s = [] \/ exists a c, strip s = a ++ [c] /\ is_space c = false.
Proof. unfold strip. apply rstrip_with_last. Qed.

Lemma match_bare_id_spec (t : str) :
  (forall a, t <> a ++ [10]) ->
  match_bare_id t = true <-> t <> [] /\ forallb id_char t = true.
Proof.
  intros Hnl. unfold match_bare_id.
  pose proof (take_drop_while id_char t) as Hsplit.
  pose proof (take_while_all id_char t) as Hall.
  split.
  - destruct (take_while id_char t) as [|c tk] eqn:Etk; [discriminate|].
    destruct (drop_while id_char t) as [|d [|d' dr]] eqn:Edr.
    + intros _. rewrite app_nil_r in Hsplit. subst t. split; [discriminate|exact Hall].
    + intros H. apply N.eqb_eq in H. subst d.
      exfalso. apply (Hnl (c :: tk)). symmetry. exact Hsplit.
    + discriminate.
  - intros [Hne Hid]. destruct (take_while_id id_char t Hid) as [E1 E2].
    rewrite E1, E2. destruct t; [congruence | reflexivity].
Qed.

Lemma strip_no_final_newline (s : str) (a : str) : strip s <> a ++ [10].
Proof.
  intros E. destruct (strip_last s) as [H | (b & c & H & Hc)].
  - rewrite H in E. destruct a; discriminate.
  - rewrite H in E. apply app_inj_tail in E as [_ ->]. discriminate.
Qed.

(** C10: an input that, once trimmed, names neither http nor
    drive.google.com (in any letter case) comes back trimmed exactly when
    it is made of letters, digits, underscores and hyphens only and is
    longer than 10 characters, and gives [None] otherwise.  An input that
    looks like a URL and in which no pattern finds an identifier gives
    [None], not the input. *)
Theorem bare_file_id (input_str : str) :
  let trimmed := strip input_str in
  (contains (str_of "http") (lower trimmed) = false ->
   contains (str_of "drive.google.com") (lower trimmed) = false ->
   (forallb id_char trimmed = true /\ (10 < length trimmed)%nat ->
    extract_gdrive_file_id input_str = Some trimmed)
   /\ (~ (forallb id_char trimmed = true /\ (10 < length trimmed)%nat) ->
       extract_gdrive_file_id input_str = None))
  /\ (contains (str_of "http") (lower trimmed) = true
      \/ contains (str_of "drive.google.com") (lower trimmed) = true ->
      find_file_id trimmed = None ->
      extract_gdrive_file_id input_str = None).
Proof.
  intros trimmed. unfold extract_gdrive_file_id. fold trimmed.
  pose proof (match_bare_id_spec trimmed (strip_no_final_newline input_str)) as M.
  split.
  - intros H1 H2. rewrite H1, H2. simpl. split.
    + intros [Hid Hlen].
      assert (Hm : match_bare_id trimmed = true).
      { apply M. split; [|exact Hid]. intros E. rewrite E in Hlen. simpl in Hlen. lia. }
      rewrite Hm. apply Nat.ltb_lt in Hlen. rewrite Hlen. reflexivity.
    + intros Hn. destruct (match_bare_id trimmed) eqn:Hm; simpl; [|reflexivity].
      destruct (10 <? length trimmed)%nat eqn:Hl; [|reflexivity].
      exfalso. apply Hn. apply Nat.ltb_lt in Hl. split; [|exact Hl].
      apply M. reflexivity.
  - intros H Hf.
    assert (E : contains (str_of "http") (lower trimmed)
                || contains (str_of "drive.google.com") (lower trimmed) = true).
    { destruct H as [H | H]; rewrite H; rewrite ?orb_true_r; reflexivity. }
    rewrite E. exact Hf.
Qed.

Lemma bare_file_id_witness :
  extract_gdrive_file_id (str_of "  1A2B3C4D5E6F_-x  ") = Some (str_of "1A2B3C4D5E6F_-x")
  /\ extract_gdrive_file_id (str_of "1A2B3C") = None
  /\ extract_gdrive_file_id (str_of " https://example.com/file ") = None.
Proof.
  split; [|split].
  - apply (proj1 (proj1 (bare_file_id (str_of "  1A2B3C4D5E6F_-x  ")) eq_refl eq_refl)).
    split; [reflexivity | vm_compute; lia].
  - apply (proj2 (proj1 (bare_file_id (str_of "1A2B3C")) eq_refl eq_refl)).
    intros [_ H]. vm_compute in H. lia.
  - apply (proj2 (bare_file_id (str_of " https://example.com/file "))).
    + left; reflexivity.
    + reflexivity.
Defined.

(** ** The UTF-8 codec *)

Lemma Some_inj {A : Type} (a b : A) : Some a = Some b -> a = b.
Proof. congruence. Qed.

Lemma div_4096 (c : N) : c / 4096 = c / 64 / 64.
Proof. rewrite N.Div0.div_div. reflexivity. Qed.

Lemma div_262144 (c : N) : c / 262144 = c / 64 / 64 / 64.
Proof. rewrite !N.Div0.div_div. reflexivity. Qed.

Ltac divmod c d :=
  let q := fresh "q" in
  let r := fresh "r" in
  pose proof (N.div_mod' c d);
  pose proof (N.mod_lt c d ltac:(discriminate));
  set (q := c / d) in *; set (r := c mod d) in *; clearbody q r.

Ltac cmp_step :=
  match goal with
  | |- context [?a <=? ?b] => destruct (N.leb_spec a b)
  | |- context [?a <? ?b] => destruct (N.ltb_spec a b)
  | |- context [?a =? ?b] => destruct (N.eqb_spec a b)
  end.

Ltac cmp_all := repeat (cmp_step; try lia; cbn [negb andb orb]).

Lemma utf8_scan_1 b rest :
  b < 0x80 -> utf8_scan (b :: rest) = Some b :: utf8_scan rest.
Proof. intros. cbn [utf8_scan]. cmp_all; reflexivity. Qed.

Lemma utf8_scan_2 b1 b2 rest :
  0xC2 <= b1 < 0xE0 -> 0x80 <= b2 < 0xC0 ->
  utf8_scan (b1 :: b2 :: rest)
  = Some ((b1 - 0xC0) * 64 + (b2 - 0x80)) :: utf8_scan rest.
Proof. intros. cbn [utf8_scan]. unfold is_cont. cmp_all; reflexivity. Qed.

Lemma utf8_scan_3 b1 b2 b3 rest :
  0xE0 <= b1 < 0xF0 -> 0x80 <= b2 < 0xC0 -> 0x80 <= b3 < 0xC0 ->
  (b1 = 0xE0 -> 0xA0 <= b2) -> (b1 = 0xED -> b2 < 0xA0) ->
  utf8_scan (b1 :: b2 :: b3 :: rest)
  = Some ((b1 - 0xE0) * 4096 + (b2 - 0x80) * 64 + (b3 - 0x80)) :: utf8_scan rest.
Proof. intros. cbn [utf8_scan]. unfold is_cont. cmp_all; reflexivity. Qed.

Lemma utf8_scan_4 b1 b2 b3 b4 rest :
  0xF0 <= b1 < 0xF5 -> 0x80 <= b2 < 0xC0 -> 0x80 <= b3 < 0xC0 ->
  0x80 <= b4 < 0xC0 ->
  (b1 = 0xF0 -> 0x90 <= b2) -> (b1 = 0xF4 -> b2 < 0x90) ->
  utf8_scan (b1 :: b2 :: b3 :: b4 :: rest)
  = Some ((b1 - 0xF0) * 262144 + (b2 - 0x80) * 4096 + (b3 - 0x80) * 64
          + (b4 - 0x80)) :: utf8_scan rest.
Proof. intros. cbn [utf8_scan]. unfold is_cont. cmp_all; reflexivity. Qed.

Ltac app_cons :=
  repeat match goal with
    | |- context [(?a :: ?l) ++ ?r] => change ((a :: l) ++ r) with (a :: (l ++ r))
    | |- context [[] ++ ?r] => change ([] ++ r) with r
    end.

Lemma utf8_scan_encode_cp (c : N) (bs rest : bytes) :
  utf8_encode_cp c = Some bs ->
  utf8_scan (bs ++ rest) = Some c :: utf8_scan rest.
Proof.
  unfold utf8_encode_cp, is_surrogate, in_range.
  destruct (N.ltb_spec c 0x80).
  { intros E; apply Some_inj in E; subst bs. apply utf8_scan_1. assumption. }
  destruct (N.ltb_spec c 0x800).
  { intros E; apply Some_inj in E; subst bs. divmod c 64.
    app_cons. rewrite utf8_scan_2 by lia. f_equal. f_equal. lia. }
  destruct (N.ltb_spec c 0x10000).
  { destruct (N.leb_spec 0xD800 c); destruct (N.leb_spec c 0xDFFF); cbn [andb];
      try discriminate; intros E; apply Some_inj in E; subst bs;
      rewrite div_4096;
      divmod c 64; divmod q 64;
      app_cons; rewrite utf8_scan_3 by lia; f_equal; f_equal; lia. }
  destruct (N.ltb_spec c 0x110000); [|discriminate].
  intros E; apply Some_inj in E; subst bs.
  rewrite div_262144, div_4096.
  divmod c 64. divmod q 64. divmod q0 64.
  app_cons. rewrite utf8_scan_4 by lia. f_equal. f_equal. lia.
Qed.

Lemma utf8_encode_cp_bytes (c : N) (bs : bytes) :
  utf8_encode_cp c = Some bs -> Forall (fun b => b < 256) bs.
Proof.
  unfold utf8_encode_cp, is_surrogate, in_range.
  destruct (N.ltb_spec c 0x80).
  { intros E; apply Some_inj in E; subst bs. repeat constructor. lia. }
  destruct (N.ltb_spec c 0x800).
  { intros E; apply Some_inj in E; subst bs. divmod c 64. repeat constructor; lia. }
  destruct (N.ltb_spec c 0x10000).
  { destruct (N.leb_spec 0xD800 c); destruct (N.leb_spec c 0xDFFF); cbn [andb];
      try discriminate; intros E; apply Some_inj in E; subst bs;
      rewrite div_4096;
      divmod c 64; divmod q 64; repeat constructor; lia. }
  destruct (N.ltb_spec c 0x110000); [|discriminate].
  intros E; apply Some_inj in E; subst bs.
  rewrite div_262144, div_4096.
  divmod c 64. divmod q 64. divmod q0 64. repeat constructor; lia.
Qed.

Lemma utf8_scan_encode (s : str) (bs : bytes) :
  utf8_encode s = Some bs -> utf8_scan bs = map Some s.
Proof.
  revert bs; induction s as [|c s IH]; intros bs; simpl.
  - intros E; apply Some_inj in E; subst bs. reflexivity.
  - destruct (utf8_encode_cp c) as [b|] eqn:Ec; [|discriminate].
    destruct (utf8_encode s) as [bs'|] eqn:Es; [|discriminate].
    intros E; apply Some_inj in E; subst bs.
    rewrite (utf8_scan_encode_cp c b bs' Ec). rewrite (IH bs' eq_refl). reflexivity.
Qed.

Lemma decode_replace_encode (s : str) (bs : bytes) :
  utf8_encode s = Some bs -> decode_replace bs = s.
Proof.
  intros E. unfold decode_replace. rewrite (utf8_scan_encode s bs E).
  rewrite map_map. apply map_id.
Qed.

Lemma utf8_encode_bytes (s : str) (bs : bytes) :
  utf8_encode s = Some bs -> Forall (fun b => b < 256) bs.
Proof.
  revert bs; induction s as [|c s IH]; intros bs; simpl.
  - intros E; apply Some_inj in E; subst bs. constructor.
  - destruct (utf8_encode_cp c) as [b|] eqn:Ec; [|discriminate].
    destruct (utf8_encode s) as [bs'|] eqn:Es; [|discriminate].
    intros E; apply Some_inj in E; subst bs.
    apply Forall_app. split; [eapply utf8_encode_cp_bytes; eassumption | auto].
Qed.

Lemma Ok_inj {A : Type} (a b : A) : Ok a = Ok b -> a = b.
Proof. congruence. Qed.

(** ** Percent-encoding *)

Lemma hex_val_digit (v : N) : v < 16 -> hex_val (hex_digit v) = Some v.
Proof.
  intros H. unfold hex_val, hex_digit, is_digit, in_range.
  destruct (N.ltb_spec v 10); cmp_all; f_equal; lia.
Qed.

Lemma always_safe_ascii (c : N) : always_safe c = true -> is_ascii c = true.
Proof.
  unfold always_safe, is_ascii, is_alpha_ascii, is_upper_ascii, is_lower_ascii,
    is_digit, in_range.
  cmp_all; intros; try discriminate; reflexivity.
Qed.

Lemma hex_digit_safe (v : N) : v < 16 -> always_safe (hex_digit v) = true.
Proof.
  intros H. unfold always_safe, hex_digit, is_alpha_ascii, is_upper_ascii,
    is_lower_ascii, is_digit, in_range.
  destruct (N.ltb_spec v 10); cmp_all; reflexivity.
Qed.

Lemma quoter_chars (safe : N -> bool) (b : N) :
  b < 256 -> forallb (quoted_char safe) (quoter safe b) = true.
Proof.
  intros Hb. unfold quoter.
  destruct (is_ascii b && (always_safe b || safe b)) eqn:E.
  - cbn [forallb]. unfold quoted_char.
    apply andb_true_iff in E as [-> ->]. reflexivity.
  - assert (H1 : b / 16 < 16) by (apply N.Div0.div_lt_upper_bound; lia).
    assert (H2 : b mod 16 < 16) by (apply N.mod_lt; discriminate).
    cbn [forallb]. unfold quoted_char.
    rewrite (always_safe_ascii _ (hex_digit_safe _ H1)), (hex_digit_safe _ H1).
    rewrite (always_safe_ascii _ (hex_digit_safe _ H2)), (hex_digit_safe _ H2).
    rewrite !orb_true_r. reflexivity.
Qed.

Lemma quote_from_bytes_chars (safe : N -> bool) (bs : bytes) :
  Forall (fun b => b < 256) bs ->
  forallb (quoted_char safe) (quote_from_bytes bs safe) = true.
Proof.
  unfold quote_from_bytes. induction 1 as [|b bs Hb _ IH]; [reflexivity|].
  cbn [flat_map]. rewrite forallb_app, quoter_chars, IH by assumption. reflexivity.
Qed.

Lemma unquote_to_bytes_quoter (safe : N -> bool) (b : N) (rest : bytes) :
  b < 256 -> safe 37 = false ->
  unquote_to_bytes (quoter safe b ++ rest) = b :: unquote_to_bytes rest.
Proof.
  intros Hb Hs. unfold quoter.
  destruct (is_ascii b && (always_safe b || safe b)) eqn:E.
  - assert (Hne : (b =? 37) = false).
    { destruct (N.eqb_spec b 37) as [->|]; [|reflexivity].
      rewrite Hs in E. discriminate. }
    app_cons. cbn [unquote_to_bytes]. rewrite Hne. reflexivity.
  - assert (H1 : b / 16 < 16) by (apply N.Div0.div_lt_upper_bound; lia).
    assert (H2 : b mod 16 < 16) by (apply N.mod_lt; discriminate).
    app_cons. cbn [unquote_to_bytes]. rewrite N.eqb_refl.
    rewrite (hex_val_digit _ H1), (hex_val_digit _ H2).
    f_equal. symmetry. apply N.div_mod'.
Qed.

Lemma unquote_to_bytes_quote (safe : N -> bool) (bs : bytes) :
  Forall (fun b => b < 256) bs -> safe 37 = false ->
  unquote_to_bytes (quote_from_bytes bs safe) = bs.
Proof.
  intros Hbs Hs. unfold quote_from_bytes.
  induction Hbs as [|b bs Hb _ IH]; [reflexivity|].
  cbn [flat_map]. rewrite unquote_to_bytes_quoter by assumption.
  rewrite IH. reflexivity.
Qed.

Lemma utf8_scan_ascii (s : str) :
  forallb is_ascii s = true -> utf8_scan s = map Some s.
Proof.
  induction s as [|c s IH]; [reflexivity|].
  cbn [forallb map]. intros H. apply andb_true_iff in H as [Hc Hs].
  rewrite utf8_scan_1 by (apply N.ltb_lt; exact Hc).
  rewrite IH by assumption. reflexivity.
Qed.

Lemma decode_replace_ascii (s : str) :
  forallb is_ascii s = true -> decode_replace s = s.
Proof.
  intros H. unfold decode_replace. rewrite utf8_scan_ascii by assumption.
  rewrite map_map. apply map_id.
Qed.

Lemma unquote_to_bytes_plain (s : bytes) :
  has_char 37 s = false -> unquote_to_bytes s = s.
Proof.
  unfold has_char. induction s as [|c s IH]; [reflexivity|].
  cbn [existsb unquote_to_bytes]. intros H. apply orb_false_iff in H as [Hc Hs].
  rewrite N.eqb_sym, Hc, IH by assumption. reflexivity.
Qed.

Lemma unquote_runs_ascii (run s : str) :
  forallb is_ascii s = true ->
  unquote_runs run s = decode_replace (unquote_to_bytes (rev run ++ s)).
Proof.
  revert run; induction s as [|c s IH]; intros run H.
  - cbn [unquote_runs]. rewrite app_nil_r. reflexivity.
  - cbn [forallb] in H. apply andb_true_iff in H as [Hc Hs].
    cbn [unquote_runs]. rewrite Hc, IH by assumption.
    cbn [rev]. rewrite <- app_assoc. reflexivity.
Qed.

(** On an ASCII string [unquote] decodes the unquoted bytes. *)
Lemma unquote_ascii (s : str) :
  forallb is_ascii s = true ->
  unquote s = decode_replace (unquote_to_bytes s).
Proof.
  intros H. unfold unquote. destruct (has_char 37 s) eqn:E; cbn [negb].
  - apply (unquote_runs_ascii [] s H).
  - rewrite unquote_to_bytes_plain, decode_replace_ascii by assumption.
    reflexivity.
Qed.

Lemma quoted_char_ascii (safe : N -> bool) (s : str) :
  forallb (quoted_char safe) s = true -> forallb is_ascii s = true.
Proof.
  induction s as [|c s IH]; [reflexivity|]. cbn [forallb].
  intros H. apply andb_true_iff in H as [Hc Hs]. rewrite IH by assumption.
  unfold quoted_char in Hc. apply andb_true_iff in Hc as [-> _]. reflexivity.
Qed.

(** [quote] is undone by [unquote] when the percent sign is not safe. *)
Lemma unquote_quote (safe : N -> bool) (s q : str) :
  safe 37 = false -> quote s safe = Ok q -> unquote q = s.
Proof.
  intros Hs. unfold quote. destruct s as [|c s].
  - intros E. injection E as <-. reflexivity.
  - destruct (utf8_encode (c :: s)) as [bs|] eqn:Eb; [|discriminate].
    intros E. injection E as <-.
    pose proof (utf8_encode_bytes _ _ Eb) as Hb.
    rewrite unquote_ascii
      by (eapply quoted_char_ascii; apply quote_from_bytes_chars; exact Hb).
    rewrite unquote_to_bytes_quote by assumption.
    apply decode_replace_encode. exact Eb.
Qed.

Lemma replace_char_undo (a b : N) (s : str) :
  has_char b s = false -> replace_char b a (replace_char a b s) = s.
Proof.
  unfold has_char, replace_char. induction s as [|c s IH]; [reflexivity|].
  cbn [existsb map]. intros H. apply orb_false_iff in H as [Hc Hs].
  rewrite IH by assumption. f_equal.
  destruct (N.eqb_spec c a) as [->|Hn].
  - rewrite N.eqb_refl. reflexivity.
  - rewrite N.eqb_sym, Hc. reflexivity.
Qed.

Lemma replace_char_absent (a b : N) (s : str) :
  has_char a s = false -> replace_char a b s = s.
Proof.
  unfold has_char, replace_char. induction s as [|c s IH]; [reflexivity|].
  cbn [existsb map]. intros H. apply orb_false_iff in H as [Hc Hs].
  rewrite IH by assumption. rewrite N.eqb_sym, Hc. reflexivity.
Qed.

Lemma has_char_forallb (p : N -> bool) (c : N) (s : str) :
  forallb p s = true -> p c = false -> has_char c s = false.
Proof.
  intros H Hc. unfold has_char. induction s as [|d s IH]; [reflexivity|].
  cbn [forallb existsb] in *. apply andb_true_iff in H as [Hd Hs].
  rewrite IH by assumption. destruct (N.eqb_spec c d) as [->|]; [|reflexivity].
  congruence.
Qed.

Lemma quote_plus_chars (s q : str) :
  quote_plus s = Ok q -> forallb plus_char q = true.
Proof.
  unfold quote_plus, quote.
  destruct (has_char 32 s); cbn [negb]; destruct s as [|c s];
    try (intros E; injection E as <-; reflexivity).
  - destruct (utf8_encode (c :: s)) as [bs|] eqn:Eb; [|discriminate].
    cbn [bind]. intros E. injection E as <-.
    pose proof (quote_from_bytes_chars (fun b => b =? 32) bs
                  (utf8_encode_bytes _ _ Eb)) as H.
    revert H. generalize (quote_from_bytes bs (fun b => b =? 32)).
    unfold replace_char.
    intros l; induction l as [|d l IH]; [reflexivity|]. cbn [forallb map]. intros H.
    apply andb_true_iff in H as [Hd Hl]. rewrite IH by assumption.
    unfold quoted_char in Hd. unfold plus_char.
    apply andb_true_iff in Hd as [_ Hd].
    destruct (N.eqb_spec d 32) as [->|Hn]; [reflexivity|].
    rewrite orb_false_r in Hd. rewrite Hd. reflexivity.
  - destruct (utf8_encode (c :: s)) as [bs|] eqn:Eb; [|discriminate].
    intros E. injection E as <-.
    pose proof (quote_from_bytes_chars (fun _ => false) bs
                  (utf8_encode_bytes _ _ Eb)) as H.
    revert H. generalize (quote_from_bytes bs (fun _ => false)).
    intros l; induction l as [|d l IH]; [reflexivity|]. cbn [forallb]. intros H.
    apply andb_true_iff in H as [Hd Hl]. rewrite IH by assumption.
    unfold quoted_char in Hd. unfold plus_char.
    apply andb_true_iff in Hd as [_ Hd]. rewrite orb_false_r in Hd.
    rewrite Hd. reflexivity.
Qed.

(** [unquote_plus] undoes [quote_plus]. *)
Lemma unquote_quote_plus (s q : str) :
  quote_plus s = Ok q -> unquote (replace_char 43 32 q) = s.
Proof.
  unfold quote_plus. destruct (has_char 32 s) eqn:Esp; cbn [negb].
  - destruct (quote s (fun b => b =? 32)) as [q0|] eqn:Eq; [|discriminate].
    cbn [bind]. intros E. injection E as <-.
    assert (H43 : has_char 43 q0 = false).
    { unfold quote in Eq. destruct s as [|c s]; [injection Eq as <-; reflexivity|].
      destruct (utf8_encode (c :: s)) as [bs|] eqn:Eb; [|discriminate].
      injection Eq as <-.
      eapply has_char_forallb.
      - apply quote_from_bytes_chars. eapply utf8_encode_bytes; exact Eb.
      - reflexivity. }
    rewrite replace_char_undo by exact H43.
    eapply unquote_quote; [|exact Eq]. reflexivity.
  - intros Eq.
    assert (H43 : has_char 43 q = false).
    { unfold quote in Eq. destruct s as [|c s]; [injection Eq as <-; reflexivity|].
      destruct (utf8_encode (c :: s)) as [bs|] eqn:Eb; [|discriminate].
      injection Eq as <-.
      eapply has_char_forallb.
      - apply quote_from_bytes_chars. eapply utf8_encode_bytes; exact Eb.
      - reflexivity. }
    rewrite replace_char_absent by exact H43.
    eapply unquote_quote; [|exact Eq]. reflexivity.
Qed.

Lemma utf8_encode_nil (s : str) : utf8_encode s = Some [] -> s = [].
Proof.
  destruct s as [|c s]; [reflexivity|]. cbn [utf8_encode].
  destruct (utf8_encode_cp c) as [b|] eqn:Ec; [|discriminate].
  destruct (utf8_encode s) as [bs|]; [|discriminate].
  intros E. apply Some_inj in E. apply app_eq_nil in E as [-> _].
  exfalso. revert Ec. unfold utf8_encode_cp.
  repeat match goal with |- context [if ?b then _ else _] => destruct b end;
    discriminate.
Qed.

Lemma quoter_not_nil (safe : N -> bool) (b : N) : quoter safe b <> [].
Proof. unfold quoter. destruct (_ && _); discriminate. Qed.

(** [quote_plus] writes the empty string for the empty string only. *)
Lemma quote_plus_nil (s : str) : quote_plus s = Ok [] -> s = [].
Proof.
  destruct s as [|c s]; [reflexivity|]. intros E. exfalso. revert E.
  unfold quote_plus, quote.
  destruct (utf8_encode (c :: s)) as [bs|] eqn:Eb;
    [|destruct (has_char 32 (c :: s)); discriminate].
  assert (Hbs : bs <> []).
  { intros ->. apply utf8_encode_nil in Eb. discriminate. }
  destruct bs as [|b bs]; [congruence|].
  unfold quote_from_bytes. cbn [flat_map].
  destruct (has_char 32 (c :: s)); cbn [negb bind]; intros E;
    apply Ok_inj in E.
  - unfold replace_char in E. apply map_eq_nil in E.
    apply app_eq_nil in E as [E _]. exact (quoter_not_nil _ _ E).
  - apply app_eq_nil in E as [E _]. exact (quoter_not_nil _ _ E).
Qed.

(** ** Query strings *)

Lemma split_plain (sep : N) (w : str) :
  has_char sep w = false -> split sep w = [w].
Proof.
  unfold has_char. induction w as [|c w IH]; [reflexivity|].
  cbn [existsb split]. intros H. apply orb_false_iff in H as [Hc Hw].
  rewrite N.eqb_sym, Hc, IH by assumption. reflexivity.
Qed.

Lemma split_app (sep : N) (w rest : str) :
  has_char sep w = false -> split sep (w ++ sep :: rest) = w :: split sep rest.
Proof.
  unfold has_char. induction w as [|c w IH].
  - intros _. cbn [app split]. rewrite N.eqb_refl. reflexivity.
  - cbn [existsb]. intros H. apply orb_false_iff in H as [Hc Hw].
    app_cons. cbn [split]. rewrite N.eqb_sym, Hc, IH by assumption. reflexivity.
Qed.

Lemma split_join (sep : N) (l : list str) :
  l <> [] -> Forall (fun w => has_char sep w = false) l ->
  split sep (join sep l) = l.
Proof.
  intros Hne H. induction H as [|w l Hw Hl IH]; [congruence|].
  destruct l as [|w' l].
  - cbn [join]. apply split_plain. exact Hw.
  - change (join sep (w :: w' :: l)) with (w ++ sep :: join sep (w' :: l)).
    rewrite split_app by exact Hw. rewrite IH by discriminate. reflexivity.
Qed.

Lemma split_once_app (sep : N) (a b : str) :
  has_char sep a = false -> split_once sep (a ++ sep :: b) = (a, Some b).
Proof.
  unfold has_char. induction a as [|c a IH].
  - intros _. cbn [app split_once]. rewrite N.eqb_refl. reflexivity.
  - cbn [existsb]. intros H. apply orb_false_iff in H as [Hc Ha].
    app_cons. cbn [split_once]. rewrite N.eqb_sym, Hc, IH by assumption.
    reflexivity.
Qed.

Lemma split_once_plain (sep : N) (a : str) :
  has_char sep a = false -> split_once sep a = (a, None).
Proof.
  unfold has_char. induction a as [|c a IH]; [reflexivity|].
  cbn [existsb split_once]. intros H. apply orb_false_iff in H as [Hc Ha].
  rewrite N.eqb_sym, Hc, IH by assumption. reflexivity.
Qed.

Lemma has_char_app (c : N) (a b : str) :
  has_char c (a ++ b) = has_char c a || has_char c b.
Proof. unfold has_char. apply existsb_app. Qed.

Lemma join_nil (sep : N) (l : list str) :
  Forall (fun w => w <> []) l -> join sep l = [] -> l = [].
Proof.
  intros H. destruct H as [|w l Hw Hl]; [reflexivity|].
  destruct l; cbn [join]; intros E.
  - congruence.
  - apply app_eq_nil in E as [E _]. congruence.
Qed.

(** A field written by [urlencode] is read back by [parse_qsl]. *)
Lemma parse_field_quoted (k v k' e : str) :
  quote_plus k = Ok k' -> quote_plus v = Ok e -> v <> [] ->
  parse_field false (k' ++ 61 :: e) = [(k, v)].
Proof.
  intros Hk Hv Hne. unfold parse_field.
  assert (H61 : has_char 61 k' = false).
  { eapply has_char_forallb; [eapply quote_plus_chars; exact Hk | reflexivity]. }
  rewrite split_once_app by exact H61.
  assert (He : e <> []) by (intros ->; apply Hne; apply quote_plus_nil; exact Hv).
  destruct (k' ++ 61 :: e) eqn:E; [destruct k'; discriminate|].
  destruct e as [|e0 e]; [congruence|]. cbn [length Nat.eqb negb orb].
  rewrite (unquote_quote_plus _ _ Hk), (unquote_quote_plus _ _ Hv). reflexivity.
Qed.

Lemma has_char_field (c : N) (k' e : str) :
  forallb plus_char k' = true -> forallb plus_char e = true ->
  plus_char c = false -> c <> 61 ->
  has_char c (k' ++ 61 :: e) = false.
Proof.
  intros Hk He Hc Hn. rewrite has_char_app.
  rewrite (has_char_forallb plus_char c k' Hk Hc).
  unfold has_char at 1. cbn [existsb]. fold (has_char c e).
  rewrite (has_char_forallb plus_char c e He Hc).
  apply N.eqb_neq in Hn. rewrite Hn. reflexivity.
Qed.

Lemma field_ok_intro (k' e : str) :
  forallb plus_char k' = true -> forallb plus_char e = true ->
  field_ok (k' ++ 61 :: e).
Proof.
  intros Hk He. unfold field_ok.
  assert (Q : forall s, forallb plus_char s = true -> forallb query_char s = true).
  { induction s as [|c s IH]; [reflexivity|]. cbn [forallb]. intros H.
    apply andb_true_iff in H as [Hc Hs]. rewrite IH by assumption.
    rewrite andb_true_r. unfold query_char.
    destruct (N.eqb_spec c 35) as [->|]; [discriminate|].
    destruct (N.eqb_spec c 9) as [->|]; [discriminate|].
    destruct (N.eqb_spec c 10) as [->|]; [discriminate|].
    destruct (N.eqb_spec c 13) as [->|]; [discriminate|]. reflexivity. }
  split; [apply has_char_field; [assumption | assumption | reflexivity | discriminate]|]. split.
  - rewrite forallb_app. cbn [forallb]. rewrite (Q _ Hk), (Q _ He). reflexivity.
  - destruct k'; discriminate.
Qed.

Lemma urlencode_values_spec (k k' : str) (vs : list str) (l : list str) :
  quote_plus k = Ok k' -> urlencode_values k' vs = Ok l ->
  Forall (fun v => v <> []) vs ->
  flat_map (parse_field false) l = map (pair k) vs /\ Forall field_ok l.
Proof.
  intros Hk. revert l. induction vs as [|v vs IH]; intros l.
  - cbn [urlencode_values]. intros E _. apply Ok_inj in E. subst l. split; constructor.
  - cbn [urlencode_values]. destruct (quote_plus v) as [e|] eqn:Ev; [|discriminate].
    cbn [bind]. destruct (urlencode_values k' vs) as [l'|] eqn:El; [|discriminate].
    cbn [bind]. intros E Hne. apply Ok_inj in E. subst l.
    inversion Hne as [|? ? Hv Hvs]; subst.
    destruct (IH l' eq_refl Hvs) as [IH1 IH2]. split.
    + cbn [flat_map map]. rewrite (parse_field_quoted k v k' e Hk Ev Hv), IH1.
      reflexivity.
    + constructor; [|exact IH2].
      apply field_ok_intro; eapply quote_plus_chars; eassumption.
Qed.

Lemma urlencode_fields_spec (d : dict) (l : list str) :
  urlencode_fields d = Ok l ->
  Forall (fun kv => Forall (fun v => v <> []) (snd kv)) d ->
  flat_map (parse_field false) l = dict_pairs d /\ Forall field_ok l.
Proof.
  revert l. induction d as [|[k vs] d IH]; intros l.
  - cbn [urlencode_fields]. intros E _. apply Ok_inj in E. subst l. split; constructor.
  - cbn [urlencode_fields]. destruct (quote_plus k) as [k'|] eqn:Ek; [|discriminate].
    cbn [bind]. destruct (urlencode_values k' vs) as [l1|] eqn:E1; [|discriminate].
    cbn [bind]. destruct (urlencode_fields d) as [l2|] eqn:E2; [|discriminate].
    cbn [bind]. intros E Hne. apply Ok_inj in E. subst l.
    inversion Hne as [|? ? Hv Hd]; subst. cbn [snd] in Hv.
    destruct (urlencode_values_spec k k' vs l1 Ek E1 Hv) as [A1 A2].
    destruct (IH l2 eq_refl Hd) as [B1 B2]. split.
    + rewrite flat_map_app, A1, B1. reflexivity.
    + apply Forall_app. split; assumption.
Qed.

Lemma has_char_join (c sep : N) (l : list str) :
  c <> sep -> Forall (fun w => has_char c w = false) l ->
  has_char c (join sep l) = false.
Proof.
  intros Hc H. induction H as [|w l Hw Hl IH]; [reflexivity|].
  destruct l as [|w' l]; [exact Hw|].
  change (join sep (w :: w' :: l)) with (w ++ sep :: join sep (w' :: l)).
  rewrite has_char_app, Hw. cbn [has_char existsb orb].
  apply N.eqb_neq in Hc. rewrite Hc. exact IH.
Qed.

Lemma forallb_join (p : N -> bool) (sep : N) (l : list str) :
  p sep = true -> Forall (fun w => forallb p w = true) l ->
  forallb p (join sep l) = true.
Proof.
  intros Hp H. induction H as [|w l Hw Hl IH]; [reflexivity|].
  destruct l as [|w' l]; [exact Hw|].
  change (join sep (w :: w' :: l)) with (w ++ sep :: join sep (w' :: l)).
  rewrite forallb_app, Hw. cbn [forallb]. rewrite Hp, IH. reflexivity.
Qed.

(** [parse_qsl] reads back what [urlencode] wrote, when no value is
    empty. *)
Lemma parse_qsl_urlencode (d : dict) (q : str) :
  urlencode d = Ok q ->
  Forall (fun kv => Forall (fun v => v <> []) (snd kv)) d ->
  parse_qsl false q = dict_pairs d.
Proof.
  unfold urlencode. destruct (urlencode_fields d) as [l|] eqn:E; [|discriminate].
  cbn [bind]. intros Eq Hne. apply Ok_inj in Eq. subst q.
  destruct (urlencode_fields_spec d l E Hne) as [H1 H2].
  unfold parse_qsl. destruct l as [|f l].
  - cbn [join]. exact H1.
  - destruct (join 38 (f :: l)) eqn:Ej.
    + exfalso. apply (join_nil 38 (f :: l)) in Ej; [discriminate|].
      eapply Forall_impl; [|exact H2]. intros a Ha. apply Ha.
    + rewrite <- Ej. rewrite split_join; [exact H1 | discriminate |].
      eapply Forall_impl; [|exact H2]. intros a Ha. apply Ha.
Qed.

(** The query string written by [urlencode] holds no fragment sign, tab or
    line break, and is empty only for a dict without values. *)
Lemma urlencode_chars (d : dict) (q : str) :
  urlencode d = Ok q -> forallb query_char q = true.
Proof.
  unfold urlencode. destruct (urlencode_fields d) as [l|] eqn:E; [|discriminate].
  cbn [bind]. intros Eq. apply Ok_inj in Eq. subst q.
  apply forallb_join; [reflexivity|].
  assert (H : forall d l, urlencode_fields d = Ok l ->
                Forall (fun w => forallb query_char w = true) l).
  { clear. induction d as [|[k vs] d IH]; intros l.
    - cbn [urlencode_fields]. intros E. apply Ok_inj in E. subst l. constructor.
    - cbn [urlencode_fields].
      destruct (quote_plus k) as [k'|] eqn:Ek; [|discriminate]. cbn [bind].
      destruct (urlencode_values k' vs) as [l1|] eqn:E1; [|discriminate].
      cbn [bind]. destruct (urlencode_fields d) as [l2|] eqn:E2; [|discriminate].
      cbn [bind]. intros E. apply Ok_inj in E. subst l.
      apply Forall_app. split; [|apply IH; reflexivity].
      clear IH E2. revert l1 E1. induction vs as [|v vs IHv]; intros l1.
      + cbn [urlencode_values]. intros E. apply Ok_inj in E. subst l1. constructor.
      + cbn [urlencode_values].
        destruct (quote_plus v) as [e|] eqn:Ev; [|discriminate]. cbn [bind].
        destruct (urlencode_values k' vs) as [l'|] eqn:El; [|discriminate].
        cbn [bind]. intros E. apply Ok_inj in E. subst l1.
        constructor; [|apply IHv; reflexivity].
        apply (field_ok_intro k' e); eapply quote_plus_chars; eassumption. }
  exact (H d l E).
Qed.

(** ** Dicts of query parameters *)

Lemma dict_add_value_fresh (d : dict) (k v : str) :
  ~ In k (map fst d) -> dict_add_value d k v = d ++ [(k, [v])].
Proof.
  induction d as [|[k' vs] d IH]; [reflexivity|].
  cbn [map fst In dict_add_value app]. intros H.
  destruct (str_eqb k k') eqn:E.
  - apply str_eqb_eq in E. subst. exfalso. apply H. left. reflexivity.
  - rewrite IH; [reflexivity|]. intros Hin. apply H. right. exact Hin.
Qed.

Lemma dict_add_value_last (d : dict) (k v : str) (vs : list str) :
  ~ In k (map fst d) ->
  dict_add_value (d ++ [(k, vs)]) k v = d ++ [(k, vs ++ [v])].
Proof.
  induction d as [|[k' vs'] d IH].
  - intros _. cbn [app dict_add_value]. rewrite str_eqb_refl. reflexivity.
  - cbn [map fst In dict_add_value app]. intros H.
    destruct (str_eqb k k') eqn:E.
    + apply str_eqb_eq in E. subst. exfalso. apply H. left. reflexivity.
    + rewrite IH; [reflexivity|]. intros Hin. apply H. right. exact Hin.
Qed.

Lemma fold_add_values (d : dict) (k : str) (ws vs : list str) :
  ~ In k (map fst d) ->
  fold_left (fun acc nv => dict_add_value acc (fst nv) (snd nv))
            (map (pair k) vs) (d ++ [(k, ws)])
  = d ++ [(k, ws ++ vs)].
Proof.
  intros H. revert ws. induction vs as [|v vs IH]; intros ws.
  - cbn [map fold_left]. rewrite app_nil_r. reflexivity.
  - cbn [map fold_left fst snd]. rewrite dict_add_value_last by exact H.
    rewrite IH, <- app_assoc. reflexivity.
Qed.

Lemma fold_add_pairs (acc d : dict) :
  NoDup (map fst (acc ++ d)) ->
  Forall (fun kv => snd kv <> []) d ->
  fold_left (fun acc nv => dict_add_value acc (fst nv) (snd nv))
            (dict_pairs d) acc
  = acc ++ d.
Proof.
  revert acc. induction d as [|[k vs] d IH]; intros acc Hnd Hne.
  - cbn [dict_pairs flat_map fold_left]. rewrite app_nil_r. reflexivity.
  - inversion Hne as [|? ? Hvs Hd]; subst. cbn [snd] in Hvs.
    destruct vs as [|v vs]; [congruence|].
    unfold dict_pairs. cbn [flat_map fst snd map]. fold (dict_pairs d).
    rewrite map_app in Hnd. cbn [map fst] in Hnd.
    assert (Hk : ~ In k (map fst acc)).
    { intros Hin. apply NoDup_remove_2 in Hnd. apply Hnd.
      apply in_or_app. left. exact Hin. }
    cbn [app fold_left fst snd]. rewrite fold_left_app.
    rewrite dict_add_value_fresh by exact Hk.
    rewrite (fold_add_values acc k [v] vs Hk). cbn [app].
    rewrite IH.
    + rewrite <- app_assoc. reflexivity.
    + rewrite <- app_assoc, map_app. cbn [app map fst]. exact Hnd.
    + exact Hd.
Qed.

(** [parse_qs] regroups the pairs of a well-formed dict into that dict. *)
Lemma regroup_pairs (d : dict) :
  dict_ok d ->
  fold_left (fun acc nv => dict_add_value acc (fst nv) (snd nv))
            (dict_pairs d) []
  = d.
Proof.
  intros [Hnd Hne]. apply (fold_add_pairs [] d Hnd).
  eapply Forall_impl; [|exact Hne]. intros kv [H _]. exact H.
Qed.

Lemma dict_add_value_keys (d : dict) (k v : str) :
  map fst (dict_add_value d k v)
  = if existsb (str_eqb k) (map fst d) then map fst d else map fst d ++ [k].
Proof.
  induction d as [|[k' vs] d IH]; [reflexivity|].
  cbn [dict_add_value map fst existsb].
  destruct (str_eqb k k') eqn:E; cbn [orb map fst].
  - apply str_eqb_eq in E. subst. reflexivity.
  - rewrite IH. destruct (existsb (str_eqb k) (map fst d)); reflexivity.
Qed.

Lemma existsb_str_eqb (k : str) (l : list str) :
  existsb (str_eqb k) l = false -> ~ In k l.
Proof.
  intros H Hin. assert (E : existsb (str_eqb k) l = true).
  { apply existsb_exists. exists k. split; [exact Hin | apply str_eqb_refl]. }
  congruence.
Qed.

Lemma dict_add_value_ok (d : dict) (k v : str) :
  dict_ok d -> v <> [] -> dict_ok (dict_add_value d k v).
Proof.
  intros [Hnd Hne] Hv. split.
  - rewrite dict_add_value_keys.
    destruct (existsb (str_eqb k) (map fst d)) eqn:E; [exact Hnd|].
    apply existsb_str_eqb in E.
    apply NoDup_rev in Hnd. rewrite <- (rev_involutive (map fst d ++ [k])).
    apply NoDup_rev. rewrite rev_app_distr. cbn [rev app].
    constructor; [|exact Hnd]. rewrite <- in_rev. exact E.
  - clear Hnd. induction Hne as [|[k' vs] d Hkv Hd IH].
    + cbn [dict_add_value]. repeat constructor; [discriminate | exact Hv].
    + cbn [dict_add_value]. destruct (str_eqb k k').
      * constructor; [|exact Hd]. cbn [snd] in *. destruct Hkv as [H1 H2]. split.
        -- destruct vs; discriminate.
        -- apply Forall_app. split; [exact H2 | repeat constructor; exact Hv].
      * constructor; [exact Hkv | exact IH].
Qed.

Lemma dict_set_keys (d : dict) (k : str) (vs : list str) :
  map fst (dict_set d k vs)
  = if existsb (str_eqb k) (map fst d) then map fst d else map fst d ++ [k].
Proof.
  induction d as [|[k' vs'] d IH]; [reflexivity|].
  cbn [dict_set map fst existsb].
  destruct (str_eqb k k') eqn:E; cbn [orb map fst].
  - apply str_eqb_eq in E. subst. reflexivity.
  - rewrite IH. destruct (existsb (str_eqb k) (map fst d)); reflexivity.
Qed.

Lemma dict_set_ok (d : dict) (k : str) (vs : list str) :
  dict_ok d -> vs <> [] -> Forall (fun v => v <> []) vs ->
  dict_ok (dict_set d k vs).
Proof.
  intros [Hnd Hne] Hvs Hv. split.
  - rewrite dict_set_keys.
    destruct (existsb (str_eqb k) (map fst d)) eqn:E; [exact Hnd|].
    apply existsb_str_eqb in E.
    apply NoDup_rev in Hnd. rewrite <- (rev_involutive (map fst d ++ [k])).
    apply NoDup_rev. rewrite rev_app_distr. cbn [rev app].
    constructor; [|exact Hnd]. rewrite <- in_rev. exact E.
  - clear Hnd. induction Hne as [|[k' vs'] d Hkv Hd IH].
    + cbn [dict_set]. repeat constructor; assumption.
    + cbn [dict_set]. destruct (str_eqb k k').
      * constructor; [|exact Hd]. split; assumption.
      * constructor; [exact Hkv | exact IH].
Qed.

Lemma dict_get_set (d : dict) (k : str) (vs : list str) :
  dict_get (dict_set d k vs) k = Some vs.
Proof.
  induction d as [|[k' vs'] d IH].
  - cbn [dict_set dict_get]. rewrite str_eqb_refl. reflexivity.
  - cbn [dict_set]. destruct (str_eqb k k') eqn:E; cbn [dict_get]; rewrite E.
    + reflexivity.
    + exact IH.
Qed.

Lemma dict_get_set_other (d : dict) (k k' : str) (vs : list str) :
  k' <> k -> dict_get (dict_set d k vs) k' = dict_get d k'.
Proof.
  intros Hne. induction d as [|[k0 vs0] d IH].
  - cbn [dict_set dict_get]. apply str_eqb_neq in Hne. rewrite Hne. reflexivity.
  - cbn [dict_set]. destruct (str_eqb k k0) eqn:E; cbn [dict_get].
    + apply str_eqb_eq in E. subst k0. apply str_eqb_neq in Hne. rewrite Hne.
      reflexivity.
    + rewrite IH. reflexivity.
Qed.

(** ** What [parse_qs] returns *)

Lemma utf8_scan_nil (bs : bytes) : utf8_scan bs = [] -> bs = [].
Proof.
  destruct bs as [|b1 r1]; [reflexivity|]. cbn [utf8_scan].
  repeat match goal with
    | |- context [if ?b then _ else _] => destruct b
    | |- context [match ?l with [] => _ | _ :: _ => _ end] => destruct l
    end; discriminate.
Qed.

Lemma unquote_to_bytes_nil (s : bytes) : unquote_to_bytes s = [] -> s = [].
Proof.
  destruct s as [|c tl]; [reflexivity|]. cbn [unquote_to_bytes].
  destruct (c =? 37); [|discriminate].
  destruct tl as [|h1 [|h2 rest]]; try discriminate.
  destruct (hex_val h1), (hex_val h2); discriminate.
Qed.

Lemma unquote_runs_nil (run s : str) :
  unquote_runs run s = [] -> run = [] /\ s = [].
Proof.
  revert run. induction s as [|c s IH]; intros run.
  - cbn [unquote_runs]. unfold decode_replace. intros E.
    apply map_eq_nil in E. apply utf8_scan_nil in E.
    apply unquote_to_bytes_nil in E.
    split; [|reflexivity]. destruct run; [reflexivity|].
    cbn [rev] in E. apply app_eq_nil in E as [_ E]. discriminate.
  - cbn [unquote_runs]. destruct (is_ascii c).
    + intros E. apply IH in E as [E _]. discriminate.
    + intros E. apply app_eq_nil in E as [_ E]. discriminate.
Qed.

Lemma unquote_not_nil (s : str) : s <> [] -> unquote s <> [].
Proof.
  intros Hne. unfold unquote. destruct (has_char 37 s); cbn [negb].
  - intros E. apply unquote_runs_nil in E as [_ E]. congruence.
  - exact Hne.
Qed.

Lemma parse_field_values (keep : bool) (f : str) :
  keep = false -> Forall (fun nv => snd nv <> []) (parse_field keep f).
Proof.
  intros ->. unfold parse_field. destruct f as [|c f]; [constructor|].
  destruct (split_once 61 (c :: f)) as [n [v|]]; [|constructor].
  destruct v as [|v0 v]; cbn [length Nat.eqb negb orb]; [constructor|].
  repeat constructor. cbn [snd]. apply unquote_not_nil. discriminate.
Qed.

Lemma parse_qsl_values (qs : str) :
  Forall (fun nv => snd nv <> []) (parse_qsl false qs).
Proof.
  unfold parse_qsl. generalize (match qs with [] => [] | _ :: _ => split 38 qs end).
  intros l. induction l as [|f l IH]; [constructor|].
  cbn [flat_map]. apply Forall_app. split; [|exact IH].
  apply parse_field_values. reflexivity.
Qed.

Lemma fold_add_ok (pairs : list (str * str)) (acc : dict) :
  dict_ok acc -> Forall (fun nv => snd nv <> []) pairs ->
  dict_ok (fold_left (fun acc nv => dict_add_value acc (fst nv) (snd nv))
                     pairs acc).
Proof.
  revert acc. induction pairs as [|[n v] pairs IH]; intros acc Hacc Hp.
  - exact Hacc.
  - inversion Hp as [|? ? Hv Hps]; subst. cbn [fold_left fst snd].
    apply IH; [|exact Hps]. apply dict_add_value_ok; assumption.
Qed.

Lemma parse_qs_ok (qs : str) : dict_ok (parse_qs qs).
Proof.
  unfold parse_qs. apply fold_add_ok; [|apply parse_qsl_values].
  split; constructor.
Qed.

(** [parse_qs] reads back the dict that [urlencode] wrote. *)
Lemma parse_qs_urlencode (d : dict) (q : str) :
  dict_ok d -> urlencode d = Ok q -> parse_qs q = d.
Proof.
  intros Hd Eq. unfold parse_qs. rewrite (parse_qsl_urlencode d q Eq).
  - apply regroup_pairs. exact Hd.
  - destruct Hd as [_ Hne]. eapply Forall_impl; [|exact Hne].
    intros kv [_ H]. exact H.
Qed.

(** ** Splitting at a character *)

Lemma split_once_some (sep : N) (s a b : str) :
  split_once sep s = (a, Some b) ->
  s = a ++ sep :: b /\ has_char sep a = false.
Proof.
  revert a b. induction s as [|c s IH]; intros a b.
  - cbn [split_once]. discriminate.
  - cbn [split_once]. destruct (N.eqb_spec c sep) as [->|Hne].
    + intros E. injection E as <- <-. split; reflexivity.
    + destruct (split_once sep s) as [a' b'] eqn:Es.
      intros E. injection E as Ea Eb. subst a b'.
      destruct (IH a' b eq_refl) as [-> Ha]. split; [reflexivity|].
      unfold has_char in *. cbn [existsb]. rewrite Ha.
      apply N.eqb_neq in Hne. rewrite N.eqb_sym, Hne. reflexivity.
Qed.

Lemma split_once_none (sep : N) (s a : str) :
  split_once sep s = (a, None) -> a = s /\ has_char sep s = false.
Proof.
  revert a. induction s as [|c s IH]; intros a.
  - cbn [split_once]. intros E. injection E as <-. split; reflexivity.
  - cbn [split_once]. destruct (N.eqb_spec c sep) as [->|Hne]; [discriminate|].
    destruct (split_once sep s) as [a' b'] eqn:Es.
    intros E. injection E as Ea Eb. subst a b'.
    destruct (IH a' eq_refl) as [-> Ha]. split; [reflexivity|].
    unfold has_char in *. cbn [existsb]. rewrite Ha.
    apply N.eqb_neq in Hne. rewrite N.eqb_sym, Hne. reflexivity.
Qed.

(** The text before the first separator is a prefix. *)
Lemma split_once_prefix (sep : N) (s : str) :
  exists t, s = fst (split_once sep s) ++ t
            /\ (t = [] \/ exists t', t = sep :: t')
            /\ has_char sep (fst (split_once sep s)) = false.
Proof.
  destruct (split_once sep s) as [a [b|]] eqn:E; cbn [fst].
  - apply split_once_some in E as [-> Ha]. exists (sep :: b).
    split; [reflexivity|]. split; [right; eexists; reflexivity | exact Ha].
  - apply split_once_none in E as [-> Ha]. exists [].
    split; [rewrite app_nil_r; reflexivity|]. split; [left; reflexivity | exact Ha].
Qed.

Lemma forallb_app_l (p : N -> bool) (a b : str) :
  forallb p (a ++ b) = true -> forallb p a = true.
Proof. rewrite forallb_app. intros H. apply andb_true_iff in H. apply H. Qed.

Lemma forallb_app_r (p : N -> bool) (a b : str) :
  forallb p (a ++ b) = true -> forallb p b = true.
Proof. rewrite forallb_app. intros H. apply andb_true_iff in H. apply H. Qed.

Lemma forallb_cons_r (p : N -> bool) (c : N) (b : str) :
  forallb p (c :: b) = true -> forallb p b = true.
Proof. cbn [forallb]. intros H. apply andb_true_iff in H. apply H. Qed.

Lemma has_char_false_forallb (c : N) (s : str) :
  has_char c s = false <-> forallb (fun d => negb (d =? c)) s = true.
Proof.
  unfold has_char. induction s as [|d s IH]; [split; reflexivity|].
  cbn [existsb forallb]. rewrite orb_false_iff, andb_true_iff, IH.
  rewrite (N.eqb_sym c d). destruct (d =? c); cbn [negb]; intuition congruence.
Qed.

Lemma has_char_app_l (c : N) (a b : str) :
  has_char c (a ++ b) = false -> has_char c a = false.
Proof. rewrite has_char_app. intros H. apply orb_false_iff in H. apply H. Qed.

Lemma has_char_app_r (c : N) (a b : str) :
  has_char c (a ++ b) = false -> has_char c b = false.
Proof. rewrite has_char_app. intros H. apply orb_false_iff in H. apply H. Qed.

Lemma has_char_remove (c : N) (s : str) : has_char c (remove_char c s) = false.
Proof.
  unfold has_char, remove_char. induction s as [|d s IH]; [reflexivity|].
  cbn [filter]. destruct (N.eqb_spec d c) as [->|Hne]; cbn [negb]; [exact IH|].
  cbn [existsb]. rewrite IH. apply N.eqb_neq in Hne.
  rewrite N.eqb_sym, Hne. reflexivity.
Qed.

Lemma has_char_remove_other (c d : N) (s : str) :
  has_char c s = false -> has_char c (remove_char d s) = false.
Proof.
  unfold has_char, remove_char. induction s as [|e s IH]; [reflexivity|].
  cbn [existsb filter]. intros H. apply orb_false_iff in H as [He Hs].
  destruct (negb (e =? d)); [|exact (IH Hs)].
  cbn [existsb]. rewrite He, (IH Hs). reflexivity.
Qed.

Lemma remove_char_absent (c : N) (s : str) :
  has_char c s = false -> remove_char c s = s.
Proof.
  unfold has_char, remove_char. induction s as [|d s IH]; [reflexivity|].
  cbn [existsb filter]. intros H. apply orb_false_iff in H as [Hd Hs].
  rewrite N.eqb_sym, Hd. cbn [negb]. rewrite IH by assumption. reflexivity.
Qed.

Lemma clean_char_spec (s : str) :
  forallb clean_char s = true
  <-> has_char 9 s = false /\ has_char 10 s = false /\ has_char 13 s = false.
Proof.
  unfold has_char. induction s as [|c s IH]; [cbn; tauto|].
  cbn [forallb existsb]. rewrite andb_true_iff, IH, !orb_false_iff.
  unfold clean_char. rewrite (N.eqb_sym 9 c), (N.eqb_sym 10 c), (N.eqb_sym 13 c).
  destruct (c =? 9), (c =? 10), (c =? 13); cbn [negb orb]; intuition congruence.
Qed.

(** ** The cleaned URL *)

Lemma clean_url_clean (url : str) : forallb clean_char (clean_url url) = true.
Proof.
  apply clean_char_spec. unfold clean_url. repeat split.
  - do 2 apply has_char_remove_other. apply has_char_remove.
  - apply has_char_remove.
  - apply has_char_remove_other. apply has_char_remove.
Qed.

Lemma remove_char_head (a x : N) (s : str) :
  x <> a -> remove_char a (x :: s) = x :: remove_char a s.
Proof.
  intros H. unfold remove_char. cbn [filter].
  apply N.eqb_neq in H. rewrite H. reflexivity.
Qed.

Lemma clean_url_head (url : str) :
  clean_url url = []
  \/ exists x tl, clean_url url = x :: tl /\ c0_control_or_space x = false.
Proof.
  unfold clean_url, lstrip_with.
  destruct (drop_while c0_control_or_space url) as [|x tl] eqn:E.
  - left. reflexivity.
  - right. pose proof (drop_while_head _ _ _ _ E) as Hx.
    assert (x <> 9 /\ x <> 10 /\ x <> 13) as (H9 & H10 & H13).
    { unfold c0_control_or_space in Hx. apply N.leb_gt in Hx. lia. }
    rewrite (remove_char_head 9), (remove_char_head 13), (remove_char_head 10)
      by assumption.
    eexists _, _. split; [reflexivity | exact Hx].
Qed.

(** A string that is clean and does not start with a control character or
    a space is left as it is. *)
Lemma clean_url_id (s : str) :
  forallb clean_char s = true ->
  (s = [] \/ exists x tl, s = x :: tl /\ c0_control_or_space x = false) ->
  clean_url s = s.
Proof.
  intros Hc Hh. apply clean_char_spec in Hc as (H9 & H10 & H13).
  unfold clean_url, lstrip_with.
  assert (E : drop_while c0_control_or_space s = s).
  { destruct Hh as [-> | (x & tl & -> & Hx)]; [reflexivity|].
    cbn [drop_while]. rewrite Hx. reflexivity. }
  rewrite E. rewrite (remove_char_absent 9), (remove_char_absent 13),
    (remove_char_absent 10) by assumption.
  reflexivity.
Qed.

(** ** The scheme *)

Lemma scheme_char_bound (c : N) : scheme_char c = true -> 43 <= c <= 122.
Proof.
  unfold scheme_char, is_alpha_ascii, is_upper_ascii, is_lower_ascii,
    is_digit, in_range.
  cmp_all; intros ?; try discriminate; lia.
Qed.

Lemma lower_cp_scheme (c : N) :
  scheme_char c = true ->
  exists c', lower_cp c = [c'] /\ scheme_char c' = true
             /\ (is_alpha_ascii c = true -> is_alpha_ascii c' = true).
Proof.
  intros H. pose proof (scheme_char_bound c H) as B.
  destruct (is_upper_ascii c) eqn:U.
  - exists (c + 32). unfold lower_cp. rewrite U. split; [reflexivity|].
    revert U. unfold scheme_char, is_alpha_ascii, is_upper_ascii, is_lower_ascii,
      is_digit, in_range.
    cmp_all; intros ?; try discriminate; (split; [|intros ?]);
      try reflexivity; try discriminate.
  - exists c. split; [|split; [exact H | tauto]].
    unfold lower_cp. rewrite U. unfold in_range. cmp_all; reflexivity.
Qed.

Lemma lower_scheme (l : str) :
  forallb scheme_char l = true ->
  forallb scheme_char (lower l) = true
  /\ (forall c0 pre, l = c0 :: pre -> is_alpha_ascii c0 = true ->
      exists c0' pre', lower l = c0' :: pre' /\ is_alpha_ascii c0' = true).
Proof.
  induction l as [|c l IH]; intros H.
  - split; [reflexivity|]. intros ? ? E. discriminate E.
  - cbn [forallb] in H. apply andb_true_iff in H as [Hc Hl].
    destruct (lower_cp_scheme c Hc) as (c' & E & Hs & Ha).
    destruct (IH Hl) as [IH1 _].
    unfold lower. cbn [flat_map]. rewrite E. cbn [app]. fold (lower l). split.
    + cbn [forallb]. rewrite Hs, IH1. reflexivity.
    + intros c0 pre Heq Halpha. injection Heq as <- <-.
      exists c', (lower l). split; [reflexivity | exact (Ha Halpha)].
Qed.

Lemma scheme_char_not_colon (s : str) :
  forallb scheme_char s = true -> has_char 58 s = false.
Proof. intros H. eapply has_char_forallb; [exact H | reflexivity]. Qed.

Lemma scheme_char_clean (s : str) :
  forallb scheme_char s = true -> forallb clean_char s = true.
Proof.
  induction s as [|c s IH]; [reflexivity|]. cbn [forallb]. intros H.
  apply andb_true_iff in H as [Hc Hs]. rewrite IH by assumption.
  rewrite andb_true_r. revert Hc.
  unfold scheme_char, clean_char, is_alpha_ascii, is_upper_ascii, is_lower_ascii,
    is_digit, in_range.
  destruct (N.eqb_spec c 9) as [->|]; [discriminate|].
  destruct (N.eqb_spec c 10) as [->|]; [discriminate|].
  destruct (N.eqb_spec c 13) as [->|]; [discriminate|]. reflexivity.
Qed.

Lemma alpha_not_c0 (c : N) :
  is_alpha_ascii c = true -> c0_control_or_space c = false.
Proof.
  unfold is_alpha_ascii, is_upper_ascii, is_lower_ascii, in_range,
    c0_control_or_space.
  cmp_all; intros H; try discriminate H; reflexivity.
Qed.

Lemma take_scheme_cases (c : str) :
  take_scheme c = ([], c)
  \/ exists pre rest,
       c = pre ++ 58 :: rest /\ take_scheme c = (lower pre, rest)
       /\ lower pre <> [] /\ scheme_wf (lower pre).
Proof.
  unfold take_scheme. destruct (split_once 58 c) as [a [b|]] eqn:E;
    [|left; destruct a; reflexivity].
  destruct a as [|c0 pre]; [left; reflexivity|].
  destruct (is_alpha_ascii c0 && forallb scheme_char (c0 :: pre)) eqn:V;
    [|left; reflexivity].
  right. apply andb_true_iff in V as [Ha Hs].
  apply split_once_some in E as [-> _].
  destruct (lower_scheme (c0 :: pre) Hs) as [L1 L2].
  destruct (L2 c0 pre eq_refl Ha) as (c0' & pre' & EL & Ha').
  exists (c0 :: pre), b. repeat split.
  - rewrite EL. discriminate.
  - right. exists c0', pre'. rewrite lower_idem. repeat split; assumption.
Qed.

(** A scheme followed by a colon is read back. *)
Lemma take_scheme_rebuild (s X : str) :
  scheme_wf s -> s <> [] -> take_scheme (s ++ 58 :: X) = (s, X).
Proof.
  intros [-> | (c0 & pre & E & Ha & Hs & Hl)] Hne; [congruence|].
  unfold take_scheme.
  rewrite split_once_app by (apply scheme_char_not_colon; exact Hs).
  rewrite E in *. rewrite Ha, Hs. cbn [andb]. rewrite Hl. reflexivity.
Qed.

Lemma take_scheme_not_alpha (s : str) :
  (s = [] \/ exists x tl, s = x :: tl /\ is_alpha_ascii x = false) ->
  take_scheme s = ([], s).
Proof.
  intros [-> | (x & tl & -> & Hx)]; [reflexivity|].
  unfold take_scheme. cbn [split_once]. destruct (x =? 58); [reflexivity|].
  destruct (split_once 58 tl) as [a [b|]]; [|reflexivity].
  rewrite Hx. reflexivity.
Qed.

Lemma split_once_app_some (sep : N) (P Z a b : str) :
  split_once sep P = (a, Some b) ->
  split_once sep (P ++ Z) = (a, Some (b ++ Z)).
Proof.
  intros E. apply split_once_some in E as [-> Ha].
  rewrite <- app_assoc. cbn [app]. apply split_once_app. exact Ha.
Qed.

Lemma split_once_app_none (sep : N) (P Z : str) :
  has_char sep P = false ->
  split_once sep (P ++ Z)
  = (P ++ fst (split_once sep Z), snd (split_once sep Z)).
Proof.
  unfold has_char. induction P as [|c P IH]; intros H.
  - cbn [app]. destruct (split_once sep Z); reflexivity.
  - cbn [existsb] in H. apply orb_false_iff in H as [Hc HP].
    app_cons. cbn [split_once]. rewrite N.eqb_sym, Hc, (IH HP). reflexivity.
Qed.

Lemma has_char_split_once (sep : N) (P : str) :
  has_char sep P = true -> exists a b, split_once sep P = (a, Some b).
Proof.
  intros H. destruct (split_once sep P) as [a [b|]] eqn:E.
  - eexists _, _. reflexivity.
  - apply split_once_none in E as [_ E]. congruence.
Qed.

Lemma lower_not_nil (s : str) : s <> [] -> lower s <> [].
Proof.
  destruct s as [|c s]; [congruence|]. intros _. unfold lower. cbn [flat_map].
  unfold lower_cp.
  repeat match goal with |- context [if ?b then _ else _] => destruct b end;
    discriminate.
Qed.

(** Whether a text with a colon in [P] starts with a scheme depends on [P]
    only. *)
Lemma take_scheme_prefix (P T Y : str) :
  has_char 58 P = true ->
  take_scheme (P ++ T) = ([], P ++ T) ->
  take_scheme (P ++ Y) = ([], P ++ Y).
Proof.
  intros H. destruct (has_char_split_once 58 P H) as (a & b & E).
  unfold take_scheme.
  rewrite (split_once_app_some 58 P T a b E), (split_once_app_some 58 P Y a b E).
  destruct a as [|c0 pre]; [reflexivity|].
  destruct (is_alpha_ascii c0 && forallb scheme_char (c0 :: pre)); [|reflexivity].
  intros F. exfalso. apply (lower_not_nil (c0 :: pre)); [discriminate|].
  congruence.
Qed.

(** A text whose first colon comes after a question mark has no
    scheme. *)
Lemma take_scheme_question (P Y : str) :
  has_char 58 P = false -> take_scheme (P ++ 63 :: Y) = ([], P ++ 63 :: Y).
Proof.
  intros H. unfold take_scheme. rewrite (split_once_app_none 58 P _ H).
  cbn [split_once]. change (63 =? 58) with false. cbv iota.
  destruct (split_once 58 Y) as [a' ob]. cbn [fst snd].
  destruct ob as [b|]; [|destruct (P ++ 63 :: a'); reflexivity].
  destruct (P ++ 63 :: a') as [|c0 pre] eqn:E; [reflexivity|].
  assert (F : forallb scheme_char (c0 :: pre) = false).
  { rewrite <- E, forallb_app. cbn [forallb].
    change (scheme_char 63) with false. rewrite andb_false_r. reflexivity. }
  rewrite F, andb_false_r. reflexivity.
Qed.

(** ** [urlsplit], step by step *)

Lemma cut_eq (sep : N) (s : str) :
  (if has_char sep s
   then match split_once sep s with
        | (u, Some f) => (u, f)
        | (u, None) => (u, [])
        end
   else (s, []))
  = (fst (split_once sep s), after_sep sep s).
Proof.
  unfold after_sep. destruct (has_char sep s) eqn:H.
  - destruct (split_once sep s) as [u [f|]]; reflexivity.
  - rewrite (split_once_plain sep s H). reflexivity.
Qed.

Section UrlsplitFacts.

Variable bracketed_netloc_ok : str -> bool.
Variable nfkc_netloc_ok : str -> bool.

Local Abbreviation urlsplit' := (urlsplit bracketed_netloc_ok nfkc_netloc_ok).
Local Abbreviation urlparse' := (urlparse bracketed_netloc_ok nfkc_netloc_ok).
Local Abbreviation accepted := (netloc_accepted bracketed_netloc_ok nfkc_netloc_ok).
Local Abbreviation components_wf' :=
  (components_wf bracketed_netloc_ok nfkc_netloc_ok).

Lemma urlsplit_eq (url : str) :
  urlsplit' url =
  let c := clean_url url in
  let s := fst (take_scheme c) in
  let r1 := snd (take_scheme c) in
  if startswith (str_of "//") r1 then
    let n := fst (splitnetloc r1) in
    let r2 := snd (splitnetloc r1) in
    if accepted n
    then Ok (mkSplit s n (tail_path r2) (tail_query r2) (tail_fragment r2))
    else Raise ValueError
  else Ok (mkSplit s [] (tail_path r1) (tail_query r1) (tail_fragment r1)).
Proof.
  unfold urlsplit.
  change (remove_char 10 (remove_char 13 (remove_char 9
            (lstrip_with c0_control_or_space url)))) with (clean_url url).
  cbv zeta. destruct (take_scheme (clean_url url)) as [s r1]. cbn [fst snd].
  destruct (startswith (str_of "//") r1).
  - unfold splitnetloc. cbn [fst snd].
    set (n := take_while (fun c => negb (netloc_delim c)) (skipn 2 r1)).
    set (r2 := drop_while (fun c => negb (netloc_delim c)) (skipn 2 r1)).
    unfold netloc_accepted, tail_path, tail_query, tail_fragment.
    destruct (has_char 91 n), (has_char 93 n); cbn [andb orb negb bind];
      try reflexivity.
    + destruct (bracketed_netloc_ok n); cbn [andb orb negb bind];
        [|reflexivity].
      rewrite !cut_eq.
      destruct n as [|n0 n']; [reflexivity|].
      destruct (forallb is_ascii (n0 :: n')), (nfkc_netloc_ok (n0 :: n'));
        reflexivity.
    + rewrite !cut_eq.
      destruct n as [|n0 n']; [reflexivity|].
      destruct (forallb is_ascii (n0 :: n')), (nfkc_netloc_ok (n0 :: n'));
        reflexivity.
  - cbn [bind]. rewrite !cut_eq.
    unfold tail_path, tail_query, tail_fragment. reflexivity.
Qed.

Lemma tail_path_prefix (r : str) :
  exists t, r = tail_path r ++ t
            /\ has_char 35 (tail_path r) = false
            /\ has_char 63 (tail_path r) = false.
Proof.
  unfold tail_path.
  destruct (split_once_prefix 35 r) as (t1 & E1 & _ & H1).
  destruct (split_once_prefix 63 (fst (split_once 35 r))) as (t2 & E2 & _ & H2).
  exists (t2 ++ t1). split; [|split].
  - rewrite app_assoc, <- E2. exact E1.
  - rewrite E2 in H1. eapply has_char_app_l. exact H1.
  - exact H2.
Qed.

Lemma after_sep_forallb (p : N -> bool) (sep : N) (s : str) :
  forallb p s = true -> forallb p (after_sep sep s) = true.
Proof.
  unfold after_sep. destruct (split_once sep s) as [a [b|]] eqn:E;
    [|reflexivity].
  apply split_once_some in E as [-> _]. cbn [snd]. intros H.
  apply forallb_app_r in H. eapply forallb_cons_r. exact H.
Qed.

Lemma take_while_forallb (p q : N -> bool) (s : str) :
  forallb p s = true -> forallb p (take_while q s) = true.
Proof.
  intros H. rewrite <- (take_drop_while q s) in H.
  eapply forallb_app_l. exact H.
Qed.

Lemma drop_while_forallb (p q : N -> bool) (s : str) :
  forallb p s = true -> forallb p (drop_while q s) = true.
Proof.
  intros H. rewrite <- (take_drop_while q s) in H.
  eapply forallb_app_r. exact H.
Qed.

Lemma startswith_slashes (r : str) :
  startswith (str_of "//") r = true -> exists t, r = 47 :: 47 :: t.
Proof.
  destruct r as [|a [|b t]]; cbn [str_of startswith]; try discriminate.
  - rewrite andb_false_r. discriminate.
  - change (N_of_ascii "/") with 47. intros H.
    apply andb_true_iff in H as [Ha H]. apply andb_true_iff in H as [Hb _].
    apply N.eqb_eq in Ha, Hb. subst. exists t. reflexivity.
Qed.

Lemma accepted_nil : accepted [] = true.
Proof. reflexivity. Qed.

Lemma not_alpha_47 : is_alpha_ascii 47 = false.
Proof. reflexivity. Qed.

Lemma not_alpha_63 : is_alpha_ascii 63 = false.
Proof. reflexivity. Qed.

Lemma tail_clean (r : str) :
  forallb clean_char r = true ->
  forallb clean_char (tail_path r) = true
  /\ forallb clean_char (tail_fragment r) = true.
Proof.
  intros H. split.
  - destruct (tail_path_prefix r) as (t & E & _). rewrite E in H.
    eapply forallb_app_l. exact H.
  - unfold tail_fragment. apply after_sep_forallb. exact H.
Qed.

(** After a network location the path is empty or starts with a slash. *)
Lemma tail_path_after_netloc (after : str) :
  let r2 := drop_while no_delim after in
  tail_path r2 = [] \/ exists t, tail_path r2 = 47 :: t.
Proof.
  intros r2. destruct (tail_path_prefix r2) as (t & E & H35 & H63).
  destruct (tail_path r2) as [|p0 p] eqn:Ep; [left; reflexivity|].
  right. exists p. f_equal.
  assert (Hd : no_delim p0 = false).
  { apply (drop_while_head no_delim after p0 (p ++ t)). exact E. }
  unfold has_char in H35, H63. cbn [existsb] in H35, H63.
  apply orb_false_iff in H35 as [H35 _]. apply orb_false_iff in H63 as [H63 _].
  unfold no_delim, netloc_delim in Hd. rewrite (N.eqb_sym p0 63), H63 in Hd.
  rewrite (N.eqb_sym p0 35), H35 in Hd. rewrite !orb_false_r in Hd.
  apply negb_false_iff in Hd. apply N.eqb_eq in Hd. exact Hd.
Qed.

Lemma take_scheme_abs (P Y : str) :
  (P = [] \/ exists t, P = 47 :: t) ->
  take_scheme (P ++ 63 :: Y) = ([], P ++ 63 :: Y).
Proof.
  intros H. apply take_scheme_not_alpha. right.
  destruct H as [-> | (t & ->)]; eexists _, _; split; reflexivity.
Qed.

Lemma urlsplit_wf (url : str) (r : SplitResult) :
  urlsplit' url = Ok r ->
  components_wf' (split_scheme r) (split_netloc r) (split_path r)
                (split_fragment r).
Proof.
  rewrite urlsplit_eq. cbv zeta.
  pose proof (clean_url_clean url) as Hclean.
  pose proof (clean_url_head url) as Hhead.
  set (c := clean_url url) in *. clearbody c.
  destruct (take_scheme_cases c) as [E | (pre & rest & Ec & E & Hne & Hwf)];
    rewrite E; cbn [fst snd].
  - (* no scheme *)
    destruct (startswith (str_of "//") c) eqn:Hs.
    + destruct (startswith_slashes c Hs) as [after Ea].
      unfold splitnetloc. cbn [fst snd]. rewrite Ea. cbn [skipn].
      change (fun c => negb (netloc_delim c)) with no_delim.
      assert (Hafter : forallb clean_char after = true).
      { rewrite Ea in Hclean. do 2 apply forallb_cons_r in Hclean. exact Hclean. }
      destruct (accepted (take_while no_delim after)) eqn:Hacc; [|discriminate].
      intros H. apply Ok_inj in H. subst r.
      cbn [split_scheme split_netloc split_path split_fragment].
      pose proof (tail_path_after_netloc after) as Habs. cbv zeta in Habs.
      destruct (tail_path_prefix (drop_while no_delim after)) as (t & _ & H35 & H63).
      destruct (tail_clean (drop_while no_delim after)
                  (drop_while_forallb _ _ _ Hafter)) as [C1 C2].
      repeat split; try assumption.
      * left; reflexivity.
      * apply take_while_all.
      * intros _. exact Habs.
      * apply take_while_forallb. exact Hafter.
      * intros _ p0 t0 Ep. destruct Habs as [Habs | (t' & Habs)];
          rewrite Habs in Ep; [discriminate|]. injection Ep as <- _. reflexivity.
      * intros _ Y. apply take_scheme_abs. exact Habs.
    + intros H. apply Ok_inj in H. subst r.
      cbn [split_scheme split_netloc split_path split_fragment].
      destruct (tail_path_prefix c) as (t & Et & H35 & H63).
      destruct (tail_clean c Hclean) as [C1 C2].
      repeat split; try assumption; try reflexivity.
      * left; reflexivity.
      * intros F. congruence.
      * intros _ p0 t0 Ep. rewrite Ep in Et.
        destruct Hhead as [Hc | (x & tl & Hc & Hx)]; rewrite Hc in Et;
          [discriminate|]. injection Et as -> _. exact Hx.
      * intros _ Y. destruct (has_char 58 (tail_path c)) eqn:H58.
        -- apply (take_scheme_prefix (tail_path c) t); [exact H58|].
           rewrite <- Et. exact E.
        -- apply take_scheme_question. exact H58.
  - (* a scheme *)
    assert (Hrest : forallb clean_char rest = true).
    { rewrite Ec in Hclean. apply forallb_app_r in Hclean.
      eapply forallb_cons_r. exact Hclean. }
    assert (Hsc : forallb clean_char (lower pre) = true).
    { destruct Hwf as [F | (c0 & pre' & _ & _ & Hs & _)]; [congruence|].
      apply scheme_char_clean. exact Hs. }
    destruct (startswith (str_of "//") rest) eqn:Hs.
    + destruct (startswith_slashes rest Hs) as [after Ea].
      unfold splitnetloc. cbn [fst snd]. rewrite Ea. cbn [skipn].
      change (fun c => negb (netloc_delim c)) with no_delim.
      assert (Hafter : forallb clean_char after = true).
      { rewrite Ea in Hrest. do 2 apply forallb_cons_r in Hrest. exact Hrest. }
      destruct (accepted (take_while no_delim after)) eqn:Hacc; [|discriminate].
      intros H. apply Ok_inj in H. subst r.
      cbn [split_scheme split_netloc split_path split_fragment].
      pose proof (tail_path_after_netloc after) as Habs. cbv zeta in Habs.
      destruct (tail_path_prefix (drop_while no_delim after)) as (t & _ & H35 & H63).
      destruct (tail_clean (drop_while no_delim after)
                  (drop_while_forallb _ _ _ Hafter)) as [C1 C2].
      repeat split; try assumption; try congruence.
      * apply take_while_all.
      * apply take_while_forallb. exact Hafter.
    + intros H. apply Ok_inj in H. subst r.
      cbn [split_scheme split_netloc split_path split_fragment].
      destruct (tail_path_prefix rest) as (t & Et & H35 & H63).
      destruct (tail_clean rest Hrest) as [C1 C2].
      repeat split; try assumption; try reflexivity; try congruence.
Qed.

(** The guarantees pass to a prefix of the path. *)
Lemma components_wf_prefix (s n P e f : str) :
  components_wf' s n (P ++ e) f -> components_wf' s n P f.
Proof.
  intros (H1 & H2 & H3 & H4 & H5 & H6 & H7 & H8 & H9 & H10 & H11 & H12).
  repeat split; try assumption.
  - eapply has_char_app_l. exact H4.
  - eapply has_char_app_l. exact H5.
  - intros Hn. destruct (H6 Hn) as [F | (t & F)].
    + apply app_eq_nil in F as [-> _]. left; reflexivity.
    + destruct P as [|p0 P]; [left; reflexivity|]. right.
      cbn [app] in F. injection F as -> _. exists P. reflexivity.
  - eapply forallb_app_l. exact H9.
  - intros Hs p0 t E. apply (H11 Hs p0 (t ++ e)). rewrite E. reflexivity.
  - intros Hs Y. destruct (has_char 58 P) eqn:H58.
    + apply (take_scheme_prefix P (e ++ 63 :: Y)); [exact H58|].
      rewrite app_assoc. apply H12. exact Hs.
    + apply take_scheme_question. exact H58.
Qed.

(** ** Joining and splitting again *)

Lemma take_drop_while_stop (p : N -> bool) (n R : str) :
  forallb p n = true ->
  (R = [] \/ exists d t, R = d :: t /\ p d = false) ->
  take_while p (n ++ R) = n /\ drop_while p (n ++ R) = R.
Proof.
  intros Hn HR. induction n as [|c n IH].
  - cbn [app]. destruct HR as [-> | (d & t & -> & Hd)]; [split; reflexivity|].
    cbn [take_while drop_while]. rewrite Hd. split; reflexivity.
  - cbn [forallb] in Hn. apply andb_true_iff in Hn as [Hc Hn].
    destruct (IH Hn) as [I1 I2]. app_cons. cbn [take_while drop_while].
    rewrite Hc, I1, I2. split; reflexivity.
Qed.

Lemma splitnetloc_of_parts (n R : str) :
  forallb no_delim n = true ->
  (R = [] \/ exists d t, R = d :: t /\ no_delim d = false) ->
  splitnetloc (47 :: 47 :: n ++ R) = (n, R).
Proof.
  intros Hn HR. unfold splitnetloc. cbn [skipn].
  change (fun c => negb (netloc_delim c)) with no_delim.
  destruct (take_drop_while_stop no_delim n R Hn HR) as [-> ->]. reflexivity.
Qed.

Lemma query_char_no_hash (q : str) :
  forallb query_char q = true -> has_char 35 q = false.
Proof. intros H. eapply has_char_forallb; [exact H | reflexivity]. Qed.

Lemma query_char_clean (q : str) :
  forallb query_char q = true -> forallb clean_char q = true.
Proof.
  induction q as [|c q IH]; [reflexivity|]. cbn [forallb]. intros H.
  apply andb_true_iff in H as [Hc Hq]. rewrite IH by assumption.
  rewrite andb_true_r. revert Hc. unfold query_char, clean_char.
  destruct (c =? 35), (c =? 9), (c =? 10), (c =? 13); cbn; congruence.
Qed.

Lemma tail_of_parts (P q f : str) :
  has_char 35 P = false -> has_char 63 P = false -> has_char 35 q = false ->
  tail_path (P ++ unsplit_tail q f) = P
  /\ tail_query (P ++ unsplit_tail q f) = q
  /\ tail_fragment (P ++ unsplit_tail q f) = f.
Proof.
  intros H35 H63 Hq. unfold tail_path, tail_query, tail_fragment, after_sep,
    unsplit_tail.
  assert (Hpq : has_char 35 (P ++ 63 :: q) = false).
  { rewrite has_char_app, H35. unfold has_char at 1. cbn [existsb orb].
    exact Hq. }
  destruct f as [|f0 f].
  - rewrite app_nil_r. rewrite (split_once_plain 35 _ Hpq). cbn [fst snd].
    rewrite (split_once_app 63 P q H63). cbn [fst snd]. repeat split.
  - replace (P ++ 63 :: q ++ 35 :: f0 :: f) with ((P ++ 63 :: q) ++ 35 :: f0 :: f)
      by (rewrite <- app_assoc; reflexivity).
    rewrite (split_once_app 35 _ (f0 :: f) Hpq). cbn [fst snd].
    rewrite (split_once_app 63 P q H63). cbn [fst snd]. repeat split.
Qed.

Lemma startswith_slashes_app (P Y : str) :
  startswith (str_of "//") P = false ->
  startswith (str_of "//") (P ++ 63 :: Y) = false.
Proof.
  destruct P as [|a [|b P]]; cbn [str_of app startswith]; try reflexivity.
  - intros _. change (N_of_ascii "/") with 47. change (47 =? 63) with false.
    rewrite andb_false_r. reflexivity.
  - intros H. exact H.
Qed.

(** The shape of the text written by [urlunsplit] for a non-empty query:
    the scheme, then two slashes and the network location before an empty
    or absolute path, or the path alone, then the query and the
    fragment. *)
Lemma urlunsplit_shape (s n P q f : str) :
  q <> [] -> (n <> [] -> P = [] \/ exists t, P = 47 :: t) ->
  exists X,
    urlunsplit s n P q f
    = match s with _ :: _ => s ++ 58 :: X ++ unsplit_tail q f
                 | [] => X ++ unsplit_tail q f end
    /\ ((X = 47 :: 47 :: n ++ P /\ (P = [] \/ exists t, P = 47 :: t))
        \/ (X = P /\ n = [] /\ startswith (str_of "//") P = false)).
Proof.
  intros Hq Habs. unfold urlunsplit. cbv zeta.
  set (X := match n with
            | [] => _
            | _ :: _ => _
            end).
  exists X. split.
  - unfold unsplit_tail. destruct q as [|q0 q]; [congruence|].
    destruct s as [|s0 s], f as [|f0 f]; rewrite ?app_nil_r;
      repeat (rewrite <- ?app_assoc; cbn [app]); reflexivity.
  - subst X. destruct n as [|n0 n].
    + destruct (startswith (str_of "//") P) eqn:Hs.
      * left. destruct (startswith_slashes P Hs) as [t ->]. split; [reflexivity|].
        right. eexists. reflexivity.
      * destruct s as [|s0 s]; [right; repeat split; assumption|].
        destruct (str_in (s0 :: s) uses_netloc); cbn [andb];
          [|right; repeat split; assumption].
        destruct P as [|p0 P].
        -- left. split; [reflexivity | left; reflexivity].
        -- destruct (N.eqb_spec p0 47) as [->|Hne].
           ++ left. split; [reflexivity | right; eexists; reflexivity].
           ++ right. repeat split; assumption.
    + left. destruct (Habs ltac:(discriminate)) as [-> | (t & ->)].
      * split; [reflexivity | left; reflexivity].
      * cbn [N.eqb Pos.eqb]. split; [reflexivity | right; eexists; reflexivity].
Qed.

Lemma unsplit_tail_clean (q f : str) :
  forallb query_char q = true -> forallb clean_char f = true ->
  forallb clean_char (unsplit_tail q f) = true.
Proof.
  intros Hq Hf. unfold unsplit_tail. cbn [forallb]. rewrite forallb_app.
  rewrite (query_char_clean q Hq). destruct f as [|f0 f]; [reflexivity|].
  cbn [forallb] in *. rewrite Hf. reflexivity.
Qed.

(** [urlsplit] reads back what [urlunsplit] wrote from well-formed
    components and a non-empty query without fragment sign, tab or line
    break. *)
Lemma urlsplit_urlunsplit (s n P q f : str) :
  components_wf' s n P f -> forallb query_char q = true -> q <> [] ->
  urlsplit' (urlunsplit s n P q f) = Ok (mkSplit s n P q f).
Proof.
  intros (Hs & Hn & Hacc & H35 & H63 & Habs & Cs & Cn & CP & Cf & Hhead & Htake)
    Hq Hqne.
  destruct (urlunsplit_shape s n P q f Hqne Habs) as (X & -> & HX).
  pose proof (unsplit_tail_clean q f Hq Cf) as CT.
  set (T := unsplit_tail q f) in *.
  assert (CX : forallb clean_char X = true).
  { destruct HX as [[-> _] | [-> _]]; [|exact CP].
    cbn [forallb]. rewrite forallb_app, Cn, CP. reflexivity. }
  assert (Hrest : (if startswith (str_of "//") (X ++ T)
                   then if accepted (fst (splitnetloc (X ++ T)))
                        then Ok (mkSplit s (fst (splitnetloc (X ++ T)))
                                   (tail_path (snd (splitnetloc (X ++ T))))
                                   (tail_query (snd (splitnetloc (X ++ T))))
                                   (tail_fragment (snd (splitnetloc (X ++ T)))))
                        else Raise ValueError
                   else Ok (mkSplit s [] (tail_path (X ++ T))
                              (tail_query (X ++ T)) (tail_fragment (X ++ T))))
                  = Ok (mkSplit s n P q f)).
  { destruct (tail_of_parts P q f H35 H63 (query_char_no_hash q Hq))
      as (T1 & T2 & T3). fold T in T1, T2, T3.
    destruct HX as [[-> HP] | (-> & -> & Hss)].
    - change ((47 :: 47 :: n ++ P) ++ T) with (47 :: 47 :: (n ++ P) ++ T).
      rewrite <- app_assoc.
      change (startswith (str_of "//") (47 :: 47 :: n ++ P ++ T)) with true.
      cbv iota. rewrite splitnetloc_of_parts.
      + cbn [fst snd]. rewrite Hacc, T1, T2, T3. reflexivity.
      + exact Hn.
      + right. destruct HP as [-> | (t & ->)]; eexists _, _;
          (split; [reflexivity|]); reflexivity.
    - assert (E : startswith (str_of "//") (P ++ T) = false)
        by (apply startswith_slashes_app; exact Hss).
      rewrite E, T1, T2, T3. reflexivity. }
  rewrite urlsplit_eq. cbv zeta.
  destruct s as [|s0 s'].
  - (* no scheme *)
    assert (Hcl : clean_url (X ++ T) = X ++ T).
    { apply clean_url_id; [rewrite forallb_app, CX, CT; reflexivity|].
      right. destruct HX as [[-> _] | (-> & _ & _)].
      - eexists _, _. split; reflexivity.
      - destruct P as [|p0 P'].
        + eexists _, _. split; reflexivity.
        + eexists _, _. split; [reflexivity|]. eapply Hhead; reflexivity. }
    assert (Hts : take_scheme (X ++ T) = ([], X ++ T)).
    { destruct HX as [[-> _] | (-> & _ & _)].
      - apply take_scheme_not_alpha. right. eexists _, _. split; reflexivity.
      - apply Htake. reflexivity. }
    rewrite Hcl, Hts. cbn [fst snd]. exact Hrest.
  - (* a scheme *)
    assert (Hs0 : is_alpha_ascii s0 = true).
    { destruct Hs as [F | (c0 & pre & E & Ha & _)]; [discriminate|].
      injection E as -> _. exact Ha. }
    assert (Hcl : clean_url ((s0 :: s') ++ 58 :: X ++ T)
                  = (s0 :: s') ++ 58 :: X ++ T).
    { apply clean_url_id.
      - rewrite forallb_app, Cs. cbn [forallb]. rewrite forallb_app, CX, CT.
        reflexivity.
      - right. eexists _, _. split; [reflexivity|]. apply alpha_not_c0. exact Hs0. }
    rewrite Hcl, (take_scheme_rebuild (s0 :: s') (X ++ T) Hs ltac:(discriminate)).
    cbn [fst snd]. exact Hrest.
Qed.

End UrlsplitFacts.

(** ** Strings of Unicode scalar values *)

Lemma utf8_encode_cp_scalar (c : N) :
  is_scalar c = true <-> exists bs, utf8_encode_cp c = Some bs.
Proof.
  unfold is_scalar, utf8_encode_cp, is_surrogate, in_range. split.
  - cmp_all; intros ?; try discriminate; eexists; reflexivity.
  - intros [bs H]. revert H. cmp_all; intros ?; try discriminate; reflexivity.
Qed.

Lemma utf8_encode_scalar (s : str) :
  forallb is_scalar s = true <-> exists bs, utf8_encode s = Some bs.
Proof.
  induction s as [|c s IH]; cbn [forallb utf8_encode].
  - split; [eexists; reflexivity | reflexivity].
  - rewrite andb_true_iff, IH, utf8_encode_cp_scalar. split.
    + intros [[b ->] [bs ->]]. eexists; reflexivity.
    + intros [bs H]. destruct (utf8_encode_cp c); [|discriminate].
      destruct (utf8_encode s); [|discriminate].
      split; eexists; reflexivity.
Qed.

Lemma utf8_scan_scalar_bounded (n : nat) (bs : bytes) :
  (length bs <= n)%nat -> forallb scanned_ok (utf8_scan bs) = true.
Proof.
  revert bs. induction n as [|n IH]; intros bs Hlen.
  - destruct bs; [reflexivity | cbn [length] in Hlen; lia].
  - destruct bs as [|b1 r1]; [reflexivity|]. cbn [length] in Hlen.
    assert (I1 : forallb scanned_ok (utf8_scan r1) = true) by (apply IH; lia).
    cbn [utf8_scan]. unfold is_cont.
    destruct (N.ltb_spec b1 0x80).
    { cbn [forallb scanned_ok]. rewrite I1, andb_true_r.
      unfold is_scalar, is_surrogate, in_range. cmp_all; reflexivity. }
    destruct (N.ltb_spec b1 0xC2); [exact I1|].
    destruct (N.ltb_spec b1 0xE0).
    { destruct r1 as [|b2 r2]; [reflexivity|].
      destruct (N.leb_spec 0x80 b2); destruct (N.ltb_spec b2 0xC0);
        cbn [andb]; try exact I1.
      cbn [forallb scanned_ok]. cbn [length] in Hlen. rewrite IH by lia.
      rewrite andb_true_r.
      unfold is_scalar, is_surrogate, in_range. cmp_all; reflexivity. }
    destruct (N.ltb_spec b1 0xF0).
    { destruct r1 as [|b2 r2]; [reflexivity|].
      destruct (N.leb_spec 0x80 b2); destruct (N.ltb_spec b2 0xC0);
        cbn [andb negb orb]; try exact I1.
      destruct (N.ltb_spec b2 0xA0).
      - destruct (N.eqb_spec b1 0xE0); [exact I1|].
        destruct r2 as [|b3 r3]; [reflexivity|].
        cbn [length] in Hlen.
        assert (I2 : forallb scanned_ok (utf8_scan (b3 :: r3)) = true)
          by (apply IH; cbn [length]; lia).
        destruct (N.leb_spec 0x80 b3); destruct (N.ltb_spec b3 0xC0);
          cbn [andb]; try exact I2.
        cbn [forallb scanned_ok]. rewrite IH by lia. rewrite andb_true_r.
        unfold is_scalar, is_surrogate, in_range. cmp_all; reflexivity.
      - destruct (N.eqb_spec b1 0xED); [exact I1|].
        destruct r2 as [|b3 r3]; [reflexivity|].
        cbn [length] in Hlen.
        assert (I2 : forallb scanned_ok (utf8_scan (b3 :: r3)) = true)
          by (apply IH; cbn [length]; lia).
        destruct (N.leb_spec 0x80 b3); destruct (N.ltb_spec b3 0xC0);
          cbn [andb]; try exact I2.
        cbn [forallb scanned_ok]. rewrite IH by lia. rewrite andb_true_r.
        unfold is_scalar, is_surrogate, in_range. cmp_all; reflexivity. }
    destruct (N.ltb_spec b1 0xF5); [|exact I1].
    destruct r1 as [|b2 r2]; [reflexivity|].
    destruct (N.leb_spec 0x80 b2); destruct (N.ltb_spec b2 0xC0);
      cbn [andb negb orb]; try exact I1.
    assert (K : forall b3 r3 b4 r4, r2 = b3 :: r3 -> r3 = b4 :: r4 ->
              0x80 <= b3 < 0xC0 -> 0x80 <= b4 < 0xC0 ->
              (b1 = 0xF4 -> b2 < 0x90) -> (b1 = 0xF0 -> 0x90 <= b2) ->
              forallb scanned_ok
                (Some ((b1 - 240) * 262144 + (b2 - 128) * 4096
                       + (b3 - 128) * 64 + (b4 - 128)) :: utf8_scan r4) = true).
    { intros b3 r3 b4 r4 -> -> ? ? ? ?. cbn [forallb scanned_ok].
      cbn [length] in Hlen. rewrite IH by lia. rewrite andb_true_r.
      unfold is_scalar, is_surrogate, in_range. cmp_all; reflexivity. }
    destruct (N.ltb_spec b2 0x90).
    + destruct (N.eqb_spec b1 0xF0); [exact I1|].
      destruct r2 as [|b3 r3]; [reflexivity|]. cbn [length] in Hlen.
      assert (I2 : forallb scanned_ok (utf8_scan (b3 :: r3)) = true)
        by (apply IH; cbn [length]; lia).
      destruct (N.leb_spec 0x80 b3); destruct (N.ltb_spec b3 0xC0);
        cbn [andb negb]; try exact I2.
      destruct r3 as [|b4 r4]; [reflexivity|]. cbn [length] in Hlen.
      assert (I3 : forallb scanned_ok (utf8_scan (b4 :: r4)) = true)
        by (apply IH; cbn [length]; lia).
      destruct (N.leb_spec 0x80 b4); destruct (N.ltb_spec b4 0xC0);
        cbn [andb]; try exact I3.
      apply (K b3 (b4 :: r4) b4 r4); try reflexivity; lia.
    + destruct (N.eqb_spec b1 0xF4); [exact I1|].
      destruct r2 as [|b3 r3]; [reflexivity|]. cbn [length] in Hlen.
      assert (I2 : forallb scanned_ok (utf8_scan (b3 :: r3)) = true)
        by (apply IH; cbn [length]; lia).
      destruct (N.leb_spec 0x80 b3); destruct (N.ltb_spec b3 0xC0);
        cbn [andb negb]; try exact I2.
      destruct r3 as [|b4 r4]; [reflexivity|]. cbn [length] in Hlen.
      assert (I3 : forallb scanned_ok (utf8_scan (b4 :: r4)) = true)
        by (apply IH; cbn [length]; lia).
      destruct (N.leb_spec 0x80 b4); destruct (N.ltb_spec b4 0xC0);
        cbn [andb]; try exact I3.
      apply (K b3 (b4 :: r4) b4 r4); try reflexivity; lia.
Qed.

Lemma utf8_scan_scalar (bs : bytes) : forallb scanned_ok (utf8_scan bs) = true.
Proof. apply (utf8_scan_scalar_bounded (length bs)). lia. Qed.

Lemma decode_replace_scalar (bs : bytes) :
  forallb is_scalar (decode_replace bs) = true.
Proof.
  unfold decode_replace. pose proof (utf8_scan_scalar bs) as H.
  induction (utf8_scan bs) as [|o l IH]; [reflexivity|].
  cbn [forallb map] in *. apply andb_true_iff in H as [Ho Hl].
  rewrite IH by assumption. destruct o; [cbn in Ho; rewrite Ho|]; reflexivity.
Qed.

(** ** What is kept along the way from a URL to its parameters *)

Lemma forallb_filter (p q : N -> bool) (s : str) :
  forallb p s = true -> forallb p (filter q s) = true.
Proof.
  induction s as [|c s IH]; [reflexivity|]. cbn [forallb filter]. intros H.
  apply andb_true_iff in H as [Hc Hs]. destruct (q c); [cbn [forallb]; rewrite Hc|];
    apply IH; exact Hs.
Qed.

Lemma forallb_skipn (p : N -> bool) (n : nat) (s : str) :
  forallb p s = true -> forallb p (skipn n s) = true.
Proof.
  revert s. induction n as [|n IH]; intros s H; [exact H|].
  destruct s as [|c s]; [reflexivity|]. cbn [skipn]. apply IH.
  eapply forallb_cons_r. exact H.
Qed.

Lemma clean_url_forallb (p : N -> bool) (url : str) :
  forallb p url = true -> forallb p (clean_url url) = true.
Proof.
  intros H. unfold clean_url, remove_char, lstrip_with.
  do 3 apply forallb_filter. apply drop_while_forallb. exact H.
Qed.

Lemma split_once_forallb (p : N -> bool) (sep : N) (s : str) :
  forallb p s = true ->
  forallb p (fst (split_once sep s)) = true
  /\ forallb p (after_sep sep s) = true.
Proof.
  intros H. split; [|apply after_sep_forallb; exact H].
  destruct (split_once_prefix sep s) as (t & E & _). rewrite E in H.
  eapply forallb_app_l. exact H.
Qed.

Lemma take_scheme_rest_forallb (p : N -> bool) (c : str) :
  forallb p c = true -> forallb p (snd (take_scheme c)) = true.
Proof.
  intros H. destruct (take_scheme_cases c) as [E | (pre & rest & Ec & E & _)];
    rewrite E; cbn [snd]; [exact H|].
  rewrite Ec in H. apply forallb_app_r in H. eapply forallb_cons_r. exact H.
Qed.

Lemma tail_query_forallb (p : N -> bool) (r : str) :
  forallb p r = true -> forallb p (tail_query r) = true.
Proof.
  intros H. unfold tail_query. apply after_sep_forallb.
  apply (split_once_forallb p 35 r H).
Qed.

Section QueryFacts.

Variable bracketed_netloc_ok : str -> bool.
Variable nfkc_netloc_ok : str -> bool.

Local Abbreviation urlsplit' := (urlsplit bracketed_netloc_ok nfkc_netloc_ok).
Local Abbreviation urlparse' := (urlparse bracketed_netloc_ok nfkc_netloc_ok).

Lemma urlsplit_query_forallb (p : N -> bool) (url : str) (r : SplitResult) :
  urlsplit' url = Ok r -> forallb p url = true ->
  forallb p (split_query r) = true.
Proof.
  rewrite urlsplit_eq. cbv zeta. intros H Hp.
  pose proof (take_scheme_rest_forallb p _ (clean_url_forallb p url Hp)) as Hr1.
  revert H.
  destruct (startswith (str_of "//") (snd (take_scheme (clean_url url)))).
  - match goal with
    | |- context [netloc_accepted ?a ?b ?c] => destruct (netloc_accepted a b c)
    end; [|discriminate].
    intros H. apply Ok_inj in H. subst r. cbn [split_query].
    apply tail_query_forallb. unfold splitnetloc. cbn [snd].
    apply drop_while_forallb. apply forallb_skipn. exact Hr1.
  - intros H. apply Ok_inj in H. subst r. cbn [split_query].
    apply tail_query_forallb. exact Hr1.
Qed.

Lemma urlparse_query (url : str) (p : ParseResult) :
  urlparse' url = Ok p ->
  exists r, urlsplit' url = Ok r /\ query p = split_query r
            /\ fragment p = split_fragment r /\ scheme p = split_scheme r
            /\ netloc p = split_netloc r.
Proof.
  unfold urlparse. destruct (urlsplit' url) as [r|e]; [|discriminate].
  cbn [bind].
  match goal with
  | |- context [if ?c then ?x else ?y] => destruct (if c then x else y) as [a b]
  end.
  intros H. apply Ok_inj in H. subst p. exists r. repeat split.
Qed.

Lemma urlparse_raise (url : str) (e : exn) :
  urlparse' url = Raise e <-> urlsplit' url = Raise e.
Proof.
  unfold urlparse. destruct (urlsplit' url) as [r|e']; cbn [bind].
  - match goal with
    | |- context [if ?c then ?x else ?y] => destruct (if c then x else y) as [a b]
    end.
    split; discriminate.
  - split; intros H; injection H as ->; reflexivity.
Qed.

Lemma urlsplit_raise (url : str) (e : exn) :
  urlsplit' url = Raise e -> e = ValueError.
Proof.
  rewrite urlsplit_eq. cbv zeta.
  match goal with
  | |- context [startswith ?a ?b] => destruct (startswith a b)
  end; [|discriminate].
  match goal with
  | |- context [netloc_accepted ?a ?b ?c] => destruct (netloc_accepted a b c)
  end; [discriminate|]. congruence.
Qed.

End QueryFacts.

(** ** Decoding keeps scalar values *)

Lemma unquote_runs_scalar (run s : str) :
  forallb is_scalar s = true -> forallb is_scalar (unquote_runs run s) = true.
Proof.
  revert run. induction s as [|c s IH]; intros run H.
  - cbn [unquote_runs]. apply decode_replace_scalar.
  - cbn [forallb] in H. apply andb_true_iff in H as [Hc Hs].
    cbn [unquote_runs]. destruct (is_ascii c); [apply IH; exact Hs|].
    rewrite forallb_app, decode_replace_scalar. cbn [forallb].
    rewrite Hc, IH by assumption. reflexivity.
Qed.

Lemma unquote_scalar (s : str) :
  forallb is_scalar s = true -> forallb is_scalar (unquote s) = true.
Proof.
  intros H. unfold unquote. destruct (negb (has_char 37 s)); [exact H|].
  apply unquote_runs_scalar. exact H.
Qed.

Lemma replace_char_forallb (p : N -> bool) (a b : N) (s : str) :
  p b = true -> forallb p s = true -> forallb p (replace_char a b s) = true.
Proof.
  intros Hb. unfold replace_char. induction s as [|c s IH]; [reflexivity|].
  cbn [forallb map]. intros H. apply andb_true_iff in H as [Hc Hs].
  rewrite IH by assumption. destruct (c =? a); [rewrite Hb | rewrite Hc];
    reflexivity.
Qed.

Lemma split_forallb (p : N -> bool) (sep : N) (s : str) :
  forallb p s = true -> Forall (fun w => forallb p w = true) (split sep s).
Proof.
  induction s as [|c s IH]; intros H.
  - repeat constructor.
  - cbn [forallb] in H. apply andb_true_iff in H as [Hc Hs].
    specialize (IH Hs). cbn [split]. destruct (c =? sep).
    + constructor; [reflexivity | exact IH].
    + destruct (split sep s) as [|w ws]; [repeat constructor; cbn; rewrite Hc; reflexivity|].
      inversion IH as [|? ? Hw Hws]; subst.
      constructor; [cbn [forallb]; rewrite Hc, Hw; reflexivity | exact Hws].
Qed.

Lemma parse_field_scalar (keep : bool) (f : str) :
  forallb is_scalar f = true -> Forall pair_scalar (parse_field keep f).
Proof.
  intros H. unfold parse_field. destruct f as [|c f]; [constructor|].
  destruct (split_once_forallb is_scalar 61 (c :: f) H) as [H1 H2].
  unfold after_sep in H2.
  assert (S : forall s, forallb is_scalar s = true ->
                forallb is_scalar (unquote (replace_char 43 32 s)) = true).
  { intros s Hs. apply unquote_scalar. apply replace_char_forallb;
      [reflexivity | exact Hs]. }
  destruct (split_once 61 (c :: f)) as [n [v|]]; cbn [fst snd] in *.
  - destruct (negb (length v =? 0)%nat || keep); [|constructor].
    constructor; [|constructor].
    split; cbn [fst snd]; apply S; assumption.
  - destruct keep; [|constructor]. cbn [length Nat.eqb negb orb].
    constructor; [|constructor].
    split; cbn [fst snd]; apply S; [exact H1 | reflexivity].
Qed.

Lemma parse_fields_scalar (keep : bool) (l : list str) :
  Forall (fun w => forallb is_scalar w = true) l ->
  Forall pair_scalar (flat_map (parse_field keep) l).
Proof.
  induction 1 as [|w l Hw Hl IH]; [apply Forall_nil|].
  cbn [flat_map]. apply Forall_app. split; [|exact IH].
  apply parse_field_scalar. exact Hw.
Qed.

Lemma parse_qsl_scalar (keep : bool) (qs : str) :
  forallb is_scalar qs = true -> Forall pair_scalar (parse_qsl keep qs).
Proof.
  intros H. unfold parse_qsl. apply parse_fields_scalar.
  destruct qs; [constructor|]. apply split_forallb. exact H.
Qed.

Lemma dict_add_value_scalar (d : dict) (k v : str) :
  dict_scalar d -> forallb is_scalar k = true -> forallb is_scalar v = true ->
  dict_scalar (dict_add_value d k v).
Proof.
  intros Hd Hk Hv. induction Hd as [|[k' vs] d Hkv Hd IH].
  - cbn [dict_add_value]. repeat constructor; assumption.
  - cbn [dict_add_value]. destruct (str_eqb k k').
    + constructor; [|exact Hd]. destruct Hkv as [H1 H2]. split; [exact H1|].
      apply Forall_app. split; [exact H2 | repeat constructor; exact Hv].
    + constructor; [exact Hkv | exact IH].
Qed.

Lemma dict_set_scalar (d : dict) (k : str) (vs : list str) :
  dict_scalar d -> forallb is_scalar k = true ->
  Forall (fun v => forallb is_scalar v = true) vs ->
  dict_scalar (dict_set d k vs).
Proof.
  intros Hd Hk Hv. induction Hd as [|[k' vs'] d Hkv Hd IH].
  - cbn [dict_set]. repeat constructor; assumption.
  - cbn [dict_set]. destruct (str_eqb k k') eqn:E.
    + constructor; [|exact Hd]. apply str_eqb_eq in E. subst k'.
      split; assumption.
    + constructor; [exact Hkv | exact IH].
Qed.

Lemma parse_qs_scalar (qs : str) :
  forallb is_scalar qs = true -> dict_scalar (parse_qs qs).
Proof.
  intros H. unfold parse_qs. pose proof (parse_qsl_scalar false qs H) as L.
  assert (G : forall pairs acc, Forall pair_scalar pairs -> dict_scalar acc ->
              dict_scalar (fold_left
                (fun acc nv => dict_add_value acc (fst nv) (snd nv)) pairs acc)).
  { induction pairs as [|nv pairs IH]; intros acc Hp Ha; [exact Ha|].
    inversion Hp as [|? ? [H1 H2] Hps]; subst. cbn [fold_left].
    apply IH; [exact Hps|]. apply dict_add_value_scalar; assumption. }
  apply G; [exact L | constructor].
Qed.

(** ** Encoding is total on scalar values *)

Lemma quote_scalar (safe : N -> bool) (s : str) :
  forallb is_scalar s = true <-> exists q, quote s safe = Ok q.
Proof.
  rewrite utf8_encode_scalar. unfold quote. destruct s as [|c s].
  - split; intros _; eexists; reflexivity.
  - split.
    + intros [bs ->]. eexists; reflexivity.
    + intros [q H]. destruct (utf8_encode (c :: s)); [eexists; reflexivity|].
      discriminate.
Qed.

Lemma quote_plus_scalar (s : str) :
  forallb is_scalar s = true -> exists q, quote_plus s = Ok q.
Proof.
  intros H. unfold quote_plus. destruct (negb (has_char 32 s)).
  - apply quote_scalar. exact H.
  - destruct (proj1 (quote_scalar (fun b => b =? 32) s) H) as [q ->].
    cbn [bind]. eexists; reflexivity.
Qed.

Lemma urlencode_total (d : dict) :
  dict_scalar d -> exists q, urlencode d = Ok q.
Proof.
  intros Hd. unfold urlencode.
  assert (F : exists l, urlencode_fields d = Ok l).
  { induction Hd as [|[k vs] d [Hk Hvs] Hd IH]; [eexists; reflexivity|].
    cbn [urlencode_fields fst snd] in *.
    destruct (quote_plus_scalar k Hk) as [k' ->]. cbn [bind].
    assert (V : exists l, urlencode_values k' vs = Ok l).
    { clear IH. induction Hvs as [|v vs Hv Hvs IHv]; [eexists; reflexivity|].
      cbn [urlencode_values]. destruct (quote_plus_scalar v Hv) as [e ->].
      cbn [bind]. destruct IHv as [l ->]. cbn [bind]. eexists; reflexivity. }
    destruct V as [l1 ->]. cbn [bind]. destruct IH as [l2 ->]. cbn [bind].
    eexists; reflexivity. }
  destruct F as [l ->]. cbn [bind]. eexists; reflexivity.
Qed.

(** ** Path parameters *)

Lemma not_slash_47 : (fun c => negb (c =? 47)) 47 = false.
Proof. reflexivity. Qed.

Lemma forallb_rev (p : N -> bool) (s : str) :
  forallb p (rev s) = forallb p s.
Proof.
  induction s as [|c s IH]; [reflexivity|]. cbn [rev forallb].
  rewrite forallb_app, IH. cbn [forallb]. rewrite andb_true_r. apply andb_comm.
Qed.

Lemma firstn_app_exact (a b : str) :
  firstn (length (a ++ b) - length b) (a ++ b) = a.
Proof.
  rewrite length_app, Nat.add_sub, firstn_app, Nat.sub_diag, firstn_all.
  cbn [firstn]. apply app_nil_r.
Qed.

(** The last segment of a path and what stands before it. *)
Lemma last_segment (url : str) :
  let seg := rev (take_while (fun c => negb (c =? 47)) (rev url)) in
  let pre := firstn (length url - length seg) url in
  url = pre ++ seg
  /\ forallb (fun c => negb (c =? 47)) seg = true
  /\ (pre = [] \/ exists pre', pre = pre' ++ [47]).
Proof.
  cbv zeta.
  pose proof (take_drop_while (fun c => negb (c =? 47)) (rev url)) as E.
  pose proof (take_while_all (fun c => negb (c =? 47)) (rev url)) as Ht.
  assert (Eu : url = rev (drop_while (fun c => negb (c =? 47)) (rev url))
                     ++ rev (take_while (fun c => negb (c =? 47)) (rev url))).
  { rewrite <- rev_app_distr, E, rev_involutive. reflexivity. }
  pose proof (firstn_app_exact
                (rev (drop_while (fun c => negb (c =? 47)) (rev url)))
                (rev (take_while (fun c => negb (c =? 47)) (rev url)))) as F.
  rewrite <- Eu in F. rewrite F.
  split; [exact Eu|]. split; [rewrite forallb_rev; exact Ht|].
  destruct (drop_while (fun c => negb (c =? 47)) (rev url)) as [|c d] eqn:Ed.
  - left. reflexivity.
  - right. pose proof (drop_while_head _ _ _ _ Ed) as Hc.
    apply negb_false_iff in Hc. apply N.eqb_eq in Hc. subst c.
    exists (rev d). reflexivity.
Qed.

Lemma last_segment_unique (pre a : str) :
  (pre = [] \/ exists pre', pre = pre' ++ [47]) ->
  forallb (fun c => negb (c =? 47)) a = true ->
  rev (take_while (fun c => negb (c =? 47)) (rev (pre ++ a))) = a.
Proof.
  intros Hpre Ha. rewrite rev_app_distr.
  destruct (take_drop_while_stop (fun c => negb (c =? 47)) (rev a) (rev pre))
    as [-> _].
  - rewrite forallb_rev. exact Ha.
  - destruct Hpre as [-> | (pre' & ->)]; [left; reflexivity|].
    right. rewrite rev_app_distr. cbn [rev app]. eexists _, _.
    split; reflexivity.
  - apply rev_involutive.
Qed.

Lemma has_char_47_segment (pre a : str) :
  (pre = [] \/ exists pre', pre = pre' ++ [47]) ->
  forallb (fun c => negb (c =? 47)) a = true ->
  has_char 47 (pre ++ a) = false -> pre = [].
Proof.
  intros [-> | (pre' & ->)] _ H; [reflexivity|].
  rewrite !has_char_app in H. unfold has_char at 2 in H. cbn in H.
  rewrite orb_true_r in H. discriminate.
Qed.

(** Separating the parameters of a path that was joined again gives the
    same path and parameters; the path joined again is a prefix of the
    path that was parsed. *)
Lemma parse_params_stable (s url a b : str) :
  parse_params s url = (a, b) ->
  parse_params s (rejoin_params a b) = (a, b)
  /\ exists e, url = rejoin_params a b ++ e.
Proof.
  unfold parse_params.
  destruct (str_in s uses_params) eqn:Hs; cbn [andb];
    [|intros E; injection E as <- <-; cbn [rejoin_params];
      split; [reflexivity | exists []; rewrite app_nil_r; reflexivity]].
  destruct (has_char 59 url) eqn:H59;
    [|intros E; injection E as <- <-; cbn [rejoin_params]; rewrite H59;
      split; [reflexivity | exists []; rewrite app_nil_r; reflexivity]].
  unfold splitparams at 1. destruct (has_char 47 url) eqn:H47.
  - destruct (last_segment url) as (Eu & Hseg & Hpre).
    set (seg := rev (take_while (fun c => negb (c =? 47)) (rev url))) in *.
    set (pre := firstn (length url - length seg) url) in *.
    destruct (split_once 59 seg) as [a' [b'|]] eqn:Es.
    + intros E. injection E as <- <-.
      apply split_once_some in Es as [Eseg Ha'].
      destruct b' as [|b0 b'].
      * cbn [rejoin_params]. split.
        2: { exists [59]. rewrite Eu, Eseg, app_assoc. reflexivity. }
        destruct (has_char 59 (pre ++ a')) eqn:H59'; [|reflexivity].
        assert (Hns : forallb (fun c => negb (c =? 47)) a' = true).
        { rewrite Eseg in Hseg. eapply forallb_app_l. exact Hseg. }
        unfold splitparams. destruct (has_char 47 (pre ++ a')) eqn:H47'.
        -- rewrite (last_segment_unique pre a' Hpre Hns).
           rewrite (split_once_plain 59 a' Ha'). reflexivity.
        -- rewrite (has_char_47_segment pre a' Hpre Hns H47') in *.
           cbn [app] in *. congruence.
      * cbn [rejoin_params].
        assert (Eurl : (pre ++ a') ++ 59 :: b0 :: b' = url).
        { rewrite Eu, Eseg, app_assoc. reflexivity. }
        rewrite Eurl, H59. split; [|exists []; rewrite app_nil_r; reflexivity].
        unfold splitparams. rewrite H47. fold seg. fold pre.
        assert (Es' : split_once 59 seg = (a', Some (b0 :: b'))).
        { rewrite Eseg. apply split_once_app. exact Ha'. }
        rewrite Es'. reflexivity.
    + intros E. injection E as <- <-. cbn [rejoin_params]. rewrite H59.
      split; [|exists []; rewrite app_nil_r; reflexivity].
      unfold splitparams. rewrite H47. fold seg. rewrite Es. reflexivity.
  - destruct (split_once 59 url) as [a' [b'|]] eqn:Es.
    + intros E. injection E as <- <-.
      pose proof Es as Es0. apply split_once_some in Es as [Eurl Ha'].
      destruct b' as [|b0 b'].
      * cbn [rejoin_params]. rewrite Ha'.
        split; [reflexivity | exists [59]; exact Eurl].
      * cbn [rejoin_params]. rewrite <- Eurl, H59.
        split; [|exists []; rewrite app_nil_r; reflexivity].
        unfold splitparams. rewrite H47, Es0. reflexivity.
    + intros E. injection E as <- <-. cbn [rejoin_params]. rewrite H59.
      split; [|exists []; rewrite app_nil_r; reflexivity].
      unfold splitparams. rewrite H47, Es. reflexivity.
Qed.

Section ParseFacts.

Variable bracketed_netloc_ok : str -> bool.
Variable nfkc_netloc_ok : str -> bool.

Local Abbreviation urlsplit' := (urlsplit bracketed_netloc_ok nfkc_netloc_ok).
Local Abbreviation urlparse' := (urlparse bracketed_netloc_ok nfkc_netloc_ok).
Local Abbreviation components_wf' :=
  (components_wf bracketed_netloc_ok nfkc_netloc_ok).

Lemma urlparse_eq (url : str) :
  urlparse' url =
  let! r := urlsplit' url in
  Ok (mkParse (split_scheme r) (split_netloc r)
        (fst (parse_params (split_scheme r) (split_path r)))
        (snd (parse_params (split_scheme r) (split_path r)))
        (split_query r) (split_fragment r)).
Proof.
  unfold urlparse, parse_params. destruct (urlsplit' url) as [r|e];
    [|reflexivity].
  cbn [bind].
  destruct (str_in (split_scheme r) uses_params && has_char 59 (split_path r));
    [destruct (splitparams (split_path r))|]; reflexivity.
Qed.

(** [urlparse] reads back what [urlunparse] wrote from the components of a
    parsed URL and a new, non-empty query. *)
Lemma urlparse_urlunparse (url q : str) (p : ParseResult) :
  urlparse' url = Ok p -> forallb query_char q = true -> q <> [] ->
  urlparse' (urlunparse (scheme p) (netloc p) (path p) (params p) q
                        (fragment p))
  = Ok (mkParse (scheme p) (netloc p) (path p) (params p) q (fragment p)).
Proof.
  rewrite urlparse_eq. destruct (urlsplit' url) as [r|e] eqn:Er; [|discriminate].
  cbn [bind]. intros E Hq Hqne. apply Ok_inj in E. subst p.
  cbn [scheme netloc path params fragment].
  destruct (parse_params (split_scheme r) (split_path r)) as [a b] eqn:Ep.
  cbn [fst snd].
  destruct (parse_params_stable _ _ _ _ Ep) as [Hst [e He]].
  change (urlunparse (split_scheme r) (split_netloc r) a b q (split_fragment r))
    with (urlunsplit (split_scheme r) (split_netloc r) (rejoin_params a b) q
            (split_fragment r)).
  pose proof (urlsplit_wf _ _ url r Er) as Hwf. rewrite He in Hwf.
  apply components_wf_prefix in Hwf.
  rewrite urlparse_eq. rewrite (urlsplit_urlunsplit _ _ _ _ _ _ _ Hwf Hq Hqne).
  cbn [bind split_scheme split_netloc split_path split_query split_fragment].
  rewrite Hst. reflexivity.
Qed.

End ParseFacts.

(** ** Reading a dict by key *)

Lemma str_eqb_sym_eq (a b : str) : str_eqb a b = str_eqb b a.
Proof.
  destruct (str_eqb a b) eqn:E.
  - apply str_eqb_eq in E. subst. symmetry. apply str_eqb_refl.
  - symmetry. apply str_eqb_neq. apply str_eqb_neq in E. congruence.
Qed.

Lemma dict_get_add_value (d : dict) (k k' v : str) :
  dict_get (dict_add_value d k' v) k
  = if str_eqb k k'
    then Some (match dict_get d k with Some vs => vs | None => [] end ++ [v])
    else dict_get d k.
Proof.
  induction d as [|[k0 vs] d IH].
  - cbn [dict_add_value dict_get]. destruct (str_eqb k k'); reflexivity.
  - cbn [dict_add_value]. destruct (str_eqb k' k0) eqn:E0.
    + apply str_eqb_eq in E0. subst k0. cbn [dict_get].
      destruct (str_eqb k k') eqn:E; reflexivity.
    + cbn [dict_get]. destruct (str_eqb k k0) eqn:E1.
      * apply str_eqb_eq in E1. subst k0.
        destruct (str_eqb k k') eqn:E; [|reflexivity].
        apply str_eqb_eq in E. subst k'. rewrite str_eqb_refl in E0. discriminate.
      * exact IH.
Qed.

(** The values [parse_qs] files under a name are the values of the fields
    of that name, in order. *)
Lemma dict_get_fold (pairs : list (str * str)) (acc : dict) (k : str) :
  dict_get (fold_left (fun acc nv => dict_add_value acc (fst nv) (snd nv))
                      pairs acc) k
  = match dict_get acc k, field_values k pairs with
    | Some vs, ws => Some (vs ++ ws)
    | None, [] => None
    | None, ws => Some ws
    end.
Proof.
  revert acc. induction pairs as [|[n v] pairs IH]; intros acc.
  - cbn [fold_left field_values filter map].
    destruct (dict_get acc k); [rewrite app_nil_r|]; reflexivity.
  - cbn [fold_left fst snd]. rewrite IH, dict_get_add_value.
    unfold field_values. cbn [filter fst]. rewrite (str_eqb_sym_eq n k).
    destruct (str_eqb k n); cbn [map snd].
    + destruct (dict_get acc k) as [vs|]; cbn [app].
      * rewrite <- app_assoc. reflexivity.
      * reflexivity.
    + reflexivity.
Qed.

Lemma dict_get_parse_qs (qs k : str) :
  match dict_get (parse_qs qs) k with
  | Some vs => vs
  | None => []
  end = field_values k (parse_qsl false qs).
Proof.
  unfold parse_qs. rewrite dict_get_fold. cbn [dict_get].
  destruct (field_values k (parse_qsl false qs)); reflexivity.
Qed.

Lemma dict_get_ok (d : dict) (k : str) (vs : list str) :
  dict_ok d -> dict_get d k = Some vs -> vs <> [].
Proof.
  intros [_ H]. induction H as [|[k' vs'] d [Hkv _] _ IH]; [discriminate|].
  cbn [dict_get]. destruct (str_eqb k k'); [|exact IH].
  intros E. injection E as <-. exact Hkv.
Qed.

(** Without [keep_blank_values], [parse_qsl] returns the fields it returns
    with it, less those whose value is empty. *)
Lemma parse_field_nonblank (f : str) :
  parse_field false f = nonblank (parse_field true f).
Proof.
  unfold parse_field, nonblank. destruct f as [|c f]; [reflexivity|].
  destruct (split_once 61 (c :: f)) as [n [v|]].
  - destruct v as [|v0 v]; cbn [length Nat.eqb negb orb filter snd].
    + destruct (unquote (replace_char 43 32 [])) eqn:E; [reflexivity|].
      discriminate E.
    + destruct (unquote (replace_char 43 32 (v0 :: v))) eqn:E.
      * exfalso. revert E. apply unquote_not_nil. discriminate.
      * reflexivity.
  - cbn [length Nat.eqb negb orb filter snd].
    destruct (unquote (replace_char 43 32 [])) eqn:E; [reflexivity|].
    discriminate E.
Qed.

Lemma parse_qsl_nonblank (qs : str) :
  parse_qsl false qs = nonblank (parse_qsl true qs).
Proof.
  unfold parse_qsl. generalize (match qs with [] => [] | _ :: _ => split 38 qs end).
  intros l. induction l as [|f l IH]; [reflexivity|].
  cbn [flat_map]. rewrite IH, parse_field_nonblank. unfold nonblank.
  rewrite filter_app. reflexivity.
Qed.

Lemma dict_set_not_nil (d : dict) (k : str) (vs : list str) :
  dict_set d k vs <> [].
Proof.
  destruct d as [|[k' vs'] d]; cbn [dict_set]; [discriminate|].
  destruct (str_eqb k k'); discriminate.
Qed.

(** ** What [urlencode] raises, and the fields it writes *)

Lemma quote_raise (safe : N -> bool) (s : str) (e : exn) :
  quote s safe = Raise e -> e = UnicodeEncodeError.
Proof.
  unfold quote. destruct s as [|c s]; [discriminate|].
  destruct (utf8_encode (c :: s)); [discriminate|]. congruence.
Qed.

Lemma quote_not_scalar (safe : N -> bool) (s : str) :
  forallb is_scalar s = false -> quote s safe = Raise UnicodeEncodeError.
Proof.
  intros H. destruct (quote s safe) as [q|e] eqn:E.
  - assert (K : forallb is_scalar s = true)
      by (apply (quote_scalar safe); exists q; exact E).
    congruence.
  - rewrite (quote_raise safe s e E). reflexivity.
Qed.

Lemma quote_plus_raise (s : str) (e : exn) :
  quote_plus s = Raise e -> e = UnicodeEncodeError.
Proof.
  unfold quote_plus. destruct (negb (has_char 32 s)).
  - apply quote_raise.
  - destruct (quote s (fun b => b =? 32)) as [q|e'] eqn:E; cbn [bind].
    + discriminate.
    + intros H. injection H as <-. exact (quote_raise _ _ _ E).
Qed.

Lemma urlencode_values_raise (k : str) (vs : list str) (e : exn) :
  urlencode_values k vs = Raise e -> e = UnicodeEncodeError.
Proof.
  induction vs as [|v vs IH]; cbn [urlencode_values]; [discriminate|].
  destruct (quote_plus v) as [q|e'] eqn:Ev; cbn [bind].
  - destruct (urlencode_values k vs) as [l|e'']; cbn [bind];
      [discriminate|]. intros H. injection H as <-. apply IH. reflexivity.
  - intros H. injection H as <-. exact (quote_plus_raise _ _ Ev).
Qed.

Lemma urlencode_raise (d : dict) (e : exn) :
  urlencode d = Raise e -> e = UnicodeEncodeError.
Proof.
  unfold urlencode.
  assert (F : forall e', urlencode_fields d = Raise e' ->
                         e' = UnicodeEncodeError).
  { induction d as [|[k vs] d IH]; intros e'; cbn [urlencode_fields];
      [discriminate|].
    destruct (quote_plus k) as [k'|e1] eqn:Ek; cbn [bind].
    2: { intros H. injection H as <-. exact (quote_plus_raise _ _ Ek). }
    destruct (urlencode_values k' vs) as [l|e2] eqn:Ev; cbn [bind].
    2: { intros H. injection H as <-. exact (urlencode_values_raise _ _ _ Ev). }
    destruct (urlencode_fields d) as [l'|e3]; cbn [bind]; [discriminate|].
    intros H. injection H as <-. apply IH. reflexivity. }
  destruct (urlencode_fields d) as [l|e']; cbn [bind]; [discriminate|].
  intros H. injection H as <-. apply F. reflexivity.
Qed.

(** A field with a value is read in the same way with and without
    [keep_blank_values]. *)
Lemma parse_field_keep (k e : str) :
  has_char 61 k = false -> e <> [] ->
  parse_field true (k ++ 61 :: e) = parse_field false (k ++ 61 :: e).
Proof.
  intros Hk He. unfold parse_field. rewrite split_once_app by exact Hk.
  destruct (k ++ 61 :: e) eqn:E; [destruct k; discriminate|].
  destruct e as [|e0 e]; [congruence|]. reflexivity.
Qed.

Lemma urlencode_values_keep (k : str) (vs : list str) (l : list str) :
  has_char 61 k = false -> urlencode_values k vs = Ok l ->
  Forall (fun v => v <> []) vs ->
  Forall (fun f => parse_field true f = parse_field false f) l.
Proof.
  intros Hk. revert l. induction vs as [|v vs IH]; intros l;
    cbn [urlencode_values].
  - intros E _. apply Ok_inj in E. subst l. constructor.
  - destruct (quote_plus v) as [e|] eqn:Ev; [|discriminate]. cbn [bind].
    destruct (urlencode_values k vs) as [l'|]; [|discriminate]. cbn [bind].
    intros E Hne. apply Ok_inj in E. subst l.
    inversion Hne as [|? ? Hv Hvs]; subst. constructor.
    + apply parse_field_keep; [exact Hk|].
      intros ->. apply Hv. apply quote_plus_nil. exact Ev.
    + apply IH; [reflexivity | exact Hvs].
Qed.

Lemma urlencode_fields_keep (d : dict) (l : list str) :
  urlencode_fields d = Ok l ->
  Forall (fun kv => Forall (fun v => v <> []) (snd kv)) d ->
  Forall (fun f => parse_field true f = parse_field false f) l.
Proof.
  revert l. induction d as [|[k vs] d IH]; intros l; cbn [urlencode_fields].
  - intros E _. apply Ok_inj in E. subst l. constructor.
  - destruct (quote_plus k) as [k'|] eqn:Ek; [|discriminate]. cbn [bind].
    destruct (urlencode_values k' vs) as [l1|] eqn:E1; [|discriminate].
    cbn [bind]. destruct (urlencode_fields d) as [l2|]; [|discriminate].
    cbn [bind]. intros E Hne. apply Ok_inj in E. subst l.
    inversion Hne as [|? ? Hv Hd]; subst. cbn [snd] in Hv.
    apply Forall_app. split; [|apply IH; [reflexivity | exact Hd]].
    apply (urlencode_values_keep k' vs l1); [|exact E1 | exact Hv].
    eapply has_char_forallb; [eapply quote_plus_chars; exact Ek | reflexivity].
Qed.

(** The query string written by [urlencode] for a dict without empty
    values holds no blank field. *)
Lemma parse_qsl_keep_urlencode (d : dict) (q : str) :
  urlencode d = Ok q ->
  Forall (fun kv => Forall (fun v => v <> []) (snd kv)) d ->
  parse_qsl true q = parse_qsl false q.
Proof.
  unfold urlencode. destruct (urlencode_fields d) as [l|] eqn:E; [|discriminate].
  cbn [bind]. intros Eq Hne. apply Ok_inj in Eq. subst q.
  pose proof (urlencode_fields_keep d l E Hne) as K.
  destruct (urlencode_fields_spec d l E Hne) as [_ H2].
  unfold parse_qsl. destruct l as [|f l]; [reflexivity|].
  destruct (join 38 (f :: l)) eqn:Ej; [reflexivity|].
  rewrite <- Ej. rewrite split_join; [| discriminate |].
  - clear -K. induction K as [|g gs Hg _ IH]; [reflexivity|].
    cbn [flat_map]. rewrite Hg, IH. reflexivity.
  - eapply Forall_impl; [|exact H2]. intros a Ha. apply Ha.
Qed.

(** ** The Dropbox rewrite *)

Section DropboxFacts.

Variable bracketed_netloc_ok : str -> bool.
Variable nfkc_netloc_ok : str -> bool.

Local Abbreviation urlsplit' := (urlsplit bracketed_netloc_ok nfkc_netloc_ok).
Local Abbreviation urlparse' := (urlparse bracketed_netloc_ok nfkc_netloc_ok).
Local Abbreviation convert_dropbox_url' :=
  (convert_dropbox_url bracketed_netloc_ok nfkc_netloc_ok).
Local Abbreviation url_params' :=
  (url_params bracketed_netloc_ok nfkc_netloc_ok).
Local Abbreviation url_fragment' :=
  (url_fragment bracketed_netloc_ok nfkc_netloc_ok).
Local Abbreviation query_fields' :=
  (query_fields bracketed_netloc_ok nfkc_netloc_ok).

(** The function on a Dropbox URL that [urlparse] accepts. *)
Lemma convert_dropbox_url_parsed (url : str) (p : ParseResult) :
  is_dropbox_url url = true -> urlparse' url = Ok p ->
  convert_dropbox_url' url =
  if already_direct (parse_qs (query p)) then Ok (url, false)
  else
    let! q := urlencode (dict_set (parse_qs (query p)) (str_of "dl")
                                  [str_of "1"]) in
    Ok (urlunparse (scheme p) (netloc p) (path p) (params p) q (fragment p),
        true).
Proof.
  intros Hd Ep. unfold convert_dropbox_url. unfold is_dropbox_url in Hd.
  rewrite Hd, Ep. cbn [negb bind]. unfold already_direct.
  destruct (dict_get (parse_qs (query p)) (str_of "dl")) as [[|v vs]|] eqn:Eg.
  - exfalso. apply (dict_get_ok _ _ _ (parse_qs_ok (query p)) Eg). reflexivity.
  - cbn [bind]. destruct (str_eqb v (str_of "1")); reflexivity.
  - cbn [bind]. change (str_eqb (str_of "0") (str_of "1")) with false.
    reflexivity.
Qed.

(** What the rewritten URL is made of. *)
Lemma rewritten_url_parsed (url q : str) (p : ParseResult) :
  urlparse' url = Ok p ->
  urlencode (dict_set (parse_qs (query p)) (str_of "dl") [str_of "1"]) = Ok q ->
  urlparse' (urlunparse (scheme p) (netloc p) (path p) (params p) q (fragment p))
  = Ok (mkParse (scheme p) (netloc p) (path p) (params p) q (fragment p))
  /\ parse_qs q = dict_set (parse_qs (query p)) (str_of "dl") [str_of "1"].
Proof.
  intros Ep Eq.
  assert (Hok : dict_ok (dict_set (parse_qs (query p)) (str_of "dl") [str_of "1"])).
  { apply dict_set_ok; [apply parse_qs_ok | discriminate |].
    repeat constructor. discriminate. }
  pose proof (parse_qs_urlencode _ _ Hok Eq) as Hq.
  split; [|exact Hq].
  apply (urlparse_urlunparse _ _ url q p Ep).
  - apply (urlencode_chars _ _ Eq).
  - intros ->. change (parse_qs []) with (@nil (str * list str)) in Hq.
    symmetry in Hq. revert Hq. apply dict_set_not_nil.
Qed.

(** C5: the Dropbox rewrite is idempotent.  Whenever it returns a URL for
    a Dropbox URL, it returns that URL unchanged when applied to it; the
    reason is that a rewritten URL reads [dl=1] (the dict of its parameters
    holds ["1"] alone under [dl]), and that a URL whose first [dl] value is
    ["1"] is returned as it is. *)
Theorem dropbox_rewrite_idempotent (url url1 : str) (flag : bool) :
  is_dropbox_url url = true ->
  convert_dropbox_url' url = Ok (url1, flag) ->
  convert_dropbox_url' url1 = Ok (url1, false)
  /\ (flag = true ->
      dict_get (url_params' url1) (str_of "dl") = Some [str_of "1"])
  /\ (forall u, is_dropbox_url u = true -> returns (urlparse' u) ->
      already_direct (url_params' u) = true ->
      convert_dropbox_url' u = Ok (u, false)).
Proof.
  intros Hd H.
  assert (Fix : forall u, is_dropbox_url u = true -> returns (urlparse' u) ->
                already_direct (url_params' u) = true ->
                convert_dropbox_url' u = Ok (u, false)).
  { intros u Hu [pu Epu] Hau. rewrite (convert_dropbox_url_parsed u pu Hu Epu).
    unfold url_params in Hau. rewrite Epu in Hau. rewrite Hau. reflexivity. }
  destruct (urlparse' url) as [p|e] eqn:Ep.
  2: { unfold convert_dropbox_url in H. unfold is_dropbox_url in Hd.
       rewrite Hd, Ep in H. discriminate H. }
  rewrite (convert_dropbox_url_parsed url p Hd Ep) in H.
  destruct (already_direct (parse_qs (query p))) eqn:Ha.
  - apply Ok_inj in H. injection H as <- <-.
    split; [|split; [discriminate | exact Fix]].
    rewrite (convert_dropbox_url_parsed url p Hd Ep), Ha. reflexivity.
  - destruct (urlencode _) as [q|e] eqn:Eq; [|discriminate].
    cbn [bind] in H. apply Ok_inj in H. injection H as <- <-.
    destruct (rewritten_url_parsed url q p Ep Eq) as [Ep1 Hq].
    set (url1 := urlunparse _ _ _ _ _ _) in *.
    assert (Hp1 : url_params' url1
                  = dict_set (parse_qs (query p)) (str_of "dl") [str_of "1"]).
    { unfold url_params. rewrite Ep1. cbn [query]. exact Hq. }
    split; [|split; [|exact Fix]].
    + destruct (is_dropbox_url url1) eqn:Hd1.
      * apply Fix; [exact Hd1 | eexists; exact Ep1 |].
        rewrite Hp1. unfold already_direct. rewrite dict_get_set.
        apply str_eqb_refl.
      * unfold convert_dropbox_url. unfold is_dropbox_url in Hd1.
        rewrite Hd1. reflexivity.
    + intros _. rewrite Hp1. apply dict_get_set.
Qed.


(** C9 (amended): what the link resolver returns and when it raises.
    [build_public_proxy_url] returns exactly on the strings made of Unicode
    scalar values, and raises [UnicodeEncodeError] on every other string
    (one with a lone surrogate).  [convert_dropbox_url] returns a URL that
    is not a Dropbox URL unchanged; on a Dropbox URL it raises [ValueError]
    exactly when [urlparse] refuses the URL, which [urlparse] does with
    [ValueError] only; when [urlparse] accepts a Dropbox URL made of scalar
    values it returns; and the one other exception it can raise is
    [UnicodeEncodeError], on a string that is not made of scalar values.
    Whenever it returns with flag false, and whenever
    [convert_google_drive_url] does, the URL returned is the one given.
    [is_github_url], [is_github_release_url], [needs_proxy] and
    [convert_google_drive_url] call nothing that can raise ([str.lower],
    [in], [re.search] and [group]); on a URL that names no provider they
    answer false, and the identity with flag false. *)
Theorem link_resolver_totality (url : str) :
  (forallb is_scalar url = true <-> returns (build_public_proxy_url url))
  /\ (forallb is_scalar url = false ->
      build_public_proxy_url url = Raise UnicodeEncodeError)
  /\ (is_dropbox_url url = false -> convert_dropbox_url' url = Ok (url, false))
  /\ (is_dropbox_url url = true -> forallb is_scalar url = true ->
      (returns (convert_dropbox_url' url) <-> returns (urlparse' url)))
  /\ (forall e, is_dropbox_url url = true -> urlparse' url = Raise e ->
      e = ValueError /\ convert_dropbox_url' url = Raise ValueError)
  /\ (convert_dropbox_url' url = Raise ValueError ->
      is_dropbox_url url = true /\ urlparse' url = Raise ValueError)
  /\ (forall e, convert_dropbox_url' url = Raise e ->
      e = ValueError
      \/ (e = UnicodeEncodeError /\ forallb is_scalar url = false))
  /\ (forall d, convert_dropbox_url' url = Ok (d, false) -> d = url)
  /\ (forall d, convert_google_drive_url url = (d, false) -> d = url)
  /\ (is_github_url url = false -> is_gdrive_url url = false ->
      is_dropbox_url url = false ->
      is_github_release_url url = false
      /\ (forall is_private, needs_proxy url is_private = false)
      /\ convert_google_drive_url url = (url, false)).
Proof.
  assert (Tot : is_dropbox_url url = true -> forallb is_scalar url = true ->
                forall p, urlparse' url = Ok p ->
                returns (convert_dropbox_url' url)).
  { intros Hd Hsc p Ep. rewrite (convert_dropbox_url_parsed url p Hd Ep).
    destruct (already_direct (parse_qs (query p))); [eexists; reflexivity|].
    destruct (urlparse_query _ _ url p Ep) as (r & Er & Eqr & _).
    assert (Hqs : forallb is_scalar (query p) = true).
    { rewrite Eqr. eapply urlsplit_query_forallb; eassumption. }
    destruct (urlencode_total
                (dict_set (parse_qs (query p)) (str_of "dl") [str_of "1"]))
      as [q ->]; [|cbn [bind]; eexists; reflexivity].
    apply dict_set_scalar; [apply parse_qs_scalar; exact Hqs | reflexivity |].
    repeat constructor. }
  assert (Rs : forall e, convert_dropbox_url' url = Raise e ->
               is_dropbox_url url = true
               /\ ((e = ValueError /\ urlparse' url = Raise ValueError)
                   \/ (e = UnicodeEncodeError /\ returns (urlparse' url)))).
  { intros e H. destruct (is_dropbox_url url) eqn:Hd.
    2: { unfold convert_dropbox_url in H. unfold is_dropbox_url in Hd.
         rewrite Hd in H. discriminate H. }
    split; [reflexivity|].
    destruct (urlparse' url) as [p|e0] eqn:Ep.
    - right. split; [|eexists; reflexivity].
      rewrite (convert_dropbox_url_parsed url p Hd Ep) in H.
      destruct (already_direct (parse_qs (query p))); [discriminate|].
      destruct (urlencode _) as [q|e1] eqn:Eq; cbn [bind] in H;
        [discriminate|].
      injection H as <-. exact (urlencode_raise _ _ Eq).
    - left.
      assert (e0 = ValueError).
      { apply urlparse_raise in Ep. eapply urlsplit_raise. exact Ep. }
      subst e0. split; [|reflexivity].
      unfold convert_dropbox_url in H. unfold is_dropbox_url in Hd.
      rewrite Hd, Ep in H. cbn [negb bind] in H. congruence. }
  split; [|split; [|split; [|split; [|split; [|split; [|split; [|split;
    [|split]]]]]]]].
  - unfold build_public_proxy_url, returns.
    rewrite (quote_scalar (fun _ => false) url). split.
    + intros [q ->]. cbn [bind]. eexists; reflexivity.
    + intros [a H]. destruct (quote url (fun _ => false)) as [q|e];
        [eexists; reflexivity | discriminate].
  - intros Hn. unfold build_public_proxy_url.
    rewrite (quote_not_scalar _ _ Hn). reflexivity.
  - intros Hd. unfold convert_dropbox_url. unfold is_dropbox_url in Hd.
    rewrite Hd. reflexivity.
  - intros Hd Hsc. split.
    + intros [a H]. destruct (urlparse' url) as [p|e] eqn:Ep;
        [eexists; reflexivity|].
      unfold convert_dropbox_url in H. unfold is_dropbox_url in Hd.
      rewrite Hd, Ep in H. discriminate H.
    + intros [p Ep]. exact (Tot Hd Hsc p Ep).
  - intros e Hd Ep.
    assert (e = ValueError).
    { apply urlparse_raise in Ep. eapply urlsplit_raise. exact Ep. }
    subst e. split; [reflexivity|].
    unfold convert_dropbox_url. unfold is_dropbox_url in Hd.
    rewrite Hd, Ep. reflexivity.
  - intros H. destruct (Rs _ H) as [Hd [[_ Hu]|[Hc _]]].
    + split; assumption.
    + discriminate Hc.
  - intros e H. destruct (Rs _ H) as [Hd [[He _]|[He [p Ep]]]].
    + left. exact He.
    + right. split; [exact He|].
      apply not_true_is_false. intros Hsc.
      destruct (Tot Hd Hsc p Ep) as [a Ha]. congruence.
  - intros d H. destruct (is_dropbox_url url) eqn:Hd.
    + destruct (urlparse' url) as [p|e0] eqn:Ep.
      * rewrite (convert_dropbox_url_parsed url p Hd Ep) in H.
        destruct (already_direct (parse_qs (query p))).
        -- apply Ok_inj in H. congruence.
        -- destruct (urlencode _) as [q|e1]; cbn [bind] in H;
             [apply Ok_inj in H; discriminate H | discriminate H].
      * unfold convert_dropbox_url in H. unfold is_dropbox_url in Hd.
        rewrite Hd, Ep in H. discriminate H.
    + unfold convert_dropbox_url in H. unfold is_dropbox_url in Hd.
      rewrite Hd in H. apply Ok_inj in H. congruence.
  - intros d. unfold convert_google_drive_url. cbv zeta.
    destruct (negb _ && negb _); [congruence|].
    destruct (_ && _); [congruence|].
    destruct (find_file_id url); [discriminate | congruence].
  - intros Hg Hgd Hdb.
    assert (Hgh : contains (str_of "github.com") (lower url) = false).
    { unfold is_github_url in Hg. apply orb_false_iff in Hg. apply Hg. }
    unfold is_gdrive_url in Hgd. apply orb_false_iff in Hgd as [Hg1 Hg2].
    unfold is_dropbox_url in Hdb.
    split; [|split].
    + unfold is_github_release_url. rewrite Hgh. reflexivity.
    + intros [|]; unfold needs_proxy.
      * rewrite is_github_url_lower. exact Hg.
      * rewrite Hgh, Hg1, Hg2, Hdb. reflexivity.
    + unfold convert_google_drive_url. rewrite Hg1, Hg2. reflexivity.
Qed.

End DropboxFacts.

(** ** The Dropbox rewrite on sample links *)

Lemma dropbox_rewrite_idempotent_witness :
  is_dropbox_url dropbox_share_link = true
  /\ convert_dropbox_url accept_netloc accept_netloc dropbox_share_link
     = Ok (dropbox_direct_link, true)
  /\ convert_dropbox_url accept_netloc accept_netloc dropbox_direct_link
     = Ok (dropbox_direct_link, false).
Proof.
  split; [reflexivity|]. split; [reflexivity|].
  exact (proj1 (dropbox_rewrite_idempotent accept_netloc accept_netloc
                  dropbox_share_link dropbox_direct_link true
                  eq_refl eq_refl)).
Defined.



Lemma link_resolver_totality_witness :
  returns (build_public_proxy_url (str_of "https://example.com/data.csv"))
  /\ convert_dropbox_url accept_netloc accept_netloc
       (str_of "https://example.com/data.csv")
     = Ok (str_of "https://example.com/data.csv", false)
  /\ needs_proxy (str_of "https://example.com/data.csv") false = false
  /\ returns (convert_dropbox_url accept_netloc accept_netloc dropbox_share_link)
  /\ build_public_proxy_url [0xD800] = Raise UnicodeEncodeError
  /\ convert_dropbox_url accept_netloc accept_netloc
       (str_of "http://[dropbox.com") = Raise ValueError.
Proof.
  pose proof (link_resolver_totality accept_netloc accept_netloc
                (str_of "https://example.com/data.csv"))
    as (H1 & _ & H3 & _ & _ & _ & _ & _ & _ & H10).
  pose proof (link_resolver_totality accept_netloc accept_netloc
                dropbox_share_link) as (_ & _ & _ & H4 & _).
  pose proof (link_resolver_totality accept_netloc accept_netloc [0xD800])
    as (_ & H2 & _).
  pose proof (link_resolver_totality accept_netloc accept_netloc
                (str_of "http://[dropbox.com")) as (_ & _ & _ & _ & H5 & _).
  split; [apply H1; reflexivity|]. split; [apply H3; reflexivity|].
  split; [apply (H10 eq_refl eq_refl eq_refl)|].
  split.
  - apply (H4 eq_refl eq_refl).
    exists (mkParse (str_of "https") (str_of "www.dropbox.com")
              (str_of "/s/abc123/report.csv") [] (str_of "dl=0") []).
    reflexivity.
  - split; [apply H2; reflexivity|].
    exact (proj2 (H5 ValueError eq_refl eq_refl)).
Defined.

(** C9, as written, fails on a malformed Dropbox URL, which [urlparse]
    refuses with [ValueError], and on a string with a lone surrogate, which
    [quote] cannot encode. *)
Lemma malformed_url_raises :
  is_dropbox_url (str_of "http://[dropbox.com") = true
  /\ convert_dropbox_url accept_netloc accept_netloc (str_of "http://[dropbox.com")
     = Raise ValueError
  /\ build_public_proxy_url [0xD800] = Raise UnicodeEncodeError
  /\ convert_dropbox_url accept_netloc accept_netloc
       (str_of "https://dropbox.com/?a=" ++ [0xD800])
     = Raise UnicodeEncodeError.
Proof. repeat split; reflexivity. Qed.

(** ** The decoder keeps the ASCII bytes *)

Ltac step_with pre rest o :=
  exists pre, rest, o; split; [reflexivity|]; split; [discriminate|];
  split; [reflexivity|]; right;
  split; [repeat constructor; lia | try exact I; try lia].

Ltac step_auto :=
  unfold scan_step;
  match goal with
  | |- exists pre rest o, ?bs = pre ++ rest /\ _
                          /\ ?o1 :: utf8_scan ?R = _ /\ _ =>
      match bs with
      | ?x1 :: R => step_with [x1] R o1
      | ?x1 :: ?x2 :: R => step_with [x1; x2] R o1
      | ?x1 :: ?x2 :: ?x3 :: R => step_with [x1; x2; x3] R o1
      | ?x1 :: ?x2 :: ?x3 :: ?x4 :: R => step_with [x1; x2; x3; x4] R o1
      end
  | |- exists pre rest o, ?bs = pre ++ rest /\ _ /\ [?o1] = _ /\ _ =>
      step_with bs (@nil N) o1
  end.

Ltac scan_cases :=
  repeat first
    [ match goal with
      | |- context [match ?r with [] => _ | _ :: _ => _ end] =>
          is_var r; destruct r as [|? ?]
      end
    | match goal with
      | |- context [?a <=? ?b] => destruct (N.leb_spec a b)
      | |- context [?a <? ?b] => destruct (N.ltb_spec a b)
      | |- context [?a =? ?b] => destruct (N.eqb_spec a b)
      end; try lia; cbn [andb negb orb] ].

Lemma utf8_scan_step (b1 : N) (r1 : bytes) :
  scan_step (b1 :: r1) (utf8_scan (b1 :: r1)).
Proof.
  cbn [utf8_scan]. unfold is_cont.
  destruct (N.ltb_spec b1 0x80).
  { exists [b1], r1, (Some b1). repeat split; try discriminate. left.
    exists b1. auto. }
  scan_cases; step_auto.
Qed.

Lemma decode_ignore_cons (o : option N) (l : list (option N)) :
  flat_map (fun o => match o with Some c => [c] | None => [] end) (o :: l)
  = match o with Some c => [c] | None => [] end
    ++ flat_map (fun o => match o with Some c => [c] | None => [] end) l.
Proof. reflexivity. Qed.

Lemma filter_hi (pre : bytes) :
  Forall (fun b => 0x80 <= b) pre -> filter is_ascii pre = [].
Proof.
  induction 1 as [|b pre Hb _ IH]; [reflexivity|].
  cbn [filter]. unfold is_ascii at 1.
  destruct (N.ltb_spec b 128); [lia | exact IH].
Qed.

Lemma decode_ignore_ascii_bounded (n : nat) (bs : bytes) :
  (length bs <= n)%nat ->
  filter is_ascii (decode_ignore bs) = filter is_ascii bs.
Proof.
  revert bs. induction n as [|n IH]; intros bs Hlen.
  - destruct bs; [reflexivity | cbn [length] in Hlen; lia].
  - destruct bs as [|b1 r1]; [reflexivity|].
    destruct (utf8_scan_step b1 r1) as (pre & rest & o & E & Hne & Es & Hc).
    unfold decode_ignore. rewrite Es, decode_ignore_cons, E.
    rewrite !filter_app. fold (decode_ignore rest).
    assert (Hr : (length rest <= n)%nat).
    { apply (f_equal (@length N)) in E. rewrite length_app in E.
      cbn [length] in E, Hlen. destruct pre; [congruence|].
      cbn [length] in E. lia. }
    rewrite (IH rest Hr). f_equal.
    destruct Hc as [(b & -> & Hb & ->) | [Hhi Ho]].
    + reflexivity.
    + rewrite (filter_hi pre Hhi). destruct o as [c|]; [|reflexivity].
      cbn [filter]. unfold is_ascii.
      destruct (N.ltb_spec c 128); [lia | reflexivity].
Qed.

Lemma decode_ignore_ascii (bs : bytes) :
  filter is_ascii (decode_ignore bs) = filter is_ascii bs.
Proof. apply (decode_ignore_ascii_bounded (length bs)). lia. Qed.

Lemma all_decoded_ignore (l : list (option N)) (t : str) :
  all_decoded l = Some t ->
  flat_map (fun o => match o with Some c => [c] | None => [] end) l = t.
Proof.
  revert t. induction l as [|[c|] l IH]; intros t H; cbn [all_decoded] in H.
  - apply Some_inj in H. subst. reflexivity.
  - destruct (all_decoded l) as [s|]; [|discriminate].
    apply Some_inj in H. subst t. cbn [flat_map app]. f_equal. apply IH.
    reflexivity.
  - discriminate.
Qed.

Lemma decode_strict_ignore (bs : bytes) (t : str) :
  decode_strict bs = Some t -> decode_ignore bs = t.
Proof. apply all_decoded_ignore. Qed.

Lemma filter_eqb_ascii (c : N) (s : str) :
  c < 128 -> filter (N.eqb c) (filter is_ascii s) = filter (N.eqb c) s.
Proof.
  intros Hc. induction s as [|x s IH]; [reflexivity|].
  cbn [filter]. unfold is_ascii at 1.
  destruct (N.ltb_spec x 128).
  - cbn [filter]. rewrite IH. reflexivity.
  - rewrite IH. destruct (N.eqb_spec c x); [lia | reflexivity].
Qed.

Lemma count_char_ascii (c : N) (s : str) :
  c < 128 -> count_char c (filter is_ascii s) = count_char c s.
Proof. intros Hc. unfold count_char. rewrite filter_eqb_ascii; auto. Qed.

Lemma has_char_ascii (c : N) (s : str) :
  c < 128 -> has_char c (filter is_ascii s) = has_char c s.
Proof.
  intros Hc. induction s as [|x s IH]; [reflexivity|].
  cbn [filter]. unfold is_ascii at 1.
  destruct (N.ltb_spec x 128).
  - unfold has_char in *. cbn [existsb]. rewrite IH. reflexivity.
  - unfold has_char in *. cbn [existsb]. rewrite IH.
    destruct (N.eqb_spec c x); [lia | reflexivity].
Qed.

Lemma count_char_decode_ignore (c : N) (bs : bytes) :
  c < 128 -> count_char c (decode_ignore bs) = count_char c bs.
Proof.
  intros Hc. rewrite <- (count_char_ascii c (decode_ignore bs)) by exact Hc.
  rewrite decode_ignore_ascii. apply count_char_ascii. exact Hc.
Qed.

Lemma count_char_pos (c : N) (s : str) :
  (0 <? count_char c s)%nat = has_char c s.
Proof.
  unfold count_char, has_char. induction s as [|x s IH]; [reflexivity|].
  cbn [filter existsb]. destruct (c =? x); [reflexivity | exact IH].
Qed.

Lemma hd_split (sep : N) (s : str) :
  hd [] (split sep s) = take_while (fun c => negb (c =? sep)) s.
Proof.
  induction s as [|c s IH]; [reflexivity|].
  cbn [split take_while]. destruct (c =? sep); [reflexivity|].
  cbn [negb]. rewrite <- IH. destruct (split sep s); reflexivity.
Qed.

Lemma has_char_take_while (c : N) (p : N -> bool) (s : str) :
  has_char c (take_while p s) = true -> has_char c s = true.
Proof.
  unfold has_char. induction s as [|x s IH]; [auto|].
  cbn [take_while]. destruct (p x); [|discriminate].
  cbn [existsb]. destruct (c =? x); [reflexivity | exact IH].
Qed.

Lemma filter_take_while_ascii (sep : N) (s : str) :
  sep < 128 ->
  filter is_ascii (take_while (fun c => negb (c =? sep)) s)
  = take_while (fun c => negb (c =? sep)) (filter is_ascii s).
Proof.
  intros Hs. induction s as [|x s IH]; [reflexivity|].
  cbn [take_while filter]. unfold is_ascii at 2.
  destruct (N.eqb_spec x sep) as [->|Hx]; cbn [negb].
  - destruct (N.ltb_spec sep 128); [|lia]. cbn [take_while].
    rewrite N.eqb_refl. reflexivity.
  - cbn [filter]. unfold is_ascii at 1.
    destruct (N.ltb_spec x 128).
    + cbn [take_while]. destruct (N.eqb_spec x sep); [contradiction|].
      cbn [negb]. rewrite IH. reflexivity.
    + exact IH.
Qed.

Lemma has_char_take_while_firstn (c : N) (p : N -> bool) (n : nat) (s : str) :
  has_char c (take_while p (firstn n s)) = true ->
  has_char c (take_while p s) = true.
Proof.
  unfold has_char. revert s. induction n as [|n IH]; intros s.
  - cbn. discriminate.
  - destruct s as [|x s]; [cbn; discriminate|].
    cbn [firstn take_while]. destruct (p x); [|discriminate].
    cbn [existsb]. destruct (c =? x); [reflexivity | apply IH].
Qed.

Lemma has_char_decode_ignore (c : N) (bs : bytes) :
  c < 128 -> has_char c (decode_ignore bs) = has_char c bs.
Proof.
  intros Hc. rewrite <- (has_char_ascii c (decode_ignore bs)) by exact Hc.
  rewrite decode_ignore_ascii. apply has_char_ascii. exact Hc.
Qed.

(** X1: [detect_delimiter_from_content] looks at the raw bytes before the
    first line feed: the answer is the pipe when a pipe byte stands there,
    else the tab when a tab byte stands there, else the comma; whether the
    line is well-formed UTF-8 plays no part. *)
Theorem delimiter_from_raw_bytes (file_bytes : bytes) :
  let line := hd [] (split 10 file_bytes) in
  detect_delimiter_from_content file_bytes =
    if has_char 124 line then [124]
    else if has_char 9 line then [9]
    else [44].
Proof.
  intros line. unfold detect_delimiter_from_content. fold line.
  rewrite !count_char_pos, !has_char_decode_ignore by lia.
  destruct (has_char 124 line); [reflexivity|].
  destruct (has_char 9 line); [reflexivity|].
  destruct (has_char 44 line); reflexivity.
Qed.

Lemma detect_delimiter_pipe (file_bytes : bytes) :
  has_char 124 (hd [] (split 10 file_bytes)) = true ->
  detect_delimiter_from_content file_bytes = [124].
Proof.
  intros H. unfold detect_delimiter_from_content.
  rewrite count_char_pos, has_char_decode_ignore by lia. rewrite H.
  reflexivity.
Qed.

Lemma classify_pipe (line : str) :
  classify_by_delimiter line = pipe -> has_char 124 line = true.
Proof.
  unfold classify_by_delimiter. intros H.
  rewrite <- count_char_pos.
  destruct (Nat.leb_spec 2 (count_char 124 line)).
  - apply Nat.ltb_lt. lia.
  - destruct (2 <=? count_char 9 line)%nat; [discriminate|].
    destruct (2 <=? count_char 44 line)%nat; discriminate.
Qed.

(** X2: A buffer that [detect_file_type_from_bytes] classifies as
    pipe-delimited gets the pipe from [detect_delimiter_from_content]: the
    two functions agree although one decodes 2048 bytes strictly and cuts
    the line at a line feed or a carriage return, and the other decodes the
    whole first line leniently. *)
Theorem pipe_type_pipe_delimiter (file_bytes : bytes) :
  detect_file_type_from_bytes file_bytes = Some pipe ->
  detect_delimiter_from_content file_bytes = [124].
Proof.
  intros H. apply detect_delimiter_pipe.
  unfold detect_file_type_from_bytes in H.
  destruct (length file_bytes <? 20)%nat; [discriminate|].
  destruct (looks_like_html _); [discriminate|].
  destruct (_ || _); [discriminate|].
  destruct (contains _ _); [discriminate|].
  destruct (contains _ _); [discriminate|].
  destruct (decode_strict (firstn 2048 file_bytes)) as [text|] eqn:Ed;
    [|discriminate].
  destruct (json_leading text); [discriminate|].
  destruct (_ && _); [discriminate|].
  apply Some_inj, classify_pipe in H.
  unfold first_line_of in H. rewrite !hd_split in H.
  apply has_char_take_while in H.
  rewrite hd_split.
  apply (has_char_take_while_firstn _ _ 2048).
  rewrite <- has_char_ascii by lia.
  rewrite filter_take_while_ascii by lia.
  rewrite <- decode_ignore_ascii, (decode_strict_ignore _ _ Ed).
  rewrite <- filter_take_while_ascii by lia.
  rewrite has_char_ascii by lia. exact H.
Qed.

(** ** File type from a path *)

Lemma startswith_iff (p s : str) :
  startswith p s = true <-> exists t, s = p ++ t.
Proof.
  revert s. induction p as [|a p IH]; intros s; cbn [startswith].
  - split; [intros _; exists s; reflexivity | reflexivity].
  - destruct s as [|b s].
    + split; [discriminate | intros [t H]; discriminate].
    + rewrite andb_true_iff, N.eqb_eq, IH. split.
      * intros [-> [t ->]]. exists t. reflexivity.
      * intros [t H]. cbn [app] in H. injection H as -> ->. eauto.
Qed.

Lemma endswith_iff (p s : str) :
  endswith p s = true <-> exists a, s = a ++ p.
Proof.
  unfold endswith. rewrite startswith_iff. split.
  - intros [t H]. exists (rev t).
    rewrite <- (rev_involutive s), H, rev_app_distr, rev_involutive.
    reflexivity.
  - intros [a ->]. exists (rev a). apply rev_app_distr.
Qed.

Lemma startswith_both (p q r : str) :
  startswith p r = true -> startswith q r = true ->
  startswith p q = true \/ startswith q p = true.
Proof.
  revert q r. induction p as [|a p IH]; intros q r Hp Hq; [left; reflexivity|].
  destruct q as [|b q]; [right; reflexivity|].
  destruct r as [|c r]; [discriminate|].
  cbn [startswith] in *. apply andb_true_iff in Hp, Hq.
  destruct Hp as [Ea Hp], Hq as [Eb Hq].
  apply N.eqb_eq in Ea, Eb. subst a b. rewrite N.eqb_refl. cbn [andb].
  exact (IH q r Hp Hq).
Qed.

Lemma endswith_both (p q s : str) :
  endswith p s = true -> endswith q s = true ->
  endswith p q = true \/ endswith q p = true.
Proof. unfold endswith. apply startswith_both. Qed.

Lemma endswith_has_char (c : N) (p s : str) :
  has_char c p = true -> endswith p s = true -> has_char c s = true.
Proof.
  intros Hc H. apply endswith_iff in H. destruct H as [a ->].
  rewrite has_char_app, Hc. apply orb_true_r.
Qed.

Ltac other_extension H :=
  match goal with
  | |- context [endswith ?e ?s] =>
      let E := fresh "E" in
      destruct (endswith e s) eqn:E;
      [ try (exfalso; destruct (endswith_both _ _ _ H E) as [K|K];
             vm_compute in K; discriminate K)
      | try (exfalso; exact (eq_true_false_abs _ H E)); cbn [orb] ]
  end.

(** X3: [detect_file_type_from_path] does not depend on the order of its
    tests: a path has the type [t] exactly when its lowercase form ends with
    an extension of [t], and no type when it ends with none of the eight
    extensions. *)
Theorem path_type_by_extension (path : str) :
  (forall t, detect_file_type_from_path path = Some t
             <-> exists ext, In (ext, t) extension_types
                             /\ endswith ext (lower path) = true)
  /\ (detect_file_type_from_path path = None
      <-> forall ext t, In (ext, t) extension_types ->
                        endswith ext (lower path) = false).
Proof.
  assert (A : forall t, (exists ext, In (ext, t) extension_types
                           /\ endswith ext (lower path) = true)
                        -> detect_file_type_from_path path = Some t).
  { intros t (ext & Hin & He). unfold detect_file_type_from_path.
    cbn in Hin.
    repeat (destruct Hin as [Hin|Hin];
            [injection Hin as <- <-;
             repeat other_extension He; try reflexivity; try congruence|]).
    contradiction. }
  assert (B : forall t, detect_file_type_from_path path = Some t ->
                        exists ext, In (ext, t) extension_types
                                    /\ endswith ext (lower path) = true).
  { intros t. unfold detect_file_type_from_path.
    repeat match goal with
           | |- context [endswith ?e ?s] =>
               let E := fresh "E" in
               destruct (endswith e s) eqn:E; cbn [orb];
               [intros H; apply Some_inj in H; subst t; exists e;
                split; [cbn; tauto | exact E]|]
           end.
    discriminate. }
  split.
  - intros t. split; [apply B | apply A].
  - split.
    + intros H ext t Hin. destruct (endswith ext (lower path)) eqn:E; auto.
      rewrite (A t) in H; [discriminate | eauto].
    + intros H. destruct (detect_file_type_from_path path) as [t|] eqn:E;
        [|reflexivity].
      destruct (B t eq_refl) as (ext & Hin & He).
      rewrite (H ext t Hin) in He. discriminate.
Qed.

(** ** File type from a URL *)

Lemma split_not_nil (sep : N) (s : str) : split sep s <> [].
Proof.
  destruct s as [|c s]; cbn [split]; [discriminate|].
  destruct (c =? sep); [discriminate|]. destruct (split sep s); discriminate.
Qed.

Lemma split_front (sep : N) (x y : str) :
  exists l, l <> [] /\ split sep (x ++ sep :: y) = l ++ split sep y.
Proof.
  induction x as [|c x (l & Hl & IH)].
  - exists [[]]. split; [discriminate|]. cbn [app split].
    rewrite N.eqb_refl. reflexivity.
  - cbn [app split]. rewrite IH. destruct (c =? sep).
    + exists ([] :: l). split; [discriminate | reflexivity].
    + destruct l as [|w l]; [contradiction|].
      exists ((c :: w) :: l). split; [discriminate | reflexivity].
Qed.

Lemma last_app_r {A : Type} (l1 l2 : list A) (d : A) :
  l2 <> [] -> last (l1 ++ l2) d = last l2 d.
Proof.
  intros H. induction l1 as [|a l1 IH]; [reflexivity|].
  cbn [app]. destruct (l1 ++ l2) eqn:E.
  - destruct l1, l2; try discriminate; contradiction.
  - cbn [last]. exact IH.
Qed.

(** [s.split('/')[-1]] is what follows the last slash. *)
Lemma last_split_segment (pre seg : str) :
  (pre = [] \/ exists pre', pre = pre' ++ [47]) ->
  has_char 47 seg = false ->
  last (split 47 (pre ++ seg)) [] = seg.
Proof.
  intros [->|[pre' ->]] Hs.
  - cbn [app]. rewrite split_plain by exact Hs. reflexivity.
  - rewrite <- app_assoc. cbn [app].
    destruct (split_front 47 pre' seg) as (l & _ & ->).
    rewrite last_app_r by apply split_not_nil.
    rewrite split_plain by exact Hs. reflexivity.
Qed.

Lemma endswith_last_segment (ext s : str) :
  has_char 47 ext = false -> ext <> [] ->
  endswith ext (last (split 47 s) []) = endswith ext s.
Proof.
  intros Hx Hne.
  destruct (last_segment s) as (E & Hseg & Hpre).
  set (seg := rev (take_while (fun c => negb (c =? 47)) (rev s))) in *.
  set (pre := firstn (length s - length seg) s) in *.
  assert (Hs : has_char 47 seg = false)
    by (apply has_char_false_forallb; exact Hseg).
  rewrite E at 1. rewrite (last_split_segment pre seg Hpre Hs).
  apply eq_true_iff_eq. rewrite !endswith_iff. split.
  - intros [a Ha]. exists (pre ++ a). rewrite E, Ha. apply app_assoc.
  - intros [a Ha]. rewrite E in Ha. apply app_eq_app in Ha.
    destruct Ha as [l [[Hp He] | [Ha He]]].
    + destruct l as [|c l].
      * exists []. rewrite He. reflexivity.
      * exfalso. destruct Hpre as [->|[pre' Hp']].
        { destruct a; discriminate. }
        rewrite Hp in Hp'.
        assert (Hl : exists l', c :: l = l' ++ [47]).
        { destruct (exists_last (l := c :: l)) as (l' & z & El);
            [discriminate|].
          exists l'. rewrite El in *. rewrite app_assoc in Hp'.
          apply app_inj_tail in Hp'. destruct Hp' as [_ ->]. reflexivity. }
        destruct Hl as [l' El]. rewrite El in He. rewrite He in Hx.
        rewrite !has_char_app in Hx. cbn in Hx.
        rewrite orb_true_r in Hx. discriminate.
    + exists l. exact He.
Qed.

Lemma no_dot_no_extension (s : str) :
  has_char 46 s = false ->
  forall ext, has_char 46 ext = true -> endswith ext s = false.
Proof.
  intros Hs ext Hx. destruct (endswith ext s) eqn:E; [|reflexivity].
  rewrite (endswith_has_char 46 ext s Hx E) in Hs. discriminate.
Qed.

Lemma path_type_no_dot (path : str) :
  has_char 46 (lower path) = false -> detect_file_type_from_path path = None.
Proof.
  intros H. unfold detect_file_type_from_path.
  rewrite !(no_dot_no_extension _ H) by reflexivity. reflexivity.
Qed.

Lemma first_item_ok (d : dict) (k : str) (vs : list str) :
  dict_ok d -> dict_get d k = Some vs -> exists v vs', vs = v :: vs'.
Proof.
  intros Hd Hg. pose proof (dict_get_ok d k vs Hd Hg).
  destruct vs as [|v vs']; [contradiction | eauto].
Qed.

Section TypeFacts.

Variable bracketed_netloc_ok : str -> bool.
Variable nfkc_netloc_ok : str -> bool.

Local Abbreviation urlparse' := (urlparse bracketed_netloc_ok nfkc_netloc_ok).
Local Abbreviation detect_file_type' :=
  (detect_file_type bracketed_netloc_ok nfkc_netloc_ok).

Lemma detect_file_type_parsed (url : str) (p : ParseResult) :
  urlparse' url = Ok p ->
  detect_file_type' url =
  Ok (match dict_get (parse_qs (query p)) (str_of "filetype") with
      | Some (v :: _) =>
          if str_in (lower v) filetype_names then Some (lower v)
          else detect_file_type_from_path (path p)
      | _ => detect_file_type_from_path (path p)
      end).
Proof.
  intros Hp. unfold detect_file_type. rewrite Hp. cbn [bind].
  assert (P : (let path_lower := lower (path p) in
               if has_char 46 path_lower then
                 let filename := last (split 47 path_lower) [] in
                 if endswith (str_of ".parquet") filename
                 then Ok (Some (str_of "parquet"))
                 else if endswith (str_of ".duckdb") filename
                 then Ok (Some (str_of "duckdb"))
                 else if endswith (str_of ".csv") filename
                 then Ok (Some (str_of "csv"))
                 else if endswith (str_of ".tsv") filename
                 then Ok (Some (str_of "tsv"))
                 else if endswith (str_of ".txt") filename
                 then Ok (Some (str_of "txt"))
                 else if endswith (str_of ".pipe") filename
                         || endswith (str_of ".psv") filename
                 then Ok (Some (str_of "pipe"))
                 else if endswith (str_of ".json") filename
                 then Ok (Some (str_of "json"))
                 else Ok None
               else Ok None)
              = Ok (detect_file_type_from_path (path p))).
  { cbv zeta. unfold detect_file_type_from_path.
    destruct (has_char 46 (lower (path p))) eqn:Hd.
    - rewrite !endswith_last_segment by (reflexivity || discriminate).
      repeat match goal with
             | |- context [endswith ?e ?s] => destruct (endswith e s)
             end; reflexivity.
    - rewrite !(no_dot_no_extension _ Hd) by reflexivity. reflexivity. }
  destruct (dict_get (parse_qs (query p)) (str_of "filetype")) as [vs|] eqn:Hg.
  - destruct (first_item_ok _ _ _ (parse_qs_ok (query p)) Hg) as (v & vs' & ->).
    cbn [first_item bind].
    destruct (str_in (lower v) filetype_names); cbn [bind]; [reflexivity|].
    exact P.
  - cbn [bind]. exact P.
Qed.

End TypeFacts.

(** ** The file name of a Content-Disposition header *)

Lemma match_prefix_eqb (l s rest : str) :
  match_prefix (map N.eqb l) s = Some rest <-> s = l ++ rest.
Proof.
  revert s. induction l as [|a l IH]; intros s; cbn [map match_prefix app].
  - split; [intros H; apply Some_inj in H; auto | intros ->; reflexivity].
  - destruct s as [|c s]; [split; discriminate|].
    destruct (N.eqb_spec a c) as [->|Hn].
    + rewrite IH. split; [intros ->; reflexivity | intros H; injection H; auto].
    + split; [discriminate | intros H; injection H; intros; congruence].
Qed.

Lemma re_search_some (m : str -> option str) (s g : str) :
  re_search m s = Some g -> exists a b, s = a ++ b /\ m b = Some g.
Proof.
  induction s as [|c s IH]; cbn [re_search]; intros H.
  - destruct (m []) eqn:E; [|discriminate]. exists [], []. split; [reflexivity | congruence].
  - destruct (m (c :: s)) eqn:E.
    + exists [], (c :: s). split; [reflexivity | congruence].
    + destruct (IH H) as (a & b & -> & Hb). exists (c :: a), b.
      split; [reflexivity | exact Hb].
Qed.

Lemma re_search_none (m : str -> option str) (s : str) :
  re_search m s = None <-> forall a b, s = a ++ b -> m b = None.
Proof.
  induction s as [|c s IH]; cbn [re_search].
  - split.
    + intros H a b E. symmetry in E. apply app_eq_nil in E.
      destruct E as [_ ->]. destruct (m []); [discriminate | reflexivity].
    + intros H. rewrite (H [] [] eq_refl). reflexivity.
  - split.
    + intros H a b E. destruct (m (c :: s)) eqn:Em; [discriminate|].
      destruct a as [|x a]; [cbn in E; subst b; exact Em|].
      injection E as -> E. exact (proj1 IH H a b E).
    + intros H. rewrite (H [] (c :: s) eq_refl). apply IH.
      intros a b E. apply (H (c :: a) b). rewrite E. reflexivity.
Qed.

(** The leftmost match: a pattern that matches at the head of [b] and
    nowhere inside [a ++ b] before it. *)
Lemma re_search_leftmost (m : str -> option str) (a b g : str) :
  m b = Some g ->
  (forall x y, y <> [] -> a = x ++ y -> m (y ++ b) = None) ->
  re_search m (a ++ b) = Some g.
Proof.
  intros Hb. induction a as [|c a IH]; intros Hn.
  - cbn [app]. destruct b; cbn [re_search]; rewrite Hb; reflexivity.
  - cbn [app re_search].
    pose proof (Hn [] (c :: a) ltac:(discriminate) eq_refl) as H0.
    cbn [app] in H0. rewrite H0.
    apply IH. intros x y Hy E. apply (Hn (c :: x) y Hy). rewrite E.
    reflexivity.
Qed.

Lemma match_quoted_spec (b g : str) :
  match_quoted_filename_at b = Some g <->
  g <> [] /\ forallb not_quote g = true
  /\ exists rest, b = str_of "filename=" ++ 34 :: g ++ 34 :: rest.
Proof.
  unfold match_quoted_filename_at.
  change (lit "filename=" ++ [N.eqb 34])
    with (map N.eqb (str_of "filename=" ++ [34])).
  split.
  - destruct (match_prefix _ b) as [rest|] eqn:E; [|discriminate].
    apply match_prefix_eqb in E.
    pose proof (take_drop_while not_quote rest) as Hs.
    pose proof (take_while_all not_quote rest) as Ha.
    destruct (take_while not_quote rest) as [|c name]; [discriminate|].
    destruct (drop_while not_quote rest) as [|d tl] eqn:Ed; [discriminate|].
    intros H. apply Some_inj in H. subst g.
    split; [discriminate|]. split; [exact Ha|].
    pose proof (drop_while_head _ _ _ _ Ed) as Hd. unfold not_quote in Hd.
    apply negb_false_iff, N.eqb_eq in Hd. subst d.
    exists tl. rewrite E, <- Hs, <- app_assoc. reflexivity.
  - intros (Hg & Ha & rest & ->).
    assert (E : match_prefix (map N.eqb (str_of "filename=" ++ [34]))
                  (str_of "filename=" ++ 34 :: g ++ 34 :: rest)
                = Some (g ++ 34 :: rest)).
    { apply match_prefix_eqb. rewrite <- app_assoc. reflexivity. }
    rewrite E.
    destruct (take_drop_while_stop not_quote g (34 :: rest) Ha) as [-> ->].
    { right. exists 34, rest. split; reflexivity. }
    destruct g; [contradiction | reflexivity].
Qed.

Lemma match_plain_spec (b g : str) :
  match_plain_filename_at b = Some g <->
  g <> [] /\ forallb token_char g = true
  /\ exists rest, b = str_of "filename=" ++ g ++ rest
                  /\ (rest = [] \/ exists c r, rest = c :: r
                                               /\ token_char c = false).
Proof.
  unfold match_plain_filename_at.
  change (lit "filename=") with (map N.eqb (str_of "filename=")).
  split.
  - destruct (match_prefix _ b) as [rest|] eqn:E; [|discriminate].
    apply match_prefix_eqb in E.
    pose proof (take_drop_while token_char rest) as Hs.
    pose proof (take_while_all token_char rest) as Ha.
    destruct (take_while token_char rest) as [|c name] eqn:Et; [discriminate|].
    intros H. apply Some_inj in H. subst g.
    split; [discriminate|]. split; [exact Ha|].
    exists (drop_while token_char rest). split.
    + rewrite E. rewrite <- Hs at 1. reflexivity.
    + destruct (drop_while token_char rest) as [|d tl] eqn:Ed; [left; auto|].
      right. exists d, tl. split; [reflexivity|].
      exact (drop_while_head _ _ _ _ Ed).
  - intros (Hg & Ha & rest & -> & Hr).
    assert (E : match_prefix (map N.eqb (str_of "filename="))
                  (str_of "filename=" ++ g ++ rest) = Some (g ++ rest))
      by (apply match_prefix_eqb; reflexivity).
    rewrite E.
    destruct (take_drop_while_stop token_char g rest Ha Hr) as [-> _].
    destruct g; [contradiction | reflexivity].
Qed.

Lemma no_early_filename (y t u : str) :
  y <> [] -> has_char 61 y = false ->
  y ++ str_of "filename=" ++ t <> str_of "filename=" ++ u.
Proof.
  intros Hy Hc E.
  do 9 (destruct y as [|? y];
        [cbn in E; try contradiction; try discriminate E|]).
  cbn in E. injection E as -> -> -> -> -> -> -> -> -> _.
  cbn in Hc. discriminate Hc.
Qed.

Lemma quoted_needs_quote (s g : str) :
  re_search match_quoted_filename_at s = Some g -> has_char 34 s = true.
Proof.
  intros H. apply re_search_some in H. destruct H as (a & b & -> & Hb).
  apply match_quoted_spec in Hb. destruct Hb as (_ & _ & rest & ->).
  rewrite !has_char_app. cbn. rewrite !orb_true_r. reflexivity.
Qed.

Lemma get_filename_not_nil (h : str) :
  h <> [] ->
  get_filename_from_content_disposition h =
  match re_search match_quoted_filename_at h with
  | Some name => Some name
  | None => re_search match_plain_filename_at h
  end.
Proof. destruct h; [contradiction | reflexivity]. Qed.

Lemma quoted_is_token_start (b g : str) :
  match_quoted_filename_at b = Some g ->
  exists g', match_plain_filename_at b = Some g'.
Proof.
  intros H. apply match_quoted_spec in H. destruct H as (_ & _ & rest & ->).
  unfold match_plain_filename_at.
  change (lit "filename=") with (map N.eqb (str_of "filename=")).
  assert (E : match_prefix (map N.eqb (str_of "filename="))
                (str_of "filename=" ++ 34 :: g ++ 34 :: rest)
              = Some (34 :: g ++ 34 :: rest))
    by (apply match_prefix_eqb; reflexivity).
  rewrite E. cbn [take_while].
  change (token_char 34) with true. cbn iota. eauto.
Qed.

(** X4: [get_filename_from_content_disposition] finds no name exactly when
    no occurrence of [filename=] in the header is followed by a character
    that is neither white space nor a semicolon. *)
Theorem filename_missing_iff (header_value : str) :
  get_filename_from_content_disposition header_value = None
  <-> forall a c rest,
        header_value = a ++ str_of "filename=" ++ c :: rest ->
        token_char c = false.
Proof.
  split.
  - intros H a c rest E.
    assert (Hn : header_value <> []) by (rewrite E; destruct a; discriminate).
    rewrite (get_filename_not_nil _ Hn) in H.
    destruct (re_search match_quoted_filename_at header_value);
      [discriminate|].
    pose proof (proj1 (re_search_none _ _) H a _ E) as Hm.
    destruct (token_char c) eqn:Ec; [|reflexivity].
    assert (K : match_plain_filename_at (str_of "filename=" ++ c :: rest)
                = Some (c :: take_while token_char rest)).
    { unfold match_plain_filename_at.
      change (lit "filename=") with (map N.eqb (str_of "filename=")).
      assert (E1 : match_prefix (map N.eqb (str_of "filename="))
                     (str_of "filename=" ++ c :: rest) = Some (c :: rest))
        by (apply match_prefix_eqb; reflexivity).
      rewrite E1. cbn [take_while]. rewrite Ec. reflexivity. }
    rewrite K in Hm. discriminate.
  - intros H. destruct header_value as [|h0 h]; [reflexivity|].
    rewrite get_filename_not_nil by discriminate.
    assert (P : re_search match_plain_filename_at (h0 :: h) = None).
    { apply re_search_none. intros a b E.
      destruct (match_plain_filename_at b) as [g|] eqn:Eb; [|reflexivity].
      apply match_plain_spec in Eb.
      destruct Eb as (Hg & Ha & rest & -> & _).
      destruct g as [|c g]; [contradiction|].
      cbn [forallb] in Ha. rewrite (H a c (g ++ rest) E) in Ha.
      discriminate. }
    destruct (re_search match_quoted_filename_at (h0 :: h)) as [g|] eqn:Q;
      [|exact P].
    exfalso. apply re_search_some in Q. destruct Q as (a & b & E & Hb).
    destruct (quoted_is_token_start _ _ Hb) as [g' Hg'].
    rewrite (proj1 (re_search_none _ _) P a b E) in Hg'. discriminate.
Qed.

(** X5: The name that [get_filename_from_content_disposition] returns is
    never empty and stands in the header after [filename=]: either between
    two double quotes, with no double quote inside, or bare, made of
    characters that are neither white space nor a semicolon and running up
    to the first such character or the end. *)
Theorem filename_found_shape (header_value name : str) :
  get_filename_from_content_disposition header_value = Some name ->
  name <> []
  /\ ((forallb not_quote name = true
       /\ exists a rest,
            header_value = a ++ str_of "filename=" ++ 34 :: name ++ 34 :: rest)
      \/ (forallb token_char name = true
          /\ re_search match_quoted_filename_at header_value = None
          /\ exists a rest,
               header_value = a ++ str_of "filename=" ++ name ++ rest
               /\ (rest = [] \/ exists c r, rest = c :: r
                                            /\ token_char c = false))).
Proof.
  intros H. destruct header_value as [|h0 h]; [discriminate|].
  rewrite get_filename_not_nil in H by discriminate.
  destruct (re_search match_quoted_filename_at (h0 :: h)) as [g|] eqn:Q.
  - apply Some_inj in H. subst g. apply re_search_some in Q.
    destruct Q as (a & b & E & Hb). apply match_quoted_spec in Hb.
    destruct Hb as (Hg & Ha & rest & ->).
    split; [exact Hg|]. left. split; [exact Ha|]. eauto.
  - apply re_search_some in H. destruct H as (a & b & E & Hb).
    apply match_plain_spec in Hb. destruct Hb as (Hg & Ha & rest & -> & Hr).
    split; [exact Hg|]. right. split; [exact Ha|]. split; [reflexivity|].
    eauto.
Qed.

Lemma quoted_found (pre name rest : str) :
  has_char 61 pre = false -> name <> [] -> forallb not_quote name = true ->
  re_search match_quoted_filename_at
    (pre ++ str_of "filename=" ++ 34 :: name ++ 34 :: rest) = Some name.
Proof.
  intros Hp Hn Ha. apply re_search_leftmost.
  - apply match_quoted_spec. eauto.
  - intros x y Hy E.
    destruct (match_quoted_filename_at _) as [g|] eqn:Eg; [|reflexivity].
    exfalso. apply match_quoted_spec in Eg. destruct Eg as (_ & _ & r & Er).
    apply (no_early_filename y _ _ Hy) in Er; [exact Er|].
    rewrite E, has_char_app in Hp. apply orb_false_iff in Hp. tauto.
Qed.

(** X6: A header that gives the file name between double quotes, with no
    equals sign before the word filename: the name is returned as it stands,
    and the type read from the header is the type of that name. *)
Theorem quoted_filename_extracted (pre name rest : str) :
  has_char 61 pre = false -> name <> [] -> forallb not_quote name = true ->
  let header_value :=
    pre ++ str_of "filename=" ++ 34 :: name ++ 34 :: rest in
  get_filename_from_content_disposition header_value = Some name
  /\ detect_file_type_from_header header_value
     = detect_file_type_from_path name.
Proof.
  intros Hp Hn Ha header_value.
  assert (E : get_filename_from_content_disposition header_value = Some name).
  { unfold header_value. rewrite get_filename_not_nil.
    - rewrite (quoted_found pre name rest Hp Hn Ha). reflexivity.
    - destruct pre; discriminate. }
  split; [exact E|]. unfold detect_file_type_from_header. rewrite E.
  destruct name; [contradiction | reflexivity].
Qed.

(** X7: A header without double quote that gives the file name bare, with no
    equals sign before the word filename: the name is returned up to the
    first white space or semicolon. *)
Theorem plain_filename_extracted (pre name rest : str) :
  has_char 61 pre = false ->
  has_char 34 (pre ++ name ++ rest) = false ->
  name <> [] -> forallb token_char name = true ->
  (rest = [] \/ exists c r, rest = c :: r /\ token_char c = false) ->
  let header_value := pre ++ str_of "filename=" ++ name ++ rest in
  get_filename_from_content_disposition header_value = Some name
  /\ detect_file_type_from_header header_value
     = detect_file_type_from_path name.
Proof.
  intros Hp Hq Hn Ha Hr header_value.
  assert (E : get_filename_from_content_disposition header_value = Some name).
  { unfold header_value. rewrite get_filename_not_nil
      by (destruct pre; discriminate).
    destruct (re_search match_quoted_filename_at _) as [g|] eqn:Q.
    - apply quoted_needs_quote in Q. rewrite !has_char_app in Q, Hq.
      apply orb_false_iff in Hq. destruct Hq as [H1 H2].
      rewrite has_char_app in Q. rewrite H1, H2 in Q.
      change (has_char 34 (str_of "filename=")) with false in Q.
      discriminate Q.
    - apply re_search_leftmost.
      + apply match_plain_spec. eauto.
      + intros x y Hy Ex.
        destruct (match_plain_filename_at _) as [g|] eqn:Eg; [|reflexivity].
        exfalso. apply match_plain_spec in Eg.
        destruct Eg as (_ & _ & r & Er & _).
        apply (no_early_filename y _ _ Hy) in Er; [exact Er|].
        rewrite Ex, has_char_app in Hp. apply orb_false_iff in Hp. tauto. }
  split; [exact E|]. unfold detect_file_type_from_header. rewrite E.
  destruct name; [contradiction | reflexivity].
Qed.

Lemma str_in_In (x : str) (l : list str) : str_in x l = true -> In x l.
Proof.
  unfold str_in. rewrite existsb_exists. intros (y & Hy & E).
  apply str_eqb_eq in E. subst y. exact Hy.
Qed.

Lemma path_type_names (path t : str) :
  detect_file_type_from_path path = Some t -> In t filetype_names.
Proof.
  unfold detect_file_type_from_path.
  repeat match goal with
         | |- context [endswith ?e ?s] => destruct (endswith e s); cbn [orb]
         end;
    intros H; try discriminate H; apply Some_inj in H; subst t; cbn; tauto.
Qed.

Lemma match_id_at_chars (pre : list (N -> bool)) (s id : str) :
  match_id_at pre s = Some id -> id <> [] /\ forallb id_char id = true.
Proof.
  unfold match_id_at. destruct (match_prefix pre s) as [rest|]; [|discriminate].
  pose proof (take_while_all id_char rest) as Ha.
  destruct (take_while id_char rest) as [|c r]; [discriminate|].
  intros H. apply Some_inj in H. subst id. split; [discriminate | exact Ha].
Qed.

Lemma search_id_chars (pre : list (N -> bool)) (s id : str) :
  search_id pre s = Some id -> id <> [] /\ forallb id_char id = true.
Proof.
  induction s as [|c s IH]; cbn [search_id].
  - destruct (match_id_at pre []) eqn:E; [|discriminate].
    intros H. apply Some_inj in H. subst. exact (match_id_at_chars _ _ _ E).
  - destruct (match_id_at pre (c :: s)) eqn:E; [|exact IH].
    intros H. apply Some_inj in H. subst. exact (match_id_at_chars _ _ _ E).
Qed.

Lemma find_file_id_chars (url id : str) :
  find_file_id url = Some id -> id <> [] /\ forallb id_char id = true.
Proof.
  unfold find_file_id.
  destruct (search_id re_file_d url) eqn:E1.
  { intros H. apply Some_inj in H. subst. exact (search_id_chars _ _ _ E1). }
  destruct (search_id re_open_id url) eqn:E2.
  { intros H. apply Some_inj in H. subst. exact (search_id_chars _ _ _ E2). }
  apply search_id_chars.
Qed.

Lemma convert_google_drive_url_true (url d : str) :
  convert_google_drive_url url = (d, true) ->
  exists id, find_file_id url = Some id /\ d = gdrive_direct_url id.
Proof.
  unfold convert_google_drive_url.
  destruct (_ && _); [discriminate|]. destruct (_ && _); [discriminate|].
  destruct (find_file_id url) as [id|]; [|discriminate].
  intros H. injection H as <-. eauto.
Qed.

Lemma id_char_bounds (c : N) :
  id_char c = true -> 45 <= c <= 122 /\ c <> 46 /\ c <> 47 /\ c <> 58
                      /\ c <> 59 /\ c <> 61 /\ c <> 63 /\ c <> 64.
Proof.
  unfold id_char, is_lower_ascii, is_upper_ascii, is_digit, in_range.
  cmp_all; intros H; try discriminate H; lia.
Qed.

Lemma id_chars_forallb (p : N -> bool) (id : str) :
  (forall c, 45 <= c <= 122 -> c <> 46 -> c <> 47 -> c <> 58 -> c <> 59 ->
             c <> 61 -> c <> 63 -> c <> 64 -> p c = true) ->
  forallb id_char id = true -> forallb p id = true.
Proof.
  intros Hp. induction id as [|c id IH]; [reflexivity|].
  cbn [forallb]. rewrite andb_true_iff. intros [Hc Hr].
  apply id_char_bounds in Hc. rewrite Hp by tauto. auto.
Qed.

Lemma id_chars_no (x : N) (id : str) :
  id_char x = false -> forallb id_char id = true -> has_char x id = false.
Proof. intros Hx H. exact (has_char_forallb id_char x id H Hx). Qed.

Lemma parse_qsl_not_nil (keep : bool) (qs : str) :
  qs <> [] -> parse_qsl keep qs = flat_map (parse_field keep) (split 38 qs).
Proof. destruct qs; [contradiction | reflexivity]. Qed.

Lemma gdrive_query_fields (id : str) :
  forallb id_char id = true ->
  parse_qsl false (gdrive_query id)
  = parse_field false (str_of "id=" ++ id)
    ++ [(str_of "export", str_of "download"); (str_of "confirm", str_of "t")].
Proof.
  intros Hid. rewrite parse_qsl_not_nil by discriminate.
  assert (E : gdrive_query id
              = (str_of "id=" ++ id)
                  ++ 38 :: str_of "export=download&confirm=t").
  { unfold gdrive_query. rewrite <- app_assoc. reflexivity. }
  rewrite E, split_app.
  - cbn [flat_map]. f_equal.
  - rewrite has_char_app. rewrite (id_chars_no 38 id eq_refl Hid).
    reflexivity.
Qed.

Lemma gdrive_query_no_filetype (id : str) :
  forallb id_char id = true ->
  dict_get (parse_qs (gdrive_query id)) (str_of "filetype") = None.
Proof.
  intros Hid.
  pose proof (dict_get_parse_qs (gdrive_query id) (str_of "filetype")) as H.
  rewrite (gdrive_query_fields id Hid) in H.
  assert (F : field_values (str_of "filetype")
                (parse_field false (str_of "id=" ++ id)
                 ++ [(str_of "export", str_of "download");
                     (str_of "confirm", str_of "t")]) = []).
  { unfold parse_field. cbn [str_of app].
    change (N_of_ascii "i") with 105. change (N_of_ascii "d") with 100.
    change (N_of_ascii "=") with 61.
    cbn [split_once N.eqb Pos.eqb].
    destruct (negb (length id =? 0)%nat || false); reflexivity. }
  rewrite F in H.
  destruct (dict_get (parse_qs (gdrive_query id)) (str_of "filetype"))
    as [vs|] eqn:Eg; [|reflexivity].
  exfalso. subst vs.
  exact (dict_get_ok _ _ _ (parse_qs_ok _) Eg eq_refl).
Qed.

Section UrlTypeFacts.

Variable bracketed_netloc_ok : str -> bool.
Variable nfkc_netloc_ok : str -> bool.

Local Abbreviation urlsplit' := (urlsplit bracketed_netloc_ok nfkc_netloc_ok).
Local Abbreviation urlparse' := (urlparse bracketed_netloc_ok nfkc_netloc_ok).
Local Abbreviation detect_file_type' :=
  (detect_file_type bracketed_netloc_ok nfkc_netloc_ok).
Local Abbreviation convert_dropbox_url' :=
  (convert_dropbox_url bracketed_netloc_ok nfkc_netloc_ok).

(** X8: [detect_file_type] raises exactly when [urlparse] refuses the URL:
    when [urlparse] raises, so does [detect_file_type], with [ValueError];
    and whatever [detect_file_type] raises is the [ValueError] of
    [urlparse], so that it returns whenever [urlparse] does. The first
    value of a parameter always exists, so no [IndexError] can come up. A
    type it returns is one of the eight names. *)
Theorem url_type_outcome (url : str) :
  (forall e, urlparse' url = Raise e ->
             detect_file_type' url = Raise ValueError)
  /\ (forall e, detect_file_type' url = Raise e ->
                e = ValueError /\ urlparse' url = Raise ValueError)
  /\ (returns (urlparse' url) <-> returns (detect_file_type' url))
  /\ (forall t, detect_file_type' url = Ok (Some t) -> In t filetype_names).
Proof.
  destruct (urlparse' url) as [p|e0] eqn:Ep.
  - rewrite (detect_file_type_parsed _ _ url p Ep).
    split; [discriminate|]. split; [discriminate|].
    split; [split; intros _; eexists; reflexivity|].
    intros t H. apply Ok_inj in H.
    destruct (dict_get _ _) as [[|v vs]|].
    + exact (path_type_names _ _ H).
    + destruct (str_in (lower v) filetype_names) eqn:Ei.
      * apply Some_inj in H. subst t. exact (str_in_In _ _ Ei).
      * exact (path_type_names _ _ H).
    + exact (path_type_names _ _ H).
  - assert (Ed : detect_file_type' url = Raise e0)
      by (unfold detect_file_type; rewrite Ep; reflexivity).
    rewrite Ed.
    assert (e0 = ValueError).
    { apply (urlsplit_raise bracketed_netloc_ok nfkc_netloc_ok url).
      apply urlparse_raise. exact Ep. }
    subst e0. split; [reflexivity|]. split.
    + intros e H. injection H as <-. auto.
    + split; [split; intros [a Ha]; discriminate | discriminate].
Qed.

(** X9: The [filetype] parameter of the query goes first: when its first
    value is, in lowercase, one of the eight names, that name is the answer,
    whatever the path says. Otherwise the answer is what
    [detect_file_type_from_path] reads from the path of the URL: query,
    fragment and path parameters play no part, and the test for a dot and
    the cut at the last slash change nothing. *)
Theorem url_type_parameter_then_path (url : str) (p : ParseResult) :
  urlparse' url = Ok p ->
  (forall v vs,
     dict_get (parse_qs (query p)) (str_of "filetype") = Some (v :: vs) ->
     str_in (lower v) filetype_names = true ->
     detect_file_type' url = Ok (Some (lower v)))
  /\ (forall v vs,
        dict_get (parse_qs (query p)) (str_of "filetype") = Some (v :: vs) ->
        str_in (lower v) filetype_names = false ->
        detect_file_type' url = Ok (detect_file_type_from_path (path p)))
  /\ (dict_get (parse_qs (query p)) (str_of "filetype") = None ->
      detect_file_type' url = Ok (detect_file_type_from_path (path p))).
Proof.
  intros Ep. rewrite (detect_file_type_parsed _ _ url p Ep).
  split; [|split].
  - intros v vs -> ->. reflexivity.
  - intros v vs -> ->. reflexivity.
  - intros ->. reflexivity.
Qed.

Lemma rewritten_url_type (url q : str) (p : ParseResult) :
  urlparse' url = Ok p ->
  urlencode (dict_set (parse_qs (query p)) (str_of "dl") [str_of "1"]) = Ok q ->
  detect_file_type'
    (urlunparse (scheme p) (netloc p) (path p) (params p) q (fragment p))
  = detect_file_type' url.
Proof.
  intros Ep Eq.
  destruct (rewritten_url_parsed _ _ url q p Ep Eq) as [Ep1 Eq1].
  rewrite (detect_file_type_parsed _ _ _ _ Ep1).
  rewrite (detect_file_type_parsed _ _ url p Ep).
  cbn [query path]. rewrite Eq1.
  rewrite dict_get_set_other by discriminate. reflexivity.
Qed.

(** X10: The Dropbox rewrite does not change the type read from the URL: the
    path is kept, and so is the [filetype] parameter. *)
Theorem dropbox_rewrite_keeps_type (url url1 : str) (flag : bool) :
  convert_dropbox_url' url = Ok (url1, flag) ->
  detect_file_type' url1 = detect_file_type' url.
Proof.
  intros H. destruct (is_dropbox_url url) eqn:Hd.
  2:{ unfold convert_dropbox_url in H. unfold is_dropbox_url in Hd.
      rewrite Hd in H. cbn [negb] in H. apply Ok_inj in H.
      injection H as <- _. reflexivity. }
  destruct (urlparse' url) as [p|e] eqn:Ep.
  2:{ unfold convert_dropbox_url in H. unfold is_dropbox_url in Hd.
      rewrite Hd, Ep in H. discriminate H. }
  rewrite (convert_dropbox_url_parsed _ _ url p Hd Ep) in H.
  destruct (already_direct (parse_qs (query p))).
  { apply Ok_inj in H. injection H as <- _. reflexivity. }
  destruct (urlencode _) as [q|e] eqn:Eq; [|discriminate H].
  cbn [bind] in H. apply Ok_inj in H. injection H as <- _.
  exact (rewritten_url_type url q p Ep Eq).
Qed.

Lemma gdrive_direct_url_parsed (id : str) :
  forallb id_char id = true ->
  urlparse' (gdrive_direct_url id)
  = Ok (mkParse (str_of "https") (str_of "drive.usercontent.google.com")
          (str_of "/download") [] (gdrive_query id) []).
Proof.
  intros Hid.
  assert (Es : urlsplit' (gdrive_direct_url id)
               = Ok (mkSplit (str_of "https")
                       (str_of "drive.usercontent.google.com")
                       (str_of "/download") (gdrive_query id) [])).
  { change (gdrive_direct_url id)
      with (urlunsplit (str_of "https") (str_of "drive.usercontent.google.com")
              (str_of "/download") (gdrive_query id) []).
    apply urlsplit_urlunsplit.
    - unfold components_wf. repeat split; try reflexivity; try discriminate.
      + right. exists 104, (str_of "ttps"). repeat split; reflexivity.
      + intros _. right. exists (str_of "download"). reflexivity.
    - unfold gdrive_query. rewrite !forallb_app.
      rewrite (id_chars_forallb query_char id); [reflexivity| |exact Hid].
      intros c ? ? ? ? ? ? ? ?. unfold query_char. cmp_all; reflexivity.
    - discriminate. }
  rewrite urlparse_eq, Es. reflexivity.
Qed.

Lemma detect_file_type_direct_url (id : str) :
  forallb id_char id = true ->
  detect_file_type' (gdrive_direct_url id) = Ok None.
Proof.
  intros Hid.
  rewrite (detect_file_type_parsed _ _ _ _ (gdrive_direct_url_parsed id Hid)).
  cbn [query path]. rewrite (gdrive_query_no_filetype id Hid). reflexivity.
Qed.

(** X11: A rewritten Google Drive link never tells the file type: its path
    has no extension and its query no [filetype] parameter, so the type of
    such a download always comes from the header or from the content. *)
Theorem gdrive_link_type_unknown (url direct_url : str) :
  convert_google_drive_url url = (direct_url, true) ->
  detect_file_type' direct_url = Ok None.
Proof.
  intros H. apply convert_google_drive_url_true in H.
  destruct H as (id & Hf & ->). apply find_file_id_chars in Hf.
  destruct Hf as [_ Hid]. exact (detect_file_type_direct_url id Hid).
Qed.

End UrlTypeFacts.

(** ** Google Drive links *)

Lemma contains_iff (p s : str) :
  contains p s = true <-> exists a b, s = a ++ p ++ b.
Proof.
  induction s as [|c s IH]; cbn [contains].
  - rewrite orb_false_r, startswith_iff. split.
    + intros [t H]. exists [], t. exact H.
    + intros (a & b & H). destruct a; [|discriminate]. exists b. exact H.
  - rewrite orb_true_iff, startswith_iff, IH. split.
    + intros [[t H] | (a & b & H)].
      * exists [], t. exact H.
      * exists (c :: a), b. rewrite H. reflexivity.
    + intros (a & b & H). destruct a as [|x a].
      * left. exists b. exact H.
      * right. injection H as -> H. eauto.
Qed.

Lemma contains_app_l (p a b : str) :
  contains p a = true -> contains p (a ++ b) = true.
Proof.
  rewrite !contains_iff. intros (x & y & ->). exists x, (y ++ b).
  rewrite <- !app_assoc. reflexivity.
Qed.

Lemma contains_app_r (p a b : str) :
  contains p b = true -> contains p (a ++ b) = true.
Proof.
  rewrite !contains_iff. intros (x & y & ->). exists (a ++ x), y.
  rewrite <- !app_assoc. reflexivity.
Qed.

Lemma contains_has_char (c : N) (p s : str) :
  has_char c p = true -> contains p s = true -> has_char c s = true.
Proof.
  intros Hc H. apply contains_iff in H. destruct H as (a & b & ->).
  rewrite !has_char_app, Hc. rewrite orb_true_r. reflexivity.
Qed.

Lemma lower_app (a b : str) : lower (a ++ b) = lower a ++ lower b.
Proof. apply flat_map_app. Qed.

Lemma lower_id_chars (id : str) :
  forallb id_char id = true -> forallb id_char (lower id) = true.
Proof.
  induction id as [|c id IH]; [reflexivity|].
  cbn [forallb]. rewrite andb_true_iff. intros [Hc Hr].
  change (lower (c :: id)) with (lower_cp c ++ lower id).
  rewrite forallb_app, (IH Hr), andb_true_r.
  pose proof (id_char_bounds c Hc) as Hb.
  unfold lower_cp, is_upper_ascii, in_range.
  destruct (N.leb_spec 65 c); destruct (N.leb_spec c 90); cbn [andb].
  - cbn [forallb]. rewrite andb_true_r.
    unfold id_char, is_lower_ascii, is_upper_ascii, is_digit, in_range.
    cmp_all; reflexivity.
  - destruct (N.leb_spec 192 c); [lia|]. cbn [andb].
    destruct (N.eqb_spec c 0x130); [lia|].
    destruct (N.eqb_spec c 0x212A); [lia|].
    cbn [forallb]. rewrite Hc. reflexivity.
  - destruct (N.leb_spec 192 c); [lia|]. cbn [andb].
    destruct (N.eqb_spec c 0x130); [lia|].
    destruct (N.eqb_spec c 0x212A); [lia|].
    cbn [forallb]. rewrite Hc. reflexivity.
  - lia.
Qed.

Lemma id_chars_not_contains (c : N) (p x : str) :
  id_char c = false -> has_char c p = true -> forallb id_char x = true ->
  contains p x = false.
Proof.
  intros Hc Hp Hx. destruct (contains p x) eqn:E; [|reflexivity].
  pose proof (contains_has_char c p x Hp E) as K.
  rewrite (id_chars_no c x Hc Hx) in K. discriminate.
Qed.

Lemma search_id_skip (pre : list (N -> bool)) (c : N) (s : str) :
  match_id_at pre (c :: s) = None ->
  search_id pre (c :: s) = search_id pre s.
Proof. intros H. cbn [search_id]. rewrite H. reflexivity. Qed.

Lemma search_id_skip_chars (p0 : N -> bool) (pre : list (N -> bool))
      (x rest : str) :
  (forall c, id_char c = true -> p0 c = false) ->
  forallb id_char x = true ->
  search_id (p0 :: pre) (x ++ rest) = search_id (p0 :: pre) rest.
Proof.
  intros Hp. induction x as [|c x IH]; [reflexivity|].
  cbn [forallb]. rewrite andb_true_iff. intros [Hc Hx].
  cbn [app]. rewrite search_id_skip.
  - exact (IH Hx).
  - unfold match_id_at. cbn [match_prefix]. rewrite (Hp c Hc). reflexivity.
Qed.

Lemma search_id_id_chars (p0 : N -> bool) (pre : list (N -> bool)) (x : str) :
  (forall c, id_char c = true -> p0 c = false) ->
  forallb id_char x = true ->
  search_id (p0 :: pre) x = None.
Proof.
  intros Hp Hx. rewrite <- (app_nil_r x).
  rewrite (search_id_skip_chars p0 pre x [] Hp Hx). reflexivity.
Qed.

Lemma slash_not_id (c : N) : id_char c = true -> N.eqb 47 c = false.
Proof. intros H. apply id_char_bounds in H. apply N.eqb_neq. lia. Qed.

Lemma query_mark_not_id (c : N) :
  id_char c = true -> (c =? 63) || (c =? 38) = false.
Proof.
  intros H. apply id_char_bounds in H.
  destruct (N.eqb_spec c 63); [lia|]. destruct (N.eqb_spec c 38); [lia|].
  reflexivity.
Qed.

Lemma find_file_id_id_chars (x : str) :
  forallb id_char x = true -> find_file_id x = None.
Proof.
  intros Hx. unfold find_file_id, re_file_d, re_open_id, re_query_id.
  change (lit "/file/d/") with (N.eqb 47 :: lit "file/d/").
  change (lit "/open?id=") with (N.eqb 47 :: lit "open?id=").
  rewrite !search_id_id_chars; auto using slash_not_id, query_mark_not_id.
Qed.

Ltac skip_prefix :=
  repeat (rewrite search_id_skip by reflexivity).

Lemma find_file_id_direct (id : str) :
  id <> [] -> forallb id_char id = true ->
  find_file_id (gdrive_direct_url id) = Some id.
Proof.
  intros Hn Hid. unfold find_file_id, gdrive_direct_url.
  assert (E1 : search_id re_file_d
                 (str_of "https://drive.usercontent.google.com/download?id="
                  ++ id ++ str_of "&export=download&confirm=t") = None).
  { cbn [str_of app]. skip_prefix.
    unfold re_file_d. change (lit "/file/d/") with (N.eqb 47 :: lit "file/d/").
    rewrite search_id_skip_chars by auto using slash_not_id. reflexivity. }
  assert (E2 : search_id re_open_id
                 (str_of "https://drive.usercontent.google.com/download?id="
                  ++ id ++ str_of "&export=download&confirm=t") = None).
  { cbn [str_of app]. skip_prefix.
    unfold re_open_id.
    change (lit "/open?id=") with (N.eqb 47 :: lit "open?id=").
    rewrite search_id_skip_chars by auto using slash_not_id. reflexivity. }
  rewrite E1, E2. cbn [str_of app]. skip_prefix.
  cbn [search_id]. unfold match_id_at.
  match goal with
  | |- context [match_prefix re_query_id ?s] =>
      assert (E3 : match_prefix re_query_id s
                   = Some (id ++ str_of "&export=download&confirm=t"))
        by reflexivity;
      rewrite E3
  end.
  destruct (take_drop_while_stop id_char id
              (str_of "&export=download&confirm=t") Hid) as [-> _].
  { right. exists 38, (str_of "export=download&confirm=t").
    split; reflexivity. }
  destruct id; [contradiction | reflexivity].
Qed.

Lemma strip_id (c d : N) (s : str) :
  is_space c = false -> is_space d = false ->
  strip (c :: s ++ [d]) = c :: s ++ [d].
Proof.
  intros Hc Hd. unfold strip, lstrip_with, rstrip_with.
  cbn [drop_while]. rewrite Hc.
  change (c :: s ++ [d]) with ((c :: s) ++ [d]).
  rewrite rev_app_distr. cbn [rev app drop_while]. rewrite Hd.
  change (rev ([d] ++ rev (c :: s)) = (c :: s) ++ [d]).
  rewrite rev_app_distr, rev_involutive. reflexivity.
Qed.

Lemma contains_skip (p : str) (c : N) (s : str) :
  startswith p (c :: s) = false -> contains p (c :: s) = contains p s.
Proof. intros H. cbn [contains]. rewrite H. reflexivity. Qed.

Lemma startswith_id_chars (b p x : str) :
  forallb id_char x = true ->
  existsb (fun c => negb (id_char c)) p = true -> has_char 38 p = false ->
  startswith p (x ++ 38 :: b) = false.
Proof.
  revert p. induction x as [|a x IH]; intros p Hx Hp Hq.
  - destruct p as [|c p]; [discriminate|]. cbn [app startswith].
    unfold has_char in Hq. cbn [existsb] in Hq.
    apply orb_false_iff in Hq. destruct Hq as [Hq _].
    rewrite N.eqb_sym, Hq. reflexivity.
  - destruct p as [|c p]; [discriminate|]. cbn [app startswith].
    cbn [forallb] in Hx. apply andb_true_iff in Hx. destruct Hx as [Ha Hx].
    destruct (N.eqb_spec c a) as [->|]; [|reflexivity]. cbn [andb].
    apply IH; [exact Hx | |].
    + cbn [existsb] in Hp. rewrite Ha in Hp. exact Hp.
    + unfold has_char in *. cbn [existsb] in Hq.
      apply orb_false_iff in Hq. tauto.
Qed.

Lemma contains_skip_id_chars (b p x : str) :
  forallb id_char x = true ->
  existsb (fun c => negb (id_char c)) p = true -> has_char 38 p = false ->
  contains p (x ++ 38 :: b) = contains p (38 :: b).
Proof.
  intros Hx Hp Hq. induction x as [|a x IH]; [reflexivity|].
  cbn [app]. rewrite contains_skip.
  - apply IH. cbn [forallb] in Hx. apply andb_true_iff in Hx. tauto.
  - exact (startswith_id_chars b p (a :: x) Hx Hp Hq).
Qed.

Lemma gdrive_direct_url_facts (id : str) :
  forallb id_char id = true ->
  strip (gdrive_direct_url id) = gdrive_direct_url id
  /\ contains (str_of "http") (lower (gdrive_direct_url id)) = true
  /\ contains (str_of "drive.usercontent.google.com")
       (lower (gdrive_direct_url id)) = true
  /\ contains (str_of "confirm=t") (lower (gdrive_direct_url id)) = true
  /\ contains (str_of "dropbox.com") (lower (gdrive_direct_url id)) = false
  /\ is_github_url (gdrive_direct_url id) = false.
Proof.
  intros Hid. unfold is_github_url, gdrive_direct_url.
  split.
  { assert (E : str_of "https://drive.usercontent.google.com/download?id="
                ++ id ++ str_of "&export=download&confirm=t"
                = 104 :: (str_of "ttps://drive.usercontent.google.com/download?id="
                          ++ id ++ str_of "&export=download&confirm=") ++ [116]).
    { rewrite <- !app_assoc. reflexivity. }
    rewrite E. apply strip_id; reflexivity. }
  rewrite !lower_app.
  split; [apply contains_app_l; reflexivity|].
  split; [apply contains_app_l; reflexivity|].
  split; [apply contains_app_r, contains_app_r; reflexivity|].
  pose proof (lower_id_chars id Hid) as Hl.
  set (x := lower id) in *. clearbody x.
  set (a := lower (str_of "https://drive.usercontent.google.com/download?id=")).
  set (b := lower (str_of "&export=download&confirm=t")).
  vm_compute in a, b. subst a b. cbn [app].
  split; [|apply orb_false_iff; split];
    repeat (rewrite contains_skip by reflexivity);
    rewrite (contains_skip_id_chars _ _ _ Hl) by reflexivity;
    reflexivity.
Qed.

Lemma convert_direct_url (id : str) :
  forallb id_char id = true ->
  convert_google_drive_url (gdrive_direct_url id) = (gdrive_direct_url id, false).
Proof.
  intros Hid.
  destruct (gdrive_direct_url_facts id Hid) as (_ & _ & H1 & H2 & _).
  unfold convert_google_drive_url. rewrite H1, H2.
  rewrite orb_true_r || idtac. cbn [negb andb].
  destruct (negb _); reflexivity.
Qed.

Lemma convert_google_drive_url_false (url d : str) :
  convert_google_drive_url url = (d, false) -> d = url.
Proof.
  unfold convert_google_drive_url.
  destruct (_ && _); [intros H; injection H; auto|].
  destruct (_ && _); [intros H; injection H; auto|].
  destruct (find_file_id url); [discriminate|]. intros H; injection H; auto.
Qed.

(** X12: [convert_google_drive_url] is idempotent: the address it returns,
    rewritten or not, is returned unchanged by a second call. *)
Theorem gdrive_rewrite_idempotent (url : str) :
  convert_google_drive_url (fst (convert_google_drive_url url))
  = (fst (convert_google_drive_url url), false).
Proof.
  destruct (convert_google_drive_url url) as [d [|]] eqn:E.
  - destruct (convert_google_drive_url_true _ _ E) as (id & Hf & ->).
    cbn [fst]. apply convert_direct_url.
    exact (proj2 (find_file_id_chars _ _ Hf)).
  - cbn [fst]. pose proof (convert_google_drive_url_false _ _ E) as K.
    subst d. exact E.
Qed.

Lemma extract_direct_url (id : str) :
  id <> [] -> forallb id_char id = true ->
  extract_gdrive_file_id (gdrive_direct_url id) = Some id.
Proof.
  intros Hn Hid.
  destruct (gdrive_direct_url_facts id Hid) as (Hs & Hh & _).
  unfold extract_gdrive_file_id. rewrite Hs, Hh. cbn [orb].
  exact (find_file_id_direct id Hn Hid).
Qed.

(** X13: The identifier survives the rewrite: when
    [convert_google_drive_url] rewrites a URL, the new address is the
    direct-download address of the identifier found in the URL, a non-empty
    run of identifier characters, and [extract_gdrive_file_id] reads that
    identifier back from it. *)
Theorem gdrive_rewrite_keeps_id (url direct_url : str) :
  convert_google_drive_url url = (direct_url, true) ->
  exists file_id,
    find_file_id url = Some file_id
    /\ file_id <> [] /\ forallb id_char file_id = true
    /\ direct_url = gdrive_direct_url file_id
    /\ extract_gdrive_file_id direct_url = Some file_id.
Proof.
  intros H. destruct (convert_google_drive_url_true _ _ H) as (id & Hf & ->).
  destruct (find_file_id_chars _ _ Hf) as [Hn Hid].
  exists id. repeat split; auto. exact (extract_direct_url id Hn Hid).
Qed.

(** Whatever the input, an identifier that [extract_gdrive_file_id] returns
    is a non-empty run of letters, digits, underscores and hyphens. *)
Lemma extract_gdrive_file_id_chars (input_str file_id : str) :
  extract_gdrive_file_id input_str = Some file_id ->
  file_id <> [] /\ forallb id_char file_id = true.
Proof.
  unfold extract_gdrive_file_id.
  destruct (_ || _); [apply find_file_id_chars|].
  destruct (match_bare_id (strip input_str)) eqn:Em; [|discriminate].
  destruct (10 <? length (strip input_str))%nat; [|discriminate].
  cbn [andb]. intros H. apply Some_inj in H. subst file_id.
  apply match_bare_id_spec; [apply strip_no_final_newline | exact Em].
Qed.

(** X14: On an input that is, once trimmed, made of identifier characters
    only: it is accepted as a file identifier exactly when it is longer than
    10 characters and does not spell http, in any case, anywhere; an
    identifier that holds these four letters in a row is refused. *)
Theorem identifier_input (input_str : str) :
  let trimmed := strip input_str in
  forallb id_char trimmed = true ->
  extract_gdrive_file_id input_str =
    if (10 <? length trimmed)%nat
       && negb (contains (str_of "http") (lower trimmed))
    then Some trimmed else None.
Proof.
  intros trimmed Hid. unfold extract_gdrive_file_id. fold trimmed.
  assert (Hd : contains (str_of "drive.google.com") (lower trimmed) = false).
  { apply (id_chars_not_contains 46); [reflexivity | reflexivity |].
    apply lower_id_chars. exact Hid. }
  rewrite Hd, orb_false_r.
  destruct (contains (str_of "http") (lower trimmed)).
  - rewrite andb_false_r. apply find_file_id_id_chars. exact Hid.
  - rewrite andb_true_r.
    destruct trimmed as [|c t] eqn:Et; [reflexivity|].
    assert (Em : match_bare_id (c :: t) = true).
    { apply match_bare_id_spec.
      - rewrite <- Et. apply strip_no_final_newline.
      - split; [discriminate | exact Hid]. }
    rewrite Em. reflexivity.
Qed.

(** ** Proxy addresses *)

Lemma quote_escaped (s e : str) :
  quote s (fun _ => false) = Ok e -> forallb escaped_char e = true.
Proof.
  unfold quote. destruct s as [|c s].
  - intros H. apply Ok_inj in H. subst e. reflexivity.
  - destruct (utf8_encode (c :: s)) as [bs|] eqn:Eb; [|discriminate].
    intros H. apply Ok_inj in H. subst e.
    pose proof (quote_from_bytes_chars (fun _ => false) bs
                  (utf8_encode_bytes _ _ Eb)) as Hq.
    revert Hq. generalize (quote_from_bytes bs (fun _ => false)).
    intros q. induction q as [|x q IH]; [reflexivity|].
    cbn [forallb]. rewrite !andb_true_iff. intros [Hx Hq].
    split; [|exact (IH Hq)].
    unfold quoted_char in Hx. apply andb_true_iff in Hx. destruct Hx as [_ Hx].
    rewrite orb_false_r in Hx. exact Hx.
Qed.

Lemma quote_not_nil (s e : str) (safe : N -> bool) :
  s <> [] -> quote s safe = Ok e -> e <> [].
Proof.
  intros Hs. unfold quote. destruct s as [|c s]; [contradiction|].
  destruct (utf8_encode (c :: s)) as [bs|] eqn:Eb; [|discriminate].
  intros H. apply Ok_inj in H. subst e.
  destruct bs as [|b bs].
  - apply utf8_encode_nil in Eb. discriminate.
  - unfold quote_from_bytes. cbn [flat_map]. intros E.
    apply app_eq_nil in E. destruct E as [E _].
    exact (quoter_not_nil _ _ E).
Qed.

Lemma escaped_forallb (p : N -> bool) (e : str) :
  (forall c, escaped_char c = true -> p c = true) ->
  forallb escaped_char e = true -> forallb p e = true.
Proof.
  intros Hp. induction e as [|c e IH]; [reflexivity|].
  cbn [forallb]. rewrite !andb_true_iff. intros [Hc He].
  split; [apply Hp; exact Hc | exact (IH He)].
Qed.

Lemma escaped_char_cases (c : N) :
  escaped_char c = true ->
  c = 37 \/ c = 45 \/ c = 46 \/ 48 <= c <= 57 \/ 65 <= c <= 90 \/ c = 95
  \/ 97 <= c <= 122 \/ c = 126.
Proof.
  unfold escaped_char, always_safe, is_alpha_ascii, is_upper_ascii,
    is_lower_ascii, is_digit, in_range.
  cmp_all; intros H; try discriminate H; lia.
Qed.

Lemma escaped_no (x : N) (e : str) :
  escaped_char x = false -> forallb escaped_char e = true ->
  has_char x e = false.
Proof. intros Hx H. exact (has_char_forallb escaped_char x e H Hx). Qed.

(** The query of a proxy address gives the target back. *)
Lemma proxy_query_parsed (url e : str) :
  url <> [] -> quote url (fun _ => false) = Ok e ->
  parse_qs (str_of "url=" ++ e) = [(str_of "url", [url])].
Proof.
  intros Hn Hq.
  pose proof (quote_escaped _ _ Hq) as He.
  pose proof (quote_not_nil _ _ _ Hn Hq) as Hne.
  unfold parse_qs. rewrite parse_qsl_not_nil by discriminate.
  rewrite split_plain.
  2:{ rewrite has_char_app, (escaped_no 38 e eq_refl He). reflexivity. }
  cbn [flat_map]. rewrite app_nil_r.
  assert (F : parse_field false (str_of "url=" ++ e) = [(str_of "url", url)]).
  { unfold parse_field.
    change (str_of "url=" ++ e) with (117 :: 114 :: 108 :: 61 :: e).
    cbn [split_once N.eqb Pos.eqb].
    destruct e as [|x e']; [contradiction|].
    cbn [length Nat.eqb negb orb].
    rewrite (replace_char_absent 43 32 (x :: e'))
      by (apply (escaped_no 43 _ eq_refl He)).
    rewrite (unquote_quote (fun _ => false) url (x :: e') eq_refl Hq).
    reflexivity. }
  rewrite F. reflexivity.
Qed.

Section ProxyFacts.

Variable bracketed_netloc_ok : str -> bool.
Variable nfkc_netloc_ok : str -> bool.

Local Abbreviation urlsplit' := (urlsplit bracketed_netloc_ok nfkc_netloc_ok).
Local Abbreviation urlparse' := (urlparse bracketed_netloc_ok nfkc_netloc_ok).
Local Abbreviation url_params' :=
  (url_params bracketed_netloc_ok nfkc_netloc_ok).

(** X15: The address built by [build_public_proxy_url] is made of ASCII
    characters, parses as the root of the proxy host with the single query
    parameter [url], and that parameter, once decoded, is the target URL:
    the proxy gets back the address it was given, character for character. *)
Theorem public_proxy_url_round_trip (url proxy_url : str) :
  url <> [] ->
  build_public_proxy_url url = Ok proxy_url ->
  forallb is_ascii proxy_url = true
  /\ (exists encoded_url,
        proxy_url = PUBLIC_PROXY_URL ++ str_of "/?url=" ++ encoded_url
        /\ forallb escaped_char encoded_url = true
        /\ unquote encoded_url = url
        /\ urlparse' proxy_url
           = Ok (mkParse (str_of "https")
                   (str_of "github-proxy-auth.tigzig.com") (str_of "/") []
                   (str_of "url=" ++ encoded_url) []))
  /\ url_params' proxy_url = [(str_of "url", [url])].
Proof.
  intros Hn H. unfold build_public_proxy_url in H.
  destruct (quote url (fun _ => false)) as [e|] eqn:Hq; [|discriminate].
  cbn [bind] in H. apply Ok_inj in H. subst proxy_url.
  pose proof (quote_escaped _ _ Hq) as He.
  assert (Ep : urlparse' (PUBLIC_PROXY_URL ++ str_of "/?url=" ++ e)
               = Ok (mkParse (str_of "https")
                       (str_of "github-proxy-auth.tigzig.com") (str_of "/") []
                       (str_of "url=" ++ e) [])).
  { assert (Es : urlsplit' (PUBLIC_PROXY_URL ++ str_of "/?url=" ++ e)
                 = Ok (mkSplit (str_of "https")
                         (str_of "github-proxy-auth.tigzig.com") (str_of "/")
                         (str_of "url=" ++ e) [])).
    { change (PUBLIC_PROXY_URL ++ str_of "/?url=" ++ e)
        with (urlunsplit (str_of "https")
                (str_of "github-proxy-auth.tigzig.com") (str_of "/")
                (str_of "url=" ++ e) []).
      apply urlsplit_urlunsplit.
      - unfold components_wf. repeat split; try reflexivity; try discriminate.
        + right. exists 104, (str_of "ttps"). repeat split; reflexivity.
        + intros _. right. exists []. reflexivity.
      - rewrite forallb_app.
        rewrite (escaped_forallb query_char e); [reflexivity| |exact He].
        intros c Hc. apply escaped_char_cases in Hc. unfold query_char.
        cmp_all; reflexivity.
      - discriminate. }
    rewrite urlparse_eq, Es. reflexivity. }
  split; [|split].
  - unfold PUBLIC_PROXY_URL. rewrite !forallb_app.
    rewrite (escaped_forallb is_ascii e); [reflexivity| |exact He].
    intros c Hc. apply escaped_char_cases in Hc. unfold is_ascii.
    cmp_all; reflexivity.
  - exists e. repeat split; auto.
    exact (unquote_quote (fun _ => false) url e eq_refl Hq).
  - unfold url_params. rewrite Ep. cbn [query].
    exact (proxy_query_parsed url e Hn Hq).
Qed.

End ProxyFacts.

Lemma rstrip_with_app_stop (p : N -> bool) (s t : str) :
  forallb p t = true -> rstrip_with p (s ++ t) = rstrip_with p s.
Proof.
  intros Ht. unfold rstrip_with. rewrite rev_app_distr. f_equal.
  rewrite <- forallb_rev in Ht. revert Ht. generalize (rev t).
  intros l. induction l as [|c l IH]; [reflexivity|].
  cbn [forallb app drop_while]. rewrite andb_true_iff. intros [-> Hl].
  exact (IH Hl).
Qed.

(** X16: [build_private_proxy_url] ignores trailing slashes of the proxy
    base: the address is the base without them, then [/?url=] and the target
    quoted as [build_public_proxy_url] quotes it, so that the base never
    meets the query in a double slash. *)
Theorem private_proxy_url_shape (url auth_proxy_base proxy_url : str) :
  build_private_proxy_url url auth_proxy_base = Ok proxy_url ->
  (forall n, build_private_proxy_url url (auth_proxy_base ++ repeat 47 n)
             = Ok proxy_url)
  /\ exists base encoded_url,
       proxy_url = base ++ str_of "/?url=" ++ encoded_url
       /\ base = rstrip_with (N.eqb 47) auth_proxy_base
       /\ endswith [47] base = false
       /\ unquote encoded_url = url
       /\ build_public_proxy_url url
          = Ok (PUBLIC_PROXY_URL ++ str_of "/?url=" ++ encoded_url).
Proof.
  unfold build_private_proxy_url, build_public_proxy_url.
  destruct (quote url (fun _ => false)) as [e|] eqn:Hq; [|discriminate].
  cbn [bind]. intros H. apply Ok_inj in H. subst proxy_url. split.
  - intros n. rewrite rstrip_with_app_stop; [reflexivity|].
    induction n as [|n IH]; [reflexivity|]. cbn [repeat forallb].
    rewrite IH. reflexivity.
  - exists (rstrip_with (N.eqb 47) auth_proxy_base), e.
    repeat split.
    + destruct (rstrip_with_last (N.eqb 47) auth_proxy_base)
        as [->|(a & c & -> & Hc)]; [reflexivity|].
      unfold endswith. rewrite rev_app_distr. cbn [rev app startswith].
      rewrite Hc. reflexivity.
    + exact (unquote_quote (fun _ => false) url e eq_refl Hq).
Qed.

(** ** The import scripts *)

Lemma header_type_names (h t : str) :
  detect_file_type_from_header h = Some t -> In t filetype_names.
Proof.
  unfold detect_file_type_from_header.
  destruct (truthy _); [|discriminate].
  destruct (get_filename_from_content_disposition h); [|discriminate].
  apply path_type_names.
Qed.

Lemma names_truthy (t : str) : In t filetype_names -> truthy (Some t) = true.
Proof.
  cbn. intros H.
  repeat (destruct H as [H|H]; [subst t; reflexivity|]). contradiction.
Qed.

Lemma names_not_html (t : str) :
  In t filetype_names -> str_eqb t (str_of "html_error") = false.
Proof.
  cbn. intros H.
  repeat (destruct H as [H|H]; [subst t; reflexivity|]). contradiction.
Qed.

Lemma delimiter_cases (file_bytes : bytes) :
  In (detect_delimiter_from_content file_bytes) [[124]; [9]; [44]].
Proof.
  unfold detect_delimiter_from_content.
  destruct (0 <? _)%nat; [cbn; tauto|].
  destruct (0 <? _)%nat; [cbn; tauto|].
  destruct (0 <? _)%nat; cbn; tauto.
Qed.

Section ScriptFacts.

Variable tempdir : str.

Local Abbreviation save_by_type' := (save_by_type tempdir).
Local Abbreviation sharelink_import' := (sharelink_import tempdir).
Local Abbreviation token_import' := (token_import tempdir).

Lemma save_named (t : str) (file_bytes : bytes) :
  In t filetype_names ->
  save_by_type' (Some t) file_bytes =
  Saved t
    (if str_in t (map str_of ["csv"; "tsv"; "txt"; "pipe"]%string)
     then Some (detect_delimiter_from_content file_bytes) else None)
    (if str_eqb t (str_of "parquet") then get_parquet_temp_path tempdir
     else if str_eqb t (str_of "duckdb") then get_duckdb_temp_path tempdir
     else if str_eqb t (str_of "json") then get_json_temp_path tempdir
     else get_delimited_temp_path tempdir).
Proof.
  intros H. unfold save_by_type.
  rewrite (names_not_html t H), (names_truthy t H). reflexivity.
Qed.

(** X17: A type read from the URL settles the matter in
    [import_via_sharelink]: the header and the content are not consulted, so
    the download is saved under that type whatever it holds, an HTML error
    page included. *)
Theorem typed_url_is_saved (t content_disposition : str) (file_bytes : bytes) :
  In t filetype_names ->
  sharelink_import' (Some t) content_disposition file_bytes
  = save_by_type' (Some t) file_bytes
  /\ exists delimiter temp_path,
       sharelink_import' (Some t) content_disposition file_bytes
       = Saved t delimiter temp_path.
Proof.
  intros H.
  assert (E : sharelink_import' (Some t) content_disposition file_bytes
              = save_by_type' (Some t) file_bytes).
  { unfold sharelink_import. cbv zeta. rewrite (names_truthy t H).
    cbn [negb]. rewrite (names_truthy t H). reflexivity. }
  split; [exact E|]. rewrite E, (save_named t file_bytes H). eauto.
Qed.

(** X18: The three ways the download step of [import_via_sharelink] ends,
    for a type read from the URL that is absent or one of the eight names.
    An HTML page is reported only when neither the URL nor the header gave a
    type; a saved file has one of the eight types, a delimiter exactly when
    the type is csv, tsv, txt or pipe (the type psv gets none), and one of
    the four temporary files. *)
Theorem sharelink_import_outcome (url_type : option str)
    (content_disposition : str) (file_bytes : bytes) :
  (forall t, url_type = Some t -> In t filetype_names) ->
  match sharelink_import' url_type content_disposition file_bytes with
  | HtmlPage =>
      url_type = None
      /\ detect_file_type_from_header content_disposition = None
      /\ detect_file_type_from_bytes file_bytes = Some html_error
  | UnknownType =>
      url_type = None
      /\ detect_file_type_from_header content_disposition = None
      /\ detect_file_type_from_bytes file_bytes = None
  | Saved t delimiter temp_path =>
      In t filetype_names
      /\ delimiter
         = (if str_in t (map str_of ["csv"; "tsv"; "txt"; "pipe"]%string)
            then Some (detect_delimiter_from_content file_bytes) else None)
      /\ (forall d, delimiter = Some d -> In d [[124]; [9]; [44]])
      /\ In temp_path [get_parquet_temp_path tempdir;
                       get_duckdb_temp_path tempdir;
                       get_json_temp_path tempdir;
                       get_delimited_temp_path tempdir]
  end.
Proof.
  intros Hu.
  assert (S : forall t, In t filetype_names ->
     match save_by_type' (Some t) file_bytes with
     | Saved t delimiter temp_path =>
         In t filetype_names
         /\ delimiter
            = (if str_in t (map str_of ["csv"; "tsv"; "txt"; "pipe"]%string)
               then Some (detect_delimiter_from_content file_bytes) else None)
         /\ (forall d, delimiter = Some d -> In d [[124]; [9]; [44]])
         /\ In temp_path [get_parquet_temp_path tempdir;
                          get_duckdb_temp_path tempdir;
                          get_json_temp_path tempdir;
                          get_delimited_temp_path tempdir]
     | _ => False
     end).
  { intros t Ht. rewrite (save_named t file_bytes Ht).
    split; [exact Ht|]. split; [reflexivity|]. split.
    - destruct (str_in t _); [|discriminate].
      intros d E. apply Some_inj in E. subst d. apply delimiter_cases.
    - destruct (str_eqb t (str_of "parquet")); [cbn; tauto|].
      destruct (str_eqb t (str_of "duckdb")); [cbn; tauto|].
      destruct (str_eqb t (str_of "json")); cbn; tauto. }
  unfold sharelink_import.
  destruct url_type as [t|].
  { pose proof (Hu t eq_refl) as Ht. cbv zeta. rewrite (names_truthy t Ht).
    cbn [negb]. rewrite (names_truthy t Ht). cbn [negb].
    specialize (S t Ht). destruct (save_by_type' (Some t) file_bytes);
      try contradiction. exact S. }
  cbn [truthy negb].
  destruct (detect_file_type_from_header content_disposition) as [t|] eqn:Eh.
  { pose proof (header_type_names _ _ Eh) as Ht. rewrite (names_truthy t Ht).
    cbn [negb]. specialize (S t Ht).
    destruct (save_by_type' (Some t) file_bytes); try contradiction. exact S. }
  cbn [truthy negb].
  destruct (detect_file_type_from_bytes file_bytes) as [ft|] eqn:Eb;
    cbn [option_map].
  2:{ cbn. auto. }
  destruct ft;
    try (match goal with
         | |- context [save_by_type' (Some (type_name ?c))] =>
             assert (Ht : In (type_name c) filetype_names) by (cbn; tauto);
             specialize (S _ Ht);
             destruct (save_by_type' (Some (type_name c)) file_bytes);
             try contradiction; exact S
         end).
  cbn. auto.
Qed.

(** X19: A Google Drive import through a token never reads the type from the
    validated input, which is a bare identifier and has no extension: the
    type is the one sniffed from the content. *)
Theorem gdrive_token_type_from_content (file_input file_id : str)
    (file_bytes : bytes) :
  validate_file_input (str_of "Google Drive") file_input = inr file_id ->
  detect_file_type_from_path file_id = None
  /\ token_import' file_id file_bytes
     = save_by_type' (option_map type_name
                        (detect_file_type_from_bytes file_bytes)) file_bytes.
Proof.
  unfold validate_file_input.
  change (str_eqb (str_of "Google Drive") (str_of "Dropbox")) with false.
  change (str_eqb (str_of "Google Drive") (str_of "Google Drive")) with true.
  cbv iota.
  destruct (extract_gdrive_file_id file_input) as [id|] eqn:Ex;
    [|discriminate].
  destruct (truthy (Some id)); [|discriminate].
  intros H. injection H as <-.
  destruct (extract_gdrive_file_id_chars _ _ Ex) as [_ Hid].
  assert (Hp : detect_file_type_from_path id = None).
  { apply path_type_no_dot.
    apply (id_chars_no 46); [reflexivity | apply lower_id_chars; exact Hid]. }
  split; [exact Hp|]. unfold token_import. rewrite Hp. reflexivity.
Qed.

End ScriptFacts.

Lemma id_chars_scalar (id : str) :
  forallb id_char id = true -> forallb is_scalar id = true.
Proof.
  apply id_chars_forallb. intros c ? ? ? ? ? ? ? ?.
  unfold is_scalar, is_surrogate, in_range. cmp_all; reflexivity.
Qed.

Lemma gdrive_direct_url_scalar (id : str) :
  forallb id_char id = true ->
  forallb is_scalar (gdrive_direct_url id) = true.
Proof.
  intros Hid. unfold gdrive_direct_url. rewrite !forallb_app.
  rewrite (id_chars_scalar id Hid). reflexivity.
Qed.

Section FetchFacts.

Variable bracketed_netloc_ok : str -> bool.
Variable nfkc_netloc_ok : str -> bool.

Local Abbreviation urlparse' := (urlparse bracketed_netloc_ok nfkc_netloc_ok).
Local Abbreviation urlsplit' := (urlsplit bracketed_netloc_ok nfkc_netloc_ok).
Local Abbreviation sharelink_fetch' :=
  (sharelink_fetch bracketed_netloc_ok nfkc_netloc_ok).
Local Abbreviation convert_dropbox_url' :=
  (convert_dropbox_url bracketed_netloc_ok nfkc_netloc_ok).

(** X20: A Google Drive link that [convert_google_drive_url] rewrites goes
    through [import_via_sharelink] as follows: the Dropbox rewrite leaves
    the direct address alone, no type is read from it, and it is fetched
    through the public proxy, under an address that the proxy can decode
    back; with the private flag set it is fetched directly, without proxy
    and without Authorization header. Nothing raises on the way. *)
Theorem gdrive_link_fetch (url direct_url auth_proxy_url : str) :
  convert_google_drive_url url = (direct_url, true) ->
  exists encoded_url,
    unquote encoded_url = direct_url
    /\ sharelink_fetch' url false auth_proxy_url
       = Ok (mkFetch direct_url None
               (PUBLIC_PROXY_URL ++ str_of "/?url=" ++ encoded_url) false)
    /\ sharelink_fetch' url true auth_proxy_url
       = Ok (mkFetch direct_url None direct_url false).
Proof.
  intros H. unfold sharelink_fetch. rewrite H.
  apply convert_google_drive_url_true in H. destruct H as (id & Hf & ->).
  destruct (find_file_id_chars _ _ Hf) as [_ Hid].
  destruct (gdrive_direct_url_facts id Hid) as (_ & _ & Hu & _ & Hd & Hg).
  assert (Ed : convert_dropbox_url' (gdrive_direct_url id)
               = Ok (gdrive_direct_url id, false)).
  { unfold convert_dropbox_url. rewrite Hd. reflexivity. }
  rewrite Ed. cbn [bind].
  rewrite (detect_file_type_direct_url _ _ id Hid). cbn [bind].
  rewrite Hg. cbn [andb].
  assert (N1 : needs_proxy (gdrive_direct_url id) false = true).
  { unfold needs_proxy. rewrite Hu, orb_true_r.
    destruct (_ && _); reflexivity. }
  assert (N2 : needs_proxy (gdrive_direct_url id) true = false).
  { unfold needs_proxy. rewrite is_github_url_lower. exact Hg. }
  rewrite N1, N2.
  destruct (proj1 (quote_scalar (fun _ => false) (gdrive_direct_url id))
              (gdrive_direct_url_scalar id Hid)) as [e He].
  exists e. split; [exact (unquote_quote _ _ _ eq_refl He)|].
  unfold build_public_proxy_url. rewrite He. split; reflexivity.
Qed.

Lemma gdrive_download_url_parsed (id : str) :
  forallb id_char id = true ->
  urlparse' (gdrive_download_url id)
  = Ok (mkParse (str_of "https") (str_of "www.googleapis.com")
          (str_of "/drive/v3/files/" ++ id) [] (str_of "alt=media") []).
Proof.
  intros Hid.
  assert (Es : urlsplit' (gdrive_download_url id)
               = Ok (mkSplit (str_of "https") (str_of "www.googleapis.com")
                       (str_of "/drive/v3/files/" ++ id)
                       (str_of "alt=media") [])).
  { assert (E : gdrive_download_url id
                = urlunsplit (str_of "https") (str_of "www.googleapis.com")
                    (str_of "/drive/v3/files/" ++ id) (str_of "alt=media") []).
    { unfold gdrive_download_url, urlunsplit. cbn. reflexivity. }
    rewrite E. apply urlsplit_urlunsplit.
    - unfold components_wf. repeat split; try reflexivity; try discriminate.
      + right. exists 104, (str_of "ttps"). repeat split; reflexivity.
      + rewrite has_char_app, (id_chars_no 35 id eq_refl Hid). reflexivity.
      + rewrite has_char_app, (id_chars_no 63 id eq_refl Hid). reflexivity.
      + intros _. right. exists (str_of "drive/v3/files/" ++ id). reflexivity.
      + rewrite forallb_app. rewrite (id_chars_forallb clean_char id);
          [reflexivity| |exact Hid].
        intros c ? ? ? ? ? ? ? ?. unfold clean_char. cmp_all; reflexivity.
    - reflexivity.
    - discriminate. }
  rewrite urlparse_eq, Es. cbn [bind split_scheme split_path split_netloc
                                split_query split_fragment].
  unfold parse_params.
  rewrite has_char_app, (id_chars_no 59 id eq_refl Hid).
  rewrite andb_false_r. reflexivity.
Qed.

(** X21: What [import_via_token] accepts as Google Drive input is always an
    identifier: a non-empty run of letters, digits, underscores and hyphens,
    the one [extract_gdrive_file_id] found. The address of the Drive API
    built from it therefore parses as the files endpoint with the identifier
    as last path segment and the single query [alt=media]: no input can add
    a query, a fragment or a path segment. *)
Theorem gdrive_token_input_validated (file_input file_id : str) :
  validate_file_input (str_of "Google Drive") file_input = inr file_id ->
  extract_gdrive_file_id file_input = Some file_id
  /\ file_id <> [] /\ forallb id_char file_id = true
  /\ urlparse' (gdrive_download_url file_id)
     = Ok (mkParse (str_of "https") (str_of "www.googleapis.com")
             (str_of "/drive/v3/files/" ++ file_id) []
             (str_of "alt=media") []).
Proof.
  unfold validate_file_input.
  change (str_eqb (str_of "Google Drive") (str_of "Dropbox")) with false.
  change (str_eqb (str_of "Google Drive") (str_of "Google Drive")) with true.
  cbv iota.
  destruct (extract_gdrive_file_id file_input) as [id|] eqn:Ex;
    [|discriminate].
  destruct (truthy (Some id)); [|discriminate].
  intros H. injection H as <-.
  destruct (extract_gdrive_file_id_chars _ _ Ex) as [Hn Hid].
  repeat split; auto. exact (gdrive_download_url_parsed id Hid).
Qed.

End FetchFacts.

(** ** The file name of a raw import *)

Lemma rsplit_once_app (sep : N) (a b : str) :
  has_char sep b = false -> rsplit_once sep (a ++ sep :: b) = (a, b).
Proof.
  intros Hb. unfold rsplit_once.
  assert (E : take_while (fun c => negb (c =? sep)) (rev (a ++ sep :: b))
              = rev b).
  { rewrite rev_app_distr. cbn [rev]. rewrite <- app_assoc. cbn [app].
    apply take_drop_while_stop.
    - rewrite forallb_rev. apply has_char_false_forallb. exact Hb.
    - right. exists sep, (rev a). split; [reflexivity|].
      rewrite N.eqb_refl. reflexivity. }
  rewrite E, rev_involutive. f_equal.
  rewrite length_app. cbn [length].
  replace (length a + S (length b) - length b - 1)%nat with (length a) by lia.
  rewrite firstn_app, Nat.sub_diag, firstn_all. cbn [firstn].
  apply app_nil_r.
Qed.

Lemma rsplit_exists (sep : N) (s : str) :
  has_char sep s = true ->
  exists a b, s = a ++ sep :: b /\ has_char sep b = false.
Proof.
  intros Hs.
  pose proof (take_drop_while (fun c => negb (c =? sep)) (rev s)) as E.
  pose proof (take_while_all (fun c => negb (c =? sep)) (rev s)) as Ha.
  destruct (drop_while (fun c => negb (c =? sep)) (rev s)) as [|d r] eqn:Ed.
  - exfalso. rewrite app_nil_r in E. rewrite E in Ha.
    rewrite forallb_rev in Ha. apply has_char_false_forallb in Ha.
    congruence.
  - pose proof (drop_while_head _ _ _ _ Ed) as Hd.
    apply negb_false_iff, N.eqb_eq in Hd. subst d.
    set (T := take_while (fun c => negb (c =? sep)) (rev s)) in *.
    clearbody T. exists (rev r), (rev T). split.
    + apply (f_equal (@rev N)) in E. rewrite rev_involutive in E.
      rewrite <- E, rev_app_distr. cbn [rev]. rewrite <- app_assoc.
      reflexivity.
    + apply has_char_false_forallb. rewrite forallb_rev. exact Ha.
Qed.

Lemma lower_cp_dot (c : N) : has_char 46 (lower_cp c) = (46 =? c).
Proof.
  unfold lower_cp, is_upper_ascii, in_range, has_char.
  cmp_all; cbn [existsb]; cmp_all; reflexivity.
Qed.

Lemma lower_dot (s : str) : has_char 46 (lower s) = has_char 46 s.
Proof.
  induction s as [|c s IH]; [reflexivity|].
  change (lower (c :: s)) with (lower_cp c ++ lower s).
  rewrite has_char_app, IH, lower_cp_dot. reflexivity.
Qed.

Lemma lower_cp_last_not_space (c : N) :
  is_space c = false ->
  exists a d, lower_cp c = a ++ [d] /\ is_space d = false.
Proof.
  intros Hc. unfold lower_cp, is_upper_ascii, in_range.
  destruct (N.leb_spec 65 c); destruct (N.leb_spec c 90); cbn [andb];
    try (exists [], (c + 32); split; [reflexivity|];
         unfold is_space, in_range; cmp_all; reflexivity).
  all: destruct (N.leb_spec 192 c); destruct (N.leb_spec c 222); cbn [andb];
    try (destruct (N.eqb_spec c 215); cbn [negb];
         [|exists [], (c + 32); split; [reflexivity|];
           unfold is_space, in_range; cmp_all; reflexivity]).
  all: try (destruct (N.eqb_spec c 0x130);
            [exists [0x69], 0x307; split; reflexivity|]).
  all: try (destruct (N.eqb_spec c 0x212A);
            [exists [], 0x6B; split; reflexivity|]).
  all: try (exists [], c; split; [reflexivity | exact Hc]).
Qed.

Lemma lower_last_not_space (s : str) (c : N) :
  is_space c = false ->
  exists a d, lower (s ++ [c]) = a ++ [d] /\ is_space d = false.
Proof.
  intros Hc. destruct (lower_cp_last_not_space c Hc) as (a & d & E & Hd).
  exists (lower s ++ a), d. split; [|exact Hd].
  rewrite lower_app. change (lower [c]) with (lower_cp c ++ []).
  rewrite app_nil_r, E, app_assoc. reflexivity.
Qed.

Lemma strip_first (s : str) :
  strip s = [] \/ exists c t, strip s = c :: t /\ is_space c = false.
Proof.
  unfold strip, lstrip_with, rstrip_with.
  destruct (drop_while is_space s) as [|c t] eqn:E; [left; reflexivity|].
  pose proof (drop_while_head _ _ _ _ E) as Hc.
  destruct (rstrip_with_last is_space (c :: t)) as [H|(a & d & H & Hd)];
    unfold rstrip_with in H.
  - left. exact H.
  - right. rewrite H. destruct a as [|x a].
    + exists d, []. split; [reflexivity | exact Hd].
    + exists x, (a ++ [d]). split; [reflexivity|].
      (* the first character of the stripped text is that of [c :: t] *)
      assert (K : forall (l : str) y u, rev (drop_while is_space (rev l))
                                        = y :: u ->
                  exists v, l = y :: v).
      { intros l y u Hl.
        pose proof (take_drop_while is_space (rev l)) as Hs.
        apply (f_equal (@rev N)) in Hs.
        rewrite rev_app_distr, rev_involutive, Hl in Hs.
        cbn [app] in Hs. eauto. }
      destruct (K (c :: t) x (a ++ [d]) H) as [v Hv].
      injection Hv as <- _. exact Hc.
Qed.

Lemma strip_fixed (s : str) :
  (forall c t, s = c :: t -> is_space c = false) ->
  (forall a c, s = a ++ [c] -> is_space c = false) ->
  strip s = s.
Proof.
  intros Hf Hl. destruct s as [|c t]; [reflexivity|].
  unfold strip, lstrip_with, rstrip_with. cbn [drop_while].
  rewrite (Hf c t eq_refl).
  destruct (exists_last (l := c :: t)) as (a & d & E); [discriminate|].
  rewrite E, rev_app_distr. cbn [rev app drop_while].
  rewrite (Hl a d E). cbn [rev]. rewrite rev_involutive. reflexivity.
Qed.

Lemma strip_idem (s : str) : strip (strip s) = strip s.
Proof.
  apply strip_fixed.
  - intros c t E. destruct (strip_first s) as [H|(c' & t' & H & Hc)];
      rewrite H in E; [discriminate|]. injection E as <- _. exact Hc.
  - intros a c E. destruct (strip_last s) as [H|(a' & c' & H & Hc)];
      rewrite H in E.
    + destruct a; discriminate.
    + apply app_inj_tail in E. destruct E as [_ <-]. exact Hc.
Qed.

Section FileNameFacts.

(** [str.lower] of the interpreter, and what the normalisation needs of
    it: lowercasing twice is lowercasing once, it brings up no dot, it
    leaves the empty text empty, and a text that ends with a character
    other than white space still does so in lowercase.  [lower] has these
    properties; so has the case table of Unicode, where the lowercase of a
    character is one to three characters that are their own lowercase and,
    but for white space and the dot themselves, neither white space nor a
    dot. *)
Variable str_lower : str -> str.

Hypothesis str_lower_idem : forall s, str_lower (str_lower s) = str_lower s.
Hypothesis str_lower_dot :
  forall s, has_char 46 s = false -> has_char 46 (str_lower s) = false.
Hypothesis str_lower_nil : str_lower [] = [].
Hypothesis str_lower_last :
  forall s c, is_space c = false ->
  exists a d, str_lower (s ++ [c]) = a ++ [d] /\ is_space d = false.

Lemma output_filename_dot (s a b : str) :
  strip s = a ++ 46 :: b -> has_char 46 b = false ->
  output_filename_and_ext str_lower s
  = (a ++ 46 :: str_lower b, str_lower b).
Proof.
  intros E Hb. unfold output_filename_and_ext. cbv zeta. rewrite E.
  assert (Hd : has_char 46 (a ++ 46 :: b) = true).
  { rewrite has_char_app. cbn. apply orb_true_r. }
  assert (Hlb : has_char 46 (str_lower b) = false)
    by (apply str_lower_dot; exact Hb).
  assert (Hn : has_char 46 (a ++ 46 :: str_lower b) = true).
  { rewrite has_char_app. cbn. apply orb_true_r. }
  rewrite Hd, (rsplit_once_app 46 a b Hb), Hn.
  rewrite (rsplit_once_app 46 a (str_lower b) Hlb). cbn [snd].
  rewrite str_lower_idem. reflexivity.
Qed.

Lemma output_filename_no_dot (s : str) :
  has_char 46 (strip s) = false ->
  output_filename_and_ext str_lower s = (strip s, str_of "unknown").
Proof.
  intros Hd. unfold output_filename_and_ext. cbv zeta. rewrite !Hd.
  reflexivity.
Qed.

Lemma strip_normalised (s a b : str) :
  strip s = a ++ 46 :: b ->
  strip (a ++ 46 :: str_lower b) = a ++ 46 :: str_lower b.
Proof.
  intros E. apply strip_fixed.
  - intros c t Ec.
    destruct (strip_first s) as [H|(c' & t' & H & Hc)]; rewrite H in E.
    + destruct a; discriminate.
    + destruct a as [|x a'].
      * cbn [app] in Ec. injection Ec as <- _. reflexivity.
      * cbn [app] in Ec, E. injection Ec as <- _. injection E as -> _.
        exact Hc.
  - intros p c Ec.
    destruct b as [|y b0].
    { rewrite str_lower_nil in Ec.
      apply app_inj_tail in Ec. destruct Ec as [_ <-]. reflexivity. }
    destruct (exists_last (l := y :: b0)) as (b' & z & Eb); [discriminate|].
    destruct (strip_last s) as [H|(q & w & H & Hw)]; rewrite H in E.
    { destruct a; discriminate. }
    rewrite Eb in E.
    change (a ++ 46 :: b' ++ [z]) with (a ++ (46 :: b') ++ [z]) in E.
    rewrite app_assoc in E. apply app_inj_tail in E.
    destruct E as [_ <-].
    destruct (str_lower_last b' w Hw) as (u & d & El & Hd').
    rewrite Eb, El in Ec.
    change (a ++ 46 :: u ++ [d]) with (a ++ (46 :: u) ++ [d]) in Ec.
    rewrite app_assoc in Ec. apply app_inj_tail in Ec.
    destruct Ec as [_ <-]. exact Hd'.
Qed.

(** X22: The file name of a raw import is normalised once and for all,
    whatever the case table of the interpreter, as long as lowercasing is
    idempotent, brings up no dot, keeps the empty text and keeps a last
    character that is no white space such: a name without dot is only
    trimmed and its extension recorded as unknown; a name with a dot keeps
    what stands before its last dot and gets what follows in lowercase,
    which is also the extension recorded; and a normalised name is left as
    it is by a second normalisation. *)
Theorem output_filename_normalised (output_filename : str) :
  let trimmed := strip output_filename in
  let name := fst (output_filename_and_ext str_lower output_filename) in
  let ext := snd (output_filename_and_ext str_lower output_filename) in
  (has_char 46 trimmed = false -> name = trimmed /\ ext = str_of "unknown")
  /\ (has_char 46 trimmed = true ->
      exists name_part ext_part,
        trimmed = name_part ++ 46 :: ext_part
        /\ has_char 46 ext_part = false
        /\ name = name_part ++ 46 :: str_lower ext_part
        /\ ext = str_lower ext_part)
  /\ output_filename_and_ext str_lower name = (name, ext).
Proof.
  cbv zeta.
  destruct (has_char 46 (strip output_filename)) eqn:Hd.
  - destruct (rsplit_exists 46 _ Hd) as (a & b & E & Hb).
    rewrite (output_filename_dot _ a b E Hb). cbn [fst snd].
    split; [discriminate|]. split; [intros _; exists a, b; auto|].
    rewrite (output_filename_dot (a ++ 46 :: str_lower b) a (str_lower b)).
    + rewrite str_lower_idem. reflexivity.
    + exact (strip_normalised _ a b E).
    + apply str_lower_dot. exact Hb.
  - rewrite (output_filename_no_dot _ Hd). cbn [fst snd].
    split; [auto|]. split; [discriminate|].
    rewrite output_filename_no_dot; rewrite strip_idem; [reflexivity|exact Hd].
Qed.

End FileNameFacts.

(** ** The sample of [detect_file_type_from_bytes] *)

Lemma utf8_scan_ascii_app (head rest : bytes) :
  forallb is_ascii head = true ->
  utf8_scan (head ++ rest) = map Some head ++ utf8_scan rest.
Proof.
  induction head as [|b head IH]; [reflexivity|].
  cbn [forallb]. rewrite andb_true_iff. intros [Hb Hh].
  cbn [app map]. unfold is_ascii in Hb. apply N.ltb_lt in Hb.
  rewrite utf8_scan_1 by exact Hb. rewrite (IH Hh). reflexivity.
Qed.

Lemma utf8_scan_lone (b : N) : 0x80 <= b -> utf8_scan [b] = [None].
Proof.
  intros Hb. cbn [utf8_scan].
  destruct (N.ltb_spec b 0x80); [lia|].
  repeat match goal with
         | |- context [?x <? ?y] => destruct (x <? y)
         end; reflexivity.
Qed.

Lemma all_decoded_app_none (l : list (option N)) :
  all_decoded (l ++ [None]) = None.
Proof.
  induction l as [|[c|] l IH]; cbn [app all_decoded]; [reflexivity| |reflexivity].
  rewrite IH. reflexivity.
Qed.

(** X23: The text sample is the first 2048 bytes, cut wherever that falls.
    When the first 2047 bytes are ASCII and the next byte is not, the sample
    ends inside a character, the strict decoding fails, and a buffer that is
    neither an HTML page nor marked as Parquet, DuckDB or SQLite has no
    type, however well-formed the text is as a whole. *)
Theorem sample_cut_in_character (head tail : bytes) (b : N) :
  length head = 2047%nat -> forallb is_ascii head = true -> 0x80 <= b ->
  let file_bytes := head ++ b :: tail in
  looks_like_html (html_text_start file_bytes) = false ->
  has_par1 file_bytes = false ->
  contains (str_of "DUCK") (firstn 20 file_bytes) = false ->
  contains (str_of "SQLite format 3") (firstn 16 file_bytes) = false ->
  decode_strict (firstn 2048 file_bytes) = None
  /\ detect_file_type_from_bytes file_bytes = None.
Proof.
  intros Hl Ha Hb file_bytes Hh Hp Hd Hs.
  assert (E : decode_strict (firstn 2048 file_bytes) = None).
  { unfold file_bytes.
    assert (F : firstn 2048 (head ++ b :: tail) = head ++ [b]).
    { rewrite firstn_app, Hl. rewrite firstn_all2 by lia.
      replace (2048 - 2047)%nat with 1%nat by lia. reflexivity. }
    rewrite F. unfold decode_strict.
    rewrite (utf8_scan_ascii_app head [b] Ha), (utf8_scan_lone b Hb).
    apply all_decoded_app_none. }
  split; [exact E|].
  unfold detect_file_type_from_bytes. unfold has_par1 in Hp.
  rewrite Hh, Hp, Hd, Hs, E.
  destruct (length file_bytes <? 20)%nat; reflexivity.
Qed.

Lemma contains_lower_app_r (x a b : str) :
  contains x (lower b) = true -> contains x (lower (a ++ b)) = true.
Proof. intros H. rewrite lower_app. apply contains_app_r. exact H. Qed.

Lemma contains_lower_app_l (x a b : str) :
  contains x (lower a) = true -> contains x (lower (a ++ b)) = true.
Proof. intros H. rewrite lower_app. apply contains_app_l. exact H. Qed.

Lemma contains_lower_cons (x : str) (c : N) (b : str) :
  contains x (lower b) = true -> contains x (lower (c :: b)) = true.
Proof. apply (contains_lower_app_r x [c] b). Qed.

(** The address written by [urlunparse] holds the network location. *)
Lemma urlunparse_contains_netloc (x s n P ps q f : str) :
  n <> [] -> contains x (lower n) = true ->
  contains x (lower (urlunparse s n P ps q f)) = true.
Proof.
  intros Hn Hx. unfold urlunparse, urlunsplit.
  destruct n as [|n0 n']; [contradiction|].
  set (U := match ps with _ :: _ => P ++ 59 :: ps | [] => P end).
  set (V := match U with
            | c :: _ => if c =? 47 then U else 47 :: U
            | [] => U
            end).
  assert (K : contains x (lower (str_of "//" ++ (n0 :: n') ++ V)) = true).
  { apply contains_lower_app_r, contains_lower_app_l. exact Hx. }
  assert (K2 : contains x
                 (lower match s with
                        | _ :: _ => s ++ 58 :: str_of "//" ++ (n0 :: n') ++ V
                        | [] => str_of "//" ++ (n0 :: n') ++ V
                        end) = true).
  { destruct s; [exact K|].
    apply (contains_lower_app_r x (n :: s) (58 :: _)).
    apply contains_lower_cons. exact K. }
  destruct q; destruct f; cbv zeta;
    repeat apply contains_lower_app_l; exact K2.
Qed.

Lemma needs_proxy_dropbox (url : str) :
  is_dropbox_url url = true -> needs_proxy url false = true.
Proof.
  unfold is_dropbox_url, needs_proxy. intros ->.
  destruct (_ && _); [reflexivity|]. destruct (_ || _); reflexivity.
Qed.

Lemma convert_google_drive_url_other (url : str) :
  is_gdrive_url url = false -> convert_google_drive_url url = (url, false).
Proof.
  unfold is_gdrive_url, convert_google_drive_url. intros H.
  apply orb_false_iff in H. destruct H as [-> ->]. reflexivity.
Qed.

Lemma convert_dropbox_url_other (b n : str -> bool) (url : str) :
  is_dropbox_url url = false -> convert_dropbox_url b n url = Ok (url, false).
Proof.
  unfold is_dropbox_url, convert_dropbox_url. intros ->. reflexivity.
Qed.

Lemma public_proxy_decodes (url proxy_url : str) :
  build_public_proxy_url url = Ok proxy_url ->
  exists encoded_url,
    proxy_url = PUBLIC_PROXY_URL ++ str_of "/?url=" ++ encoded_url
    /\ unquote encoded_url = url.
Proof.
  unfold build_public_proxy_url.
  destruct (quote url (fun _ => false)) as [e|] eqn:Hq; [|discriminate].
  cbn [bind]. intros H. apply Ok_inj in H. subst proxy_url.
  exists e. split; [reflexivity|].
  exact (unquote_quote (fun _ => false) url e eq_refl Hq).
Qed.

Lemma private_proxy_decodes (url base proxy_url : str) :
  build_private_proxy_url url base = Ok proxy_url ->
  exists encoded_url,
    proxy_url = rstrip_with (N.eqb 47) base ++ str_of "/?url=" ++ encoded_url
    /\ unquote encoded_url = url.
Proof.
  unfold build_private_proxy_url.
  destruct (quote url (fun _ => false)) as [e|] eqn:Hq; [|discriminate].
  cbn [bind]. intros H. apply Ok_inj in H. subst proxy_url.
  exists e. split; [reflexivity|].
  exact (unquote_quote (fun _ => false) url e eq_refl Hq).
Qed.

Section RouteFacts.

Variable bracketed_netloc_ok : str -> bool.
Variable nfkc_netloc_ok : str -> bool.

Local Abbreviation urlparse' := (urlparse bracketed_netloc_ok nfkc_netloc_ok).
Local Abbreviation sharelink_fetch' :=
  (sharelink_fetch bracketed_netloc_ok nfkc_netloc_ok).
Local Abbreviation convert_dropbox_url' :=
  (convert_dropbox_url bracketed_netloc_ok nfkc_netloc_ok).
Local Abbreviation detect_file_type' :=
  (detect_file_type bracketed_netloc_ok nfkc_netloc_ok).
Local Abbreviation url_params' :=
  (url_params bracketed_netloc_ok nfkc_netloc_ok).

(** X24: A Dropbox link (one whose host names dropbox.com) that
    [import_via_sharelink] manages to resolve is downloaded as a direct
    link: the address that is fetched stands for an address whose first [dl]
    parameter is 1, it goes through the public proxy without Authorization
    header, and the type is the one read from the link as it was given. *)
Theorem dropbox_link_fetch (url auth_proxy_url : str) (p : ParseResult)
    (f : Fetch) :
  is_gdrive_url url = false -> is_dropbox_url url = true ->
  urlparse' url = Ok p ->
  contains (str_of "dropbox.com") (lower (netloc p)) = true ->
  sharelink_fetch' url false auth_proxy_url = Ok f ->
  (exists flag, convert_dropbox_url' url = Ok (data_url f, flag))
  /\ already_direct (url_params' (data_url f)) = true
  /\ (exists encoded_url,
        fetch_url f = PUBLIC_PROXY_URL ++ str_of "/?url=" ++ encoded_url
        /\ unquote encoded_url = data_url f)
  /\ authorization f = false
  /\ detect_file_type' url = Ok (file_type f).
Proof.
  intros Hg Hd Ep Hn H. unfold sharelink_fetch in H.
  rewrite (convert_google_drive_url_other url Hg) in H.
  destruct (convert_dropbox_url' url) as [[url1 flag]|e] eqn:Ec;
    [|discriminate H]. cbn [bind] in H.
  assert (Hn0 : netloc p <> []).
  { intros E0. rewrite E0 in Hn. discriminate Hn. }
  assert (D : is_dropbox_url url1 = true
              /\ already_direct (url_params' url1) = true
              /\ detect_file_type' url1 = detect_file_type' url).
  { rewrite (convert_dropbox_url_parsed _ _ url p Hd Ep) in Ec.
    destruct (already_direct (parse_qs (query p))) eqn:Ea.
    - apply Ok_inj in Ec. injection Ec as <- _. split; [exact Hd|].
      split; [|reflexivity]. unfold url_params. rewrite Ep. exact Ea.
    - destruct (urlencode _) as [q|e] eqn:Eq; [|discriminate Ec].
      cbn [bind] in Ec. apply Ok_inj in Ec. injection Ec as <- _.
      destruct (rewritten_url_parsed _ _ url q p Ep Eq) as [Ep1 Eq1].
      split; [|split].
      + unfold is_dropbox_url.
        apply urlunparse_contains_netloc; assumption.
      + unfold url_params. rewrite Ep1. cbn [query]. rewrite Eq1.
        unfold already_direct. rewrite dict_get_set. reflexivity.
      + exact (rewritten_url_type _ _ url q p Ep Eq). }
  destruct D as (D1 & D2 & Et).
  rewrite (needs_proxy_dropbox url1 D1) in H. cbn [andb] in H.
  rewrite Et in H.
  destruct (detect_file_type' url) as [ft|e] eqn:Ef; [|discriminate H].
  cbn [bind] in H.
  destruct (build_public_proxy_url url1) as [u|e] eqn:Eb; [|discriminate H].
  cbn [bind] in H. apply Ok_inj in H. subst f. cbn [data_url fetch_url
    authorization file_type].
  split; [eauto|]. split; [exact D2|].
  split; [exact (public_proxy_decodes _ _ Eb)|]. auto.
Qed.

(** X25: A GitHub link that is neither a Google Drive nor a Dropbox address
    is left as it is and routed by the private flag: with the flag it goes
    to the authenticating proxy, whose base loses its trailing slashes, with
    the Authorization header; without the flag a release download goes
    through the public proxy and any other GitHub address is fetched
    directly, both without the header. Either proxy is given the address in
    a form that decodes back to it. *)
Theorem github_link_fetch (url auth_proxy_url : str) (is_private : bool)
    (f : Fetch) :
  is_gdrive_url url = false -> is_dropbox_url url = false ->
  is_github_url url = true ->
  sharelink_fetch' url is_private auth_proxy_url = Ok f ->
  data_url f = url
  /\ detect_file_type' url = Ok (file_type f)
  /\ authorization f = is_private
  /\ (is_private = true ->
      exists encoded_url,
        fetch_url f = rstrip_with (N.eqb 47) auth_proxy_url
                      ++ str_of "/?url=" ++ encoded_url
        /\ unquote encoded_url = url)
  /\ (is_private = false -> is_github_release_url url = true ->
      exists encoded_url,
        fetch_url f = PUBLIC_PROXY_URL ++ str_of "/?url=" ++ encoded_url
        /\ unquote encoded_url = url)
  /\ (is_private = false -> is_github_release_url url = false ->
      fetch_url f = url).
Proof.
  intros Hg Hd Hh H. unfold sharelink_fetch in H.
  rewrite (convert_google_drive_url_other url Hg) in H.
  rewrite (convert_dropbox_url_other _ _ url Hd) in H. cbn [bind] in H.
  destruct (detect_file_type' url) as [ft|e] eqn:Ef; [|discriminate H].
  cbn [bind] in H. rewrite Hh in H.
  destruct is_private; cbn [andb] in H.
  - destruct (build_private_proxy_url url auth_proxy_url) as [u|e] eqn:Eb;
      [|discriminate H].
    cbn [bind] in H. apply Ok_inj in H. subst f.
    cbn [data_url fetch_url authorization file_type].
    repeat split; try discriminate.
    intros _. exact (private_proxy_decodes _ _ _ Eb).
  - assert (N : needs_proxy url false = is_github_release_url url).
    { unfold needs_proxy, is_github_release_url.
      unfold is_gdrive_url in Hg. unfold is_dropbox_url in Hd.
      rewrite Hg, Hd. destruct (_ && _); reflexivity. }
    rewrite N in H. destruct (is_github_release_url url).
    + destruct (build_public_proxy_url url) as [u|e] eqn:Eb;
        [|discriminate H].
      cbn [bind] in H. apply Ok_inj in H. subst f.
      cbn [data_url fetch_url authorization file_type].
      repeat split; try discriminate.
      intros _ _. exact (public_proxy_decodes _ _ Eb).
    + apply Ok_inj in H. subst f.
      cbn [data_url fetch_url authorization file_type].
      repeat split; try discriminate.
Qed.

(** X26: A link that names none of the three providers is fetched at the
    address given, without proxy and without Authorization header, whatever
    the private flag says; the resolution fails only when [urlparse] refuses
    the link, with the [ValueError] of [detect_file_type]. *)
Theorem other_link_fetch (url auth_proxy_url : str) (is_private : bool) :
  is_github_url url = false -> is_gdrive_url url = false ->
  is_dropbox_url url = false ->
  (forall p, urlparse' url = Ok p ->
     exists ft, detect_file_type' url = Ok ft
                /\ sharelink_fetch' url is_private auth_proxy_url
                   = Ok (mkFetch url ft url false))
  /\ (forall e, urlparse' url = Raise e ->
        sharelink_fetch' url is_private auth_proxy_url = Raise ValueError).
Proof.
  intros Hh Hg Hd.
  assert (N : needs_proxy url is_private = false).
  { unfold needs_proxy. destruct is_private.
    - rewrite is_github_url_lower. exact Hh.
    - unfold is_gdrive_url in Hg. unfold is_dropbox_url in Hd.
      unfold is_github_url in Hh. apply orb_false_iff in Hh.
      destruct Hh as [-> _]. rewrite Hg, Hd. reflexivity. }
  assert (E : sharelink_fetch' url is_private auth_proxy_url
              = let! ft := detect_file_type' url in
                Ok (mkFetch url ft url false)).
  { unfold sharelink_fetch.
    rewrite (convert_google_drive_url_other url Hg).
    rewrite (convert_dropbox_url_other _ _ url Hd). cbn [bind].
    rewrite Hh, N, andb_false_r. reflexivity. }
  rewrite E. split.
  - intros p Ep. rewrite (detect_file_type_parsed _ _ url p Ep).
    eexists. split; reflexivity.
  - intros e Ep. unfold detect_file_type. rewrite Ep. cbn [bind].
    f_equal. apply (urlsplit_raise bracketed_netloc_ok nfkc_netloc_ok url).
    apply urlparse_raise. exact Ep.
Qed.

End RouteFacts.

(** ** Numeric column types *)

Lemma upper_app (a b : str) : upper (a ++ b) = upper a ++ upper b.
Proof. apply flat_map_app. Qed.

Lemma upper_cp_paren (c : N) : has_char 40 (upper_cp c) = (40 =? c).
Proof.
  unfold upper_cp, is_lower_ascii, in_range, has_char.
  repeat match goal with
         | |- context [if ?b then _ else _] =>
             match b with
             | context [N.leb ?x ?y] => destruct (N.leb_spec x y)
             | context [N.eqb ?x ?y] => destruct (N.eqb_spec x y)
             end; cbn [andb negb]
         end;
    cbn [existsb]; cmp_all; reflexivity.
Qed.

Lemma upper_paren (s : str) : has_char 40 (upper s) = has_char 40 s.
Proof.
  induction s as [|c s IH]; [reflexivity|].
  change (upper (c :: s)) with (upper_cp c ++ upper s).
  rewrite has_char_app, IH, upper_cp_paren. reflexivity.
Qed.

Lemma upper_space (pad : str) :
  forallb is_space pad = true -> upper pad = pad.
Proof.
  induction pad as [|c pad IH]; [reflexivity|].
  cbn [forallb]. rewrite andb_true_iff. intros [Hc Hp].
  change (upper (c :: pad)) with (upper_cp c ++ upper pad).
  rewrite (IH Hp). 
  assert (E : upper_cp c = [c]).
  { revert Hc. unfold is_space, upper_cp, is_lower_ascii, in_range.
    cmp_all; intros Hsp; try discriminate Hsp; reflexivity. }
  rewrite E. reflexivity.
Qed.

Lemma hd_split_app (sep : N) (a b : str) :
  has_char sep a = false -> hd [] (split sep (a ++ sep :: b)) = a.
Proof. intros H. rewrite split_app by exact H. reflexivity. Qed.

Lemma hd_split_plain (sep : N) (a : str) :
  has_char sep a = false -> hd [] (split sep a) = a.
Proof. intros H. rewrite split_plain by exact H. reflexivity. Qed.

(** X27: [is_numeric_type] does not look past the first opening parenthesis:
    the parameters of a type, as in DECIMAL(18,2), play no part. *)
Theorem numeric_type_parameters_ignored (name args : str) :
  has_char 40 name = false ->
  is_numeric_type (name ++ 40 :: args) = is_numeric_type name.
Proof.
  intros H. unfold is_numeric_type.
  rewrite upper_app. change (upper (40 :: args)) with (40 :: upper args).
  rewrite hd_split_app by (rewrite upper_paren; exact H).
  rewrite hd_split_plain by (rewrite upper_paren; exact H).
  reflexivity.
Qed.

Lemma drop_while_pad (p : N -> bool) (pad s : str) :
  forallb p pad = true -> drop_while p (pad ++ s) = drop_while p s.
Proof.
  induction pad as [|c pad IH]; [reflexivity|].
  cbn [forallb app drop_while]. rewrite andb_true_iff. intros [-> Hp].
  exact (IH Hp).
Qed.

Lemma strip_pad (pad1 s pad2 : str) :
  forallb is_space pad1 = true -> forallb is_space pad2 = true ->
  strip s = s -> strip (pad1 ++ s ++ pad2) = s.
Proof.
  intros H1 H2 Hs. unfold strip, lstrip_with, rstrip_with in *.
  rewrite (drop_while_pad is_space pad1 _ H1).
  destruct s as [|c t].
  - cbn [app]. rewrite (proj2 (take_while_id is_space pad2 H2)).
    reflexivity.
  - assert (Hc : is_space c = false).
    { cbn [drop_while] in Hs. destruct (is_space c) eqn:E; [|reflexivity].
      exfalso.
      assert (L : (length (rev (drop_while is_space
                                  (rev (drop_while is_space t))))
                   <= length t)%nat).
      { rewrite length_rev.
        assert (D : forall l : str,
                      (length (drop_while is_space l) <= length l)%nat).
        { intros l. induction l as [|x l IH]; [reflexivity|].
          cbn [drop_while]. destruct (is_space x); cbn [length]; lia. }
        pose proof (D (rev (drop_while is_space t))).
        pose proof (D t). rewrite length_rev in *. lia. }
      rewrite Hs in L. cbn [length] in L. lia. }
    cbn [app drop_while] in *. rewrite Hc in *.
    change (c :: t ++ pad2) with ((c :: t) ++ pad2).
    rewrite rev_app_distr.
    rewrite (drop_while_pad is_space (rev pad2) _)
      by (rewrite forallb_rev; exact H2).
    exact Hs.
Qed.

(** X28: A name of [NUMERIC_TYPES] is recognised in any letter case, with
    white space around it and with parameters after it. *)
Theorem numeric_type_spelling (pad1 name pad2 args : str) :
  forallb is_space pad1 = true -> forallb is_space pad2 = true ->
  In (upper name) NUMERIC_TYPES ->
  is_numeric_type (pad1 ++ name ++ pad2) = true
  /\ is_numeric_type (pad1 ++ name ++ pad2 ++ 40 :: args) = true.
Proof.
  intros H1 H2 Hn.
  assert (Hu : upper (pad1 ++ name ++ pad2) = pad1 ++ upper name ++ pad2).
  { rewrite !upper_app, (upper_space pad1 H1), (upper_space pad2 H2).
    reflexivity. }
  assert (Hq : has_char 40 (pad1 ++ upper name ++ pad2) = false).
  { rewrite !has_char_app.
    rewrite (has_char_forallb is_space 40 pad1 H1 eq_refl).
    rewrite (has_char_forallb is_space 40 pad2 H2 eq_refl).
    cbn in Hn.
    repeat (destruct Hn as [Hn|Hn]; [rewrite <- Hn; reflexivity|]).
    contradiction. }
  assert (Hs : strip (pad1 ++ upper name ++ pad2) = upper name).
  { apply strip_pad; try assumption. cbn in Hn.
    repeat (destruct Hn as [Hn|Hn]; [rewrite <- Hn; reflexivity|]).
    contradiction. }
  assert (Hi : str_in (upper name) NUMERIC_TYPES = true).
  { unfold str_in. apply existsb_exists. exists (upper name).
    split; [exact Hn | apply str_eqb_refl]. }
  assert (A : is_numeric_type (pad1 ++ name ++ pad2) = true).
  { unfold is_numeric_type. rewrite Hu, hd_split_plain by exact Hq.
    rewrite Hs. exact Hi. }
  split; [exact A|].
  assert (E : pad1 ++ name ++ pad2 ++ 40 :: args
              = (pad1 ++ name ++ pad2) ++ 40 :: args)
    by (rewrite <- !app_assoc; reflexivity).
  unfold is_numeric_type. rewrite E, upper_app, Hu.
  change (upper (40 :: args)) with (40 :: upper args).
  rewrite hd_split_app by exact Hq. rewrite Hs. exact Hi.
Qed.

(** ** The theorems on sample data *)

Lemma pipe_type_pipe_delimiter_witness :
  detect_file_type_from_bytes pipe_text = Some pipe
  /\ detect_delimiter_from_content pipe_text = [124].
Proof.
  split; [reflexivity|]. apply (pipe_type_pipe_delimiter pipe_text).
  reflexivity.
Defined.

Lemma filename_found_shape_witness :
  get_filename_from_content_disposition plain_header
  = Some (str_of "report.tsv")
  /\ str_of "report.tsv" <> []
  /\ exists a rest,
       plain_header = a ++ str_of "filename=" ++ str_of "report.tsv" ++ rest.
Proof.
  split; [reflexivity|].
  destruct (filename_found_shape plain_header (str_of "report.tsv") eq_refl)
    as [Hn _].
  split; [exact Hn|].
  exists (str_of "attachment; "), (str_of "; size=3"). reflexivity.
Defined.

Lemma quoted_filename_extracted_witness :
  get_filename_from_content_disposition quoted_header
  = Some (str_of "Data.CSV")
  /\ detect_file_type_from_header quoted_header = Some (str_of "csv").
Proof.
  exact (quoted_filename_extracted (str_of "attachment; ") (str_of "Data.CSV")
           (str_of "; size=3") eq_refl ltac:(discriminate) eq_refl).
Defined.

Lemma plain_filename_extracted_witness :
  get_filename_from_content_disposition plain_header
  = Some (str_of "report.tsv")
  /\ detect_file_type_from_header plain_header = Some (str_of "tsv").
Proof.
  apply (plain_filename_extracted (str_of "attachment; ") (str_of "report.tsv")
           (str_of "; size=3") eq_refl eq_refl ltac:(discriminate) eq_refl).
  right. exists 59, (str_of " size=3"). split; reflexivity.
Defined.

Lemma url_type_parameter_then_path_witness :
  detect_file_type accept_netloc accept_netloc
    (str_of "https://h.com/a/b.csv?filetype=PARQUET#x")
  = Ok (Some (str_of "parquet"))
  /\ detect_file_type accept_netloc accept_netloc
       (str_of "https://h.com/a/b.csv?filetype=xlsx")
     = Ok (Some (str_of "csv")).
Proof.
  split.
  - apply (proj1 (url_type_parameter_then_path accept_netloc accept_netloc
                    (str_of "https://h.com/a/b.csv?filetype=PARQUET#x")
                    (mkParse (str_of "https") (str_of "h.com")
                       (str_of "/a/b.csv") [] (str_of "filetype=PARQUET")
                       (str_of "x")) eq_refl)
                 (str_of "PARQUET") []); reflexivity.
  - apply (proj1 (proj2
             (url_type_parameter_then_path accept_netloc accept_netloc
                (str_of "https://h.com/a/b.csv?filetype=xlsx")
                (mkParse (str_of "https") (str_of "h.com")
                   (str_of "/a/b.csv") [] (str_of "filetype=xlsx") [])
                eq_refl))
             (str_of "xlsx") []); reflexivity.
Defined.

Lemma dropbox_rewrite_keeps_type_witness :
  convert_dropbox_url accept_netloc accept_netloc dropbox_share_link
  = Ok (dropbox_direct_link, true)
  /\ detect_file_type accept_netloc accept_netloc dropbox_direct_link
     = detect_file_type accept_netloc accept_netloc dropbox_share_link.
Proof.
  split; [reflexivity|].
  apply (dropbox_rewrite_keeps_type accept_netloc accept_netloc
           dropbox_share_link dropbox_direct_link true).
  reflexivity.
Defined.

Lemma gdrive_link_type_unknown_witness :
  convert_google_drive_url gdrive_share_link = (gdrive_direct_link, true)
  /\ detect_file_type accept_netloc accept_netloc gdrive_direct_link = Ok None.
Proof.
  split; [reflexivity|].
  apply (gdrive_link_type_unknown accept_netloc accept_netloc
           gdrive_share_link gdrive_direct_link).
  reflexivity.
Defined.

Lemma gdrive_rewrite_keeps_id_witness :
  convert_google_drive_url gdrive_share_link = (gdrive_direct_link, true)
  /\ exists file_id,
       find_file_id gdrive_share_link = Some file_id
       /\ extract_gdrive_file_id gdrive_direct_link = Some file_id.
Proof.
  split; [reflexivity|].
  destruct (gdrive_rewrite_keeps_id gdrive_share_link gdrive_direct_link
              eq_refl) as (id & H1 & _ & _ & _ & H5).
  exists id. split; assumption.
Defined.

Lemma identifier_input_witness :
  forallb id_char (strip (str_of " myHtTpfile123456 ")) = true
  /\ extract_gdrive_file_id (str_of " myHtTpfile123456 ") = None
  /\ extract_gdrive_file_id (str_of " myHtXpfile123456 ")
     = Some (str_of "myHtXpfile123456").
Proof.
  split; [reflexivity|]. split.
  - exact (identifier_input (str_of " myHtTpfile123456 ") eq_refl).
  - exact (identifier_input (str_of " myHtXpfile123456 ") eq_refl).
Defined.

Lemma public_proxy_url_round_trip_witness :
  build_public_proxy_url github_release_link
  = Ok (str_of "https://github-proxy-auth.tigzig.com/?url=https%3A%2F%2Fgithub.com%2Fo%2Fr%2Freleases%2Fdownload%2Fv1%2Fdata.parquet")
  /\ url_params accept_netloc accept_netloc
       (str_of "https://github-proxy-auth.tigzig.com/?url=https%3A%2F%2Fgithub.com%2Fo%2Fr%2Freleases%2Fdownload%2Fv1%2Fdata.parquet")
     = [(str_of "url", [github_release_link])].
Proof.
  split; [reflexivity|].
  apply (public_proxy_url_round_trip accept_netloc accept_netloc
           github_release_link).
  - discriminate.
  - reflexivity.
Defined.

Lemma private_proxy_url_shape_witness :
  build_private_proxy_url github_release_link
    (str_of "https://proxy.example.com")
  = Ok (fetch_url github_private_fetch)
  /\ build_private_proxy_url github_release_link
       (str_of "https://proxy.example.com" ++ repeat 47 2)
     = Ok (fetch_url github_private_fetch).
Proof.
  split; [reflexivity|].
  apply (proj1 (private_proxy_url_shape github_release_link
                  (str_of "https://proxy.example.com")
                  (fetch_url github_private_fetch) eq_refl)).
Defined.

Lemma typed_url_is_saved_witness :
  detect_file_type_from_bytes html_with_magic = Some html_error
  /\ sharelink_import (str_of "/tmp") (Some (str_of "csv")) [] html_with_magic
     = save_by_type (str_of "/tmp") (Some (str_of "csv")) html_with_magic
  /\ save_by_type (str_of "/tmp") (Some (str_of "csv")) html_with_magic
     = Saved (str_of "csv") (Some [44]) (str_of "/tmp/imported_data.csv").
Proof.
  split; [reflexivity|]. split; [|reflexivity].
  apply (typed_url_is_saved (str_of "/tmp") (str_of "csv") [] html_with_magic).
  cbn. tauto.
Defined.

Lemma sharelink_import_outcome_witness :
  sharelink_import (str_of "/tmp") None [] html_with_magic = HtmlPage
  /\ detect_file_type_from_bytes html_with_magic = Some html_error
  /\ In (str_of "tsv") filetype_names
  /\ sharelink_import (str_of "/tmp") None plain_header html_with_magic
     = Saved (str_of "tsv") (Some [44]) (str_of "/tmp/imported_data.csv").
Proof.
  split; [reflexivity|]. split.
  - exact (proj2 (proj2 (sharelink_import_outcome (str_of "/tmp") None []
                           html_with_magic
                           ltac:(discriminate)))).
  - split; [|reflexivity].
    exact (proj1 (sharelink_import_outcome (str_of "/tmp") None plain_header
                    html_with_magic
                    ltac:(discriminate))).
Defined.

Lemma gdrive_token_type_from_content_witness :
  validate_file_input (str_of "Google Drive") gdrive_share_link
  = inr (str_of "1A2B3C")
  /\ detect_file_type_from_path (str_of "1A2B3C") = None
  /\ token_import (str_of "/tmp") (str_of "1A2B3C") pipe_text
     = Saved (str_of "pipe") (Some [124]) (str_of "/tmp/imported_data.csv").
Proof.
  split; [reflexivity|].
  destruct (gdrive_token_type_from_content (str_of "/tmp") gdrive_share_link
              (str_of "1A2B3C") pipe_text eq_refl) as [H1 H2].
  split; [exact H1|]. rewrite H2. reflexivity.
Defined.

Lemma gdrive_link_fetch_witness :
  convert_google_drive_url gdrive_share_link = (gdrive_direct_link, true)
  /\ exists encoded_url,
       unquote encoded_url = gdrive_direct_link
       /\ sharelink_fetch accept_netloc accept_netloc gdrive_share_link false []
          = Ok (mkFetch gdrive_direct_link None
                  (PUBLIC_PROXY_URL ++ str_of "/?url=" ++ encoded_url) false)
       /\ sharelink_fetch accept_netloc accept_netloc gdrive_share_link true []
          = Ok (mkFetch gdrive_direct_link None gdrive_direct_link false).
Proof.
  split; [reflexivity|].
  apply (gdrive_link_fetch accept_netloc accept_netloc gdrive_share_link
           gdrive_direct_link []).
  reflexivity.
Defined.

Lemma gdrive_token_input_validated_witness :
  validate_file_input (str_of "Google Drive") gdrive_share_link
  = inr (str_of "1A2B3C")
  /\ urlparse accept_netloc accept_netloc
       (str_of "https://www.googleapis.com/drive/v3/files/1A2B3C?alt=media")
     = Ok (mkParse (str_of "https") (str_of "www.googleapis.com")
             (str_of "/drive/v3/files/1A2B3C") [] (str_of "alt=media") []).
Proof.
  split; [reflexivity|].
  exact (proj2 (proj2 (proj2
           (gdrive_token_input_validated accept_netloc accept_netloc
              gdrive_share_link (str_of "1A2B3C") eq_refl)))).
Defined.

Lemma sample_cut_in_character_witness :
  decode_strict cut_text = Some (repeat 97 2047 ++ [233; 10])
  /\ decode_strict (firstn 2048 cut_text) = None
  /\ detect_file_type_from_bytes cut_text = None.
Proof.
  split; [vm_compute; reflexivity|].
  apply (sample_cut_in_character (repeat 97 2047) [0xA9; 10] 0xC3);
    vm_compute; try reflexivity. discriminate.
Defined.

Lemma output_filename_normalised_witness :
  output_filename_and_ext lower (str_of " Report.CSV ")
  = (str_of "Report.csv", str_of "csv")
  /\ output_filename_and_ext lower (str_of "Report.csv")
     = (str_of "Report.csv", str_of "csv").
Proof.
  split; [reflexivity|].
  exact (proj2 (proj2 (output_filename_normalised lower lower_idem
                         (fun s H => eq_trans (lower_dot s) H) eq_refl
                         lower_last_not_space (str_of " Report.CSV ")))).
Defined.

Lemma dropbox_link_fetch_witness :
  sharelink_fetch accept_netloc accept_netloc dropbox_share_link false []
  = Ok dropbox_fetch
  /\ already_direct
       (url_params accept_netloc accept_netloc (data_url dropbox_fetch)) = true
  /\ detect_file_type accept_netloc accept_netloc dropbox_share_link
     = Ok (file_type dropbox_fetch).
Proof.
  split; [reflexivity|].
  destruct (dropbox_link_fetch accept_netloc accept_netloc dropbox_share_link
              []
              (mkParse (str_of "https") (str_of "www.dropbox.com")
                 (str_of "/s/abc123/report.csv") [] (str_of "dl=0") [])
              dropbox_fetch eq_refl eq_refl eq_refl eq_refl eq_refl)
    as (_ & H2 & _ & _ & H5).
  split; assumption.
Defined.

Lemma github_link_fetch_witness :
  sharelink_fetch accept_netloc accept_netloc github_release_link true
    (str_of "https://proxy.example.com/")
  = Ok github_private_fetch
  /\ authorization github_private_fetch = true
  /\ exists encoded_url,
       fetch_url github_private_fetch
       = rstrip_with (N.eqb 47) (str_of "https://proxy.example.com/")
         ++ str_of "/?url=" ++ encoded_url
       /\ unquote encoded_url = github_release_link.
Proof.
  split; [reflexivity|].
  destruct (github_link_fetch accept_netloc accept_netloc github_release_link
              (str_of "https://proxy.example.com/") true
              github_private_fetch eq_refl eq_refl eq_refl eq_refl)
    as (_ & _ & H3 & H4 & _).
  split; [exact H3 | exact (H4 eq_refl)].
Defined.

Lemma other_link_fetch_witness :
  exists ft,
    detect_file_type accept_netloc accept_netloc
      (str_of "https://example.com/data.csv") = Ok ft
    /\ sharelink_fetch accept_netloc accept_netloc
         (str_of "https://example.com/data.csv") true []
       = Ok (mkFetch (str_of "https://example.com/data.csv") ft
               (str_of "https://example.com/data.csv") false).
Proof.
  apply (proj1 (other_link_fetch accept_netloc accept_netloc
                  (str_of "https://example.com/data.csv") [] true
                  eq_refl eq_refl eq_refl)
           (mkParse (str_of "https") (str_of "example.com")
              (str_of "/data.csv") [] [] [])).
  reflexivity.
Defined.

Lemma numeric_type_parameters_ignored_witness :
  is_numeric_type (str_of "decimal(18,2)") = is_numeric_type (str_of "decimal")
  /\ is_numeric_type (str_of "decimal") = true.
Proof.
  split; [|reflexivity].
  apply (numeric_type_parameters_ignored (str_of "decimal") (str_of "18,2)")).
  reflexivity.
Defined.

Lemma numeric_type_spelling_witness :
  is_numeric_type (str_of " Double ") = true
  /\ is_numeric_type (str_of " Double (53)") = true.
Proof.
  apply (numeric_type_spelling (str_of " ") (str_of "Double") (str_of " ")
           (str_of "53)")); try reflexivity.
  cbn. tauto.
Defined.
